(** * Consorcio quota analysers: a shallow embedding and its properties

    The Python sources embedded here are
    - [analyze_optimal_cotas.py]: draw resolution, catchment, gaps;
    - [analisar_sequencias.py] and [visualizar_grupo_simples.py]: runs of
      consecutive quotas;
    - [analisar_pontas.py]: edge opportunities.

    A Python [int] is a [Z], a [Set[int]] is a [gset Z], a [list] is a [list],
    a tuple is a tuple, a dictionary with fixed string keys is a record,
    [None] is the [None] of [option], and a [float] is a binary64 primitive
    float. The definitions come first, the facts about them after. *)

From Stdlib Require Import ZArith Lia.
From Stdlib Require Import Floats.
From stdpp Require Import gmap list sorting.

Local Open Scope Z_scope.

(** ** Python primitives *)

Module Py.

(** [range(lo, hi)]: the integers [lo, lo+1, ..., hi-1], empty when
    [hi <= lo]. *)
Definition range (lo hi : Z) : list Z := seqZ lo (hi - lo).

(** [len(l)] as a Python integer. *)
Definition len {A} (l : list A) : Z := Z.of_nat (length l).

(** [len(s)] of a set. *)
Definition set_len (s : gset Z) : Z := Z.of_nat (size s).

(** [sum(l)] over Python integers. *)
Definition sum (l : list Z) : Z := foldr Z.add 0 l.

(** [(a1, b1) < (a2, b2)] on tuples of two integers: lexicographic. *)
Definition lt_pair (p q : Z * Z) : bool :=
  (p.1 <? q.1) || ((p.1 =? q.1) && (p.2 <? q.2)).

(** [list.sort(key=..., reverse=...)] and [sorted]. Python's sort is
    stable and compares keys with [<] only; with [reverse=True] it reverses
    the list, sorts it, and reverses the result, so that elements with equal
    keys keep their original order. The stable sort is written as an
    insertion sort, where an element goes in front of the first one that is
    not smaller: on keys that [<] orders (integers, tuples of integers, floats
    that are numbers) every stable sort returns the same list. *)
Section Sort.
Context {A K : Type} (key : A → K) (lt : K → K → bool).

Fixpoint insert (x : A) (l : list A) : list A :=
  match l with
  | [] => [x]
  | y :: l' => if lt (key y) (key x) then y :: insert x l' else x :: y :: l'
  end.

Definition sort_forward (l : list A) : list A := foldr insert [] l.

Definition sort (reverse_flag : bool) (l : list A) : list A :=
  if reverse_flag then reverse (sort_forward (reverse l)) else sort_forward l.

End Sort.

(** [sorted(s)] of a set of integers. *)
Definition sorted_set (s : gset Z) : list Z :=
  sort (λ x, x) Z.ltb false (elements s).

(** [float(n)] for an integer: the binary64 float nearest to [n], ties to
    even. Below [2^63] the machine conversion computes it; above, the
    rounding of the specification of the floats (CPython raises
    [OverflowError] from [2^1024] on, where this gives an infinity). *)
Definition float_of_int (n : Z) : float :=
  if Z.abs n <? 2 ^ 63 then
    if n <? 0 then PrimFloat.opp (PrimFloat.of_uint63 (Uint63.of_Z (- n)))
    else PrimFloat.of_uint63 (Uint63.of_Z n)
  else SF2Prim (binary_normalize prec emax n 0 false).

(** An integer as an exact mantissa with exponent 0. *)
Definition sf_of_int (n : Z) : spec_float :=
  match n with
  | 0 => S754_zero false
  | Z.pos p => S754_finite false p 0
  | Z.neg p => S754_finite true p 0
  end.

(** [a / b] on integers, for a divisor that is not 0: the binary64 float
    nearest to the quotient. For operands below [2^53], which are floats
    themselves, it is the division of the two floats (the fast path of
    CPython); for the others the quotient of the exact integers is
    rounded. *)
Definition truediv (a b : Z) : float :=
  if (Z.abs a <? 2 ^ 53) && (Z.abs b <? 2 ^ 53) then
    PrimFloat.div (float_of_int a) (float_of_int b)
  else SF2Prim (SFdiv prec emax (sf_of_int a) (sf_of_int b)).

End Py.

(** ** NumPy functions used by the sources *)

Module Np.

(** [np.sqrt] of a Python integer. NumPy takes the integer as a signed
    64-bit number, or as an unsigned one from [2^63] on, and returns the
    square root of its float; for an integer that fits neither the call
    raises, which is [None]. *)
Definition sqrt (n : Z) : option float :=
  if (- 2 ^ 63 <=? n) && (n <? 2 ^ 64)
  then Some (PrimFloat.sqrt (Py.float_of_int n))
  else None.

(** [int(np.ceil(x))]: the least integer that is not below [x]; [None]
    when [x] is infinite or not a number, where [int] raises. *)
Definition ceil_int (x : float) : option Z :=
  match Prim2SF x with
  | S754_zero _ => Some 0
  | S754_finite s m e =>
      let n := if s then Z.neg m else Z.pos m in
      Some (if 0 <=? e then n * 2 ^ e else - ((- n) `div` 2 ^ (- e)))
  | S754_infinity _ | S754_nan => None
  end.

End Np.

(** ** analyze_optimal_cotas.py *)

Module AnalyzeOptimalCotas.

(** [get_active_cotas]: all quotas minus the contemplated and the
    available ones. *)
Definition get_active_cotas (total_cotas : Z) (contempladas disponiveis : gset Z)
  : gset Z :=
  let all_cotas : gset Z := list_to_set (Py.range 1 (total_cotas + 1)) in
  all_cotas ∖ contempladas ∖ disponiveis.

(** The [for offset in range(1, max_cota)] loop of [find_selected_cota],
    over the offsets still to visit; a [return] inside the loop ends the
    recursion, falling off the loop gives [None]. *)
Fixpoint search_offsets (initial_draw : Z) (active_cotas : gset Z) (max_cota : Z)
    (offsets : list Z) : option Z :=
  match offsets with
  | [] => None
  | offset :: rest =>
      let below := initial_draw - offset in
      if (below >=? 1) && bool_decide (below ∈ active_cotas)
      then Some below
      else
        let above := initial_draw + offset in
        if (above <=? max_cota) && bool_decide (above ∈ active_cotas)
        then Some above
        else search_offsets initial_draw active_cotas max_cota rest
  end.

Definition find_selected_cota (initial_draw : Z) (active_cotas : gset Z)
    (max_cota : Z) : option Z :=
  if bool_decide (initial_draw ∈ active_cotas) then Some initial_draw
  else search_offsets initial_draw active_cotas max_cota (Py.range 1 max_cota).

(** [calculate_catchment]: the draws of [1..max_cota] that select [cota],
    with their number. *)
Definition calculate_catchment (cota : Z) (active_cotas : gset Z) (max_cota : Z)
  : Z * list Z :=
  if bool_decide (cota ∉ active_cotas) then (0, [])
  else
    let draws :=
      filter (λ draw, find_selected_cota draw active_cotas max_cota = Some cota)
             (Py.range 1 (max_cota + 1)) in
    (Py.len draws, draws).

(** [sum(1 for c in range(lo, hi) if c in s)]. *)
Definition count_in (s : gset Z) (lo hi : Z) : Z :=
  Py.sum ((λ _, 1) <$> filter (λ c, c ∈ s) (Py.range lo hi)).

(** One turn of the loop of [find_gaps] at index [i]. The two lookups are
    within the list for every [i] of [range(len(sorted_active) - 1)]. *)
Definition find_gaps_step (sorted_active : list Z) (contempladas disponiveis : gset Z)
    (gaps : list (Z * Z * Z * Z * Z)) (i : nat) : list (Z * Z * Z * Z * Z) :=
  match sorted_active !! i, sorted_active !! S i with
  | Some lower, Some upper =>
      let gap_start := lower + 1 in
      let gap_end := upper - 1 in
      if gap_end >=? gap_start then
        let num_contempladas := count_in contempladas gap_start (gap_end + 1) in
        let num_disponiveis := count_in disponiveis gap_start (gap_end + 1) in
        gaps ++ [(gap_start, gap_end, gap_end - gap_start + 1,
                  num_contempladas, num_disponiveis)]
      else gaps
  | _, _ => gaps
  end.

(** [find_gaps]: the tuples
    [(start, end, size, num_contempladas, num_disponiveis)]. *)
Definition find_gaps (active_cotas contempladas disponiveis : gset Z)
  : list (Z * Z * Z * Z * Z) :=
  let sorted_active := Py.sorted_set active_cotas in
  foldl (find_gaps_step sorted_active contempladas disponiveis) []
        (seq 0 (length sorted_active - 1)).

(** The dictionary that [main] builds for each gap. *)
Record AnalyzedGap := {
  start : Z;
  end_ : Z;
  size : Z;
  num_contempladas : Z;
  num_disponiveis : Z;
  lower_boundary : Z;
  upper_boundary : Z;
  lower_buyable : bool;
  upper_buyable : bool;
  lower_active : bool;
  upper_active : bool;
  buyable_in_gap : list Z
}.

(** The body of the gap analysis loop of [main]. *)
Definition analyze_gap (active disponiveis : gset Z) (gap : Z * Z * Z * Z * Z)
  : AnalyzedGap :=
  let '(gap_start, gap_end, size, num_contempladas, num_disponiveis) := gap in
  let lower_boundary := gap_start - 1 in
  let upper_boundary := gap_end + 1 in
  {| start := gap_start;
     end_ := gap_end;
     size := size;
     num_contempladas := num_contempladas;
     num_disponiveis := num_disponiveis;
     lower_boundary := lower_boundary;
     upper_boundary := upper_boundary;
     lower_buyable := bool_decide (lower_boundary ∈ disponiveis);
     upper_buyable := bool_decide (upper_boundary ∈ disponiveis);
     lower_active := bool_decide (lower_boundary ∈ active);
     upper_active := bool_decide (upper_boundary ∈ active);
     buyable_in_gap :=
       filter (λ c, c ∈ disponiveis) (Py.range gap_start (gap_end + 1)) |}.

(** The gap analysis of [main], from the loaded sets to the sorted list
    [analyzed_gaps]: the gaps of the active quotas, each one analysed, sorted
    by [(size, num_contempladas)] in descending order. *)
Definition analyzed_gaps (total_cotas : Z) (contempladas disponiveis : gset Z)
  : list AnalyzedGap :=
  let active := get_active_cotas total_cotas contempladas disponiveis in
  let all_gaps := find_gaps active contempladas disponiveis in
  let analyzed := analyze_gap active disponiveis <$> all_gaps in
  Py.sort (λ x, (size x, num_contempladas x)) Py.lt_pair true analyzed.

(** The dictionary [catchments] of [main], as the list of its items in
    the order of insertion: one entry for each buyable quota, in ascending
    order, with the number of draws that would select the quota once bought
    (the quota is added to the active ones for the simulation). *)
Definition buyable_catchments (total_cotas : Z) (active disponiveis : gset Z)
  : list (Z * Z) :=
  (λ cota,
     let temp_active := active ∪ {[cota]} in
     (cota, (calculate_catchment cota temp_active total_cotas).1))
  <$> Py.sorted_set disponiveis.

(** [top_10] of [main]: the items sorted by catchment in descending order,
    cut after the tenth. *)
Definition top_10 (total_cotas : Z) (active disponiveis : gset Z) : list (Z * Z) :=
  take 10 (Py.sort snd Z.ltb true (buyable_catchments total_cotas active disponiveis)).

End AnalyzeOptimalCotas.

(** ** analisar_sequencias.py *)

Module AnalisarSequencias.

(** The dictionary that describes one sequence. *)
Record Sequence := {
  quotas : list Z;
  start : Z;
  end_ : Z;
  length : Z
}.

(** The dictionary built from [current_seq]: [current_seq[0]] and
    [current_seq[-1]] are its first and last element ([current_seq] is
    never empty: it starts with one element and is only appended to, or
    replaced by a one-element list). *)
Definition make_sequence (current_seq : list Z) : Sequence :=
  {| quotas := current_seq;
     start := default 0 (head current_seq);
     end_ := default 0 (last current_seq);
     length := Py.len current_seq |}.

(** [if len(current_seq) >= 2: sequences.append({...})]. *)
Definition save_sequence (sequences : list Sequence) (current_seq : list Z)
  : list Sequence :=
  if Py.len current_seq >=? 2 then sequences ++ [make_sequence current_seq]
  else sequences.

(** One turn of the loop at index [i], on the pair
    [(sequences, current_seq)]. The two lookups are within the list for
    every [i] of [range(1, len(sorted_quotas))]. *)
Definition scan_step (sorted_quotas : list Z) (state : list Sequence * list Z)
    (i : nat) : list Sequence * list Z :=
  match sorted_quotas !! (i - 1)%nat, sorted_quotas !! i with
  | Some prev, Some curr =>
      if curr =? prev + 1 then (state.1, state.2 ++ [curr])
      else (save_sequence state.1 state.2, [curr])
  | _, _ => state
  end.

Definition find_consecutive_sequences (quotas_list : list Z) : list Sequence :=
  match quotas_list with
  | [] => []
  | _ :: _ =>
      let sorted_quotas := Py.sorted_set (list_to_set quotas_list) in
      match sorted_quotas with
      | [] => []
      | first :: _ =>
          let state :=
            foldl (scan_step sorted_quotas) ([], [first])
                  (seq 1 (Datatypes.length sorted_quotas - 1)) in
          let sequences := save_sequence state.1 state.2 in
          Py.sort (λ s, (- length s, start s)) Py.lt_pair false sequences
      end
  end.

(** The dictionary returned by [load_group_data]. *)
Record GroupData := {
  total_quotas : Z;
  contemplated : gset Z;
  active : gset Z;
  available : gset Z
}.

(** The sets that [load_group_data] derives from the total and the two
    loaded sets. *)
Definition group_data (total_quotas : Z) (contemplated available : gset Z)
  : GroupData :=
  let all_quotas : gset Z := list_to_set (Py.range 1 (total_quotas + 1)) in
  let active := all_quotas ∖ contemplated in
  {| total_quotas := total_quotas;
     contemplated := contemplated;
     active := active;
     available := available |}.

(** The numbers that [analyze_consecutive_sequences] prints as statistics:
    [(total_in_sequences, total_available, isolated_quotas)], and [None]
    when the function returns before them (no available active quota, or no
    sequence found). [list(s)] of a set is the list of its elements. *)
Definition analyze_consecutive_sequences (data : GroupData) : option (Z * Z * Z) :=
  let available_active := active data ∩ available data in
  if Py.set_len available_active =? 0 then None
  else
    let quotas_for_sequence_analysis := available data ∪ contemplated data in
    let available_quotas := elements quotas_for_sequence_analysis in
    let sequences := find_consecutive_sequences available_quotas in
    match sequences with
    | [] => None
    | _ :: _ =>
        let total_in_sequences := Py.sum (length <$> sequences) in
        let total_available := Py.len available_quotas in
        let isolated_quotas := total_available - total_in_sequences in
        Some (total_in_sequences, total_available, isolated_quotas)
    end.

(** The two counts printed for a sequence: its quotas that are available
    and those that are contemplated. *)
Definition sequence_counts (data : GroupData) (seq : Sequence) : Z * Z :=
  let available_in_seq := filter (λ q, q ∈ available data) (quotas seq) in
  let contemplated_in_seq := filter (λ q, q ∈ contemplated data) (quotas seq) in
  (Py.len available_in_seq, Py.len contemplated_in_seq).

End AnalisarSequencias.

(** ** visualizar_grupo_simples.py *)

Module VisualizarGrupoSimples.

(** The same dictionaries as in [analisar_sequencias.py]. *)
Definition make_sequence (current_seq : list Z) : AnalisarSequencias.Sequence :=
  {| AnalisarSequencias.quotas := current_seq;
     AnalisarSequencias.start := default 0 (head current_seq);
     AnalisarSequencias.end_ := default 0 (last current_seq);
     AnalisarSequencias.length := Py.len current_seq |}.

Definition save_sequence (sequences : list AnalisarSequencias.Sequence)
    (current_seq : list Z) : list AnalisarSequencias.Sequence :=
  if Py.len current_seq >=? 2 then sequences ++ [make_sequence current_seq]
  else sequences.

Definition scan_step (sorted_quotas : list Z)
    (state : list AnalisarSequencias.Sequence * list Z) (i : nat)
  : list AnalisarSequencias.Sequence * list Z :=
  match sorted_quotas !! (i - 1)%nat, sorted_quotas !! i with
  | Some prev, Some curr =>
      if curr =? prev + 1 then (state.1, state.2 ++ [curr])
      else (save_sequence state.1 state.2, [curr])
  | _, _ => state
  end.

Definition find_consecutive_sequences (quotas_list : list Z)
  : list AnalisarSequencias.Sequence :=
  match quotas_list with
  | [] => []
  | _ :: _ =>
      let sorted_quotas := Py.sorted_set (list_to_set quotas_list) in
      match sorted_quotas with
      | [] => []
      | first :: _ =>
          let state :=
            foldl (scan_step sorted_quotas) ([], [first])
                  (seq 1 (length sorted_quotas - 1)) in
          let sequences := save_sequence state.1 state.2 in
          Py.sort (λ s, (- AnalisarSequencias.length s, AnalisarSequencias.start s))
                  Py.lt_pair false sequences
      end
  end.

(** The dictionary returned by [load_group_data]. *)
Record GroupData := {
  total_quotas : Z;
  contemplated : gset Z;
  active : gset Z;
  available : gset Z;
  lance_25 : gset Z
}.

(** The sets that [load_group_data] derives from the total and the three
    loaded sets. *)
Definition group_data (total_quotas : Z) (contemplated available lance_25 : gset Z)
  : GroupData :=
  let all_quotas : gset Z := list_to_set (Py.range 1 (total_quotas + 1)) in
  let active := all_quotas ∖ contemplated in
  {| total_quotas := total_quotas;
     contemplated := contemplated;
     active := active;
     available := available;
     lance_25 := lance_25 |}.

(** [top_sequences] of [visualizar_simples]: the sequences whose length is
    one of the three largest lengths found. *)
Definition top_sequences (data : GroupData) (highlight_sequences : bool)
  : list AnalisarSequencias.Sequence :=
  let available_active := active data ∩ available data in
  if highlight_sequences && negb (Py.set_len available_active =? 0) then
    let quotas_for_sequence := elements (available data ∪ contemplated data) in
    let all_sequences := find_consecutive_sequences quotas_for_sequence in
    match all_sequences with
    | [] => []
    | _ :: _ =>
        let unique_lengths :=
          take 3 (Py.sort (λ x, x) Z.ltb true
                    (elements (list_to_set (AnalisarSequencias.length <$> all_sequences)
                               : gset Z))) in
        filter (λ s, AnalisarSequencias.length s ∈ unique_lengths) all_sequences
    end
  else [].

(** The value written in the matrix cell of [quota]: 4 for a quota with a
    bid of 25%, 1 for a contemplated one, 2 for an available one, 3 for
    another active one, 0 otherwise. *)
Definition cell_value (data : GroupData) (quota : Z) : Z :=
  let available_active := active data ∩ available data in
  if bool_decide (quota ∈ lance_25 data) then 4
  else if bool_decide (quota ∈ contemplated data) then 1
  else if bool_decide (quota ∈ available_active) then 2
  else if bool_decide (quota ∈ active data) then 3
  else 0.

(** The size [(rows, cols)] of the matrix; [None] when its computation
    raises: a square root that raises, [int] of a value that is not a number,
    or the division by a zero [cols]. *)
Definition matrix_shape (total_quotas : Z) : option (Z * Z) :=
  match Np.sqrt total_quotas with
  | None => None
  | Some root =>
      match Np.ceil_int root with
      | None => None
      | Some cols =>
          if cols =? 0 then None
          else
            match Np.ceil_int (Py.truediv total_quotas cols) with
            | None => None
            | Some rows => Some (rows, cols)
            end
      end
  end.

(** The cell [(row, col)] of the quota [i + 1]. *)
Definition cell (cols i : Z) : Z * Z := (i `div` cols, i `mod` cols).

End VisualizarGrupoSimples.

(** ** analisar_pontas.py *)

Module AnalisarPontas.

(** The dictionary returned by [load_group_data]. *)
Record GroupData := {
  total_quotas : Z;
  contemplated : gset Z;
  active : gset Z;
  available : gset Z;
  occupied : gset Z
}.

(** The sets that [load_group_data] derives from the total and the two
    loaded sets. *)
Definition group_data (total_quotas : Z) (contemplated available : gset Z)
  : GroupData :=
  let all_quotas : gset Z := list_to_set (Py.range 1 (total_quotas + 1)) in
  let active := all_quotas ∖ contemplated in
  let occupied := contemplated ∪ (active ∖ available) in
  {| total_quotas := total_quotas;
     contemplated := contemplated;
     active := active;
     available := available;
     occupied := occupied |}.

(** The dictionary that describes one opportunity. *)
Record Opportunity := {
  start : Z;
  end_ : Z;
  length : Z;
  middle_occupied : Z;
  middle_available : Z;
  middle_total : Z;
  occupied_pct : float;
  score : float;
  middle_occupied_list : list Z;
  middle_available_list : list Z
}.

(** The body of the inner loop of [find_edge_opportunities] for one
    [start] and one [length]: the records it appends to [opportunities],
    none after a [continue]. *)
Definition candidate (data : GroupData) (min_occupied_pct : float)
    (start length : Z) : list Opportunity :=
  let end_ := start + length - 1 in
  let left_edge := start in
  let right_edge := end_ in
  let middle : gset Z := list_to_set (Py.range (start + 1) end_) in
  if bool_decide (middle = ∅) then []
  else if bool_decide (left_edge ∉ available data)
          || bool_decide (right_edge ∉ available data) then []
  else
    let middle_occupied := middle ∩ occupied data in
    let middle_available := middle ∩ available data in
    let occupied_pct := Py.truediv (Py.set_len middle_occupied) (Py.set_len middle) in
    if PrimFloat.ltb occupied_pct min_occupied_pct then []
    else
      let score :=
        PrimFloat.mul (PrimFloat.mul (Py.float_of_int length) occupied_pct)
                      100%float in
      [ {| start := left_edge;
           end_ := right_edge;
           length := length;
           middle_occupied := Py.set_len middle_occupied;
           middle_available := Py.set_len middle_available;
           middle_total := Py.set_len middle;
           occupied_pct := occupied_pct;
           score := score;
           middle_occupied_list := Py.sorted_set middle_occupied;
           middle_available_list := Py.sorted_set middle_available |} ].

(** The two nested loops: the records in the order they are appended. *)
Definition generate (data : GroupData) (min_length : Z) (min_occupied_pct : float)
  : list Opportunity :=
  start ← Py.range 1 (total_quotas data - min_length + 2);
  length ← Py.range min_length (Z.min 51 (total_quotas data - start + 2));
  candidate data min_occupied_pct start length.

Definition find_edge_opportunities (data : GroupData) (min_length : Z)
    (min_occupied_pct : float) : list Opportunity :=
  let opportunities := generate data min_length min_occupied_pct in
  Py.sort score PrimFloat.ltb true opportunities.

End AnalisarPontas.

(** ** Notions used to state the properties *)

(** *** Order of a sorted list *)

(** [key_le key lt x y]: the key of [y] is not smaller than the key of
    [x]; [key_equiv]: neither key is smaller than the other. *)
Definition key_le {A K} (key : A → K) (lt : K → K → bool) (x y : A) : Prop :=
  lt (key y) (key x) = false.

Definition key_equiv {A K} (key : A → K) (lt : K → K → bool) (x y : A) : Prop :=
  key_le key lt x y ∧ key_le key lt y x.

#[global] Instance key_le_dec {A K} (key : A → K) (lt : K → K → bool) (x y : A) :
  Decision (key_le key lt x y).
Proof. unfold key_le. apply _. Defined.

#[global] Instance key_equiv_dec {A K} (key : A → K) (lt : K → K → bool) (x y : A) :
  Decision (key_equiv key lt x y).
Proof. unfold key_equiv. apply _. Defined.

(** *** Draw resolution *)

Section ResolverNotions.
Variables (draw : Z) (active : gset Z) (max_cota : Z).

(** The test made below the draw at offset [k], and the one made above. *)
Definition below_wins (k : Z) : Prop := 1 ≤ draw - k ∧ draw - k ∈ active.
Definition above_wins (k : Z) : Prop := draw + k ≤ max_cota ∧ draw + k ∈ active.

(** Offset [k] selects nothing. *)
Definition offset_fails (k : Z) : Prop := ¬ below_wins k ∧ ¬ above_wins k.

(** Offset [k] selects [r]: the quota below when its test succeeds, the
    quota above when only its test succeeds. *)
Definition offset_selects (k r : Z) : Prop :=
  (below_wins k ∧ r = draw - k) ∨ (¬ below_wins k ∧ above_wins k ∧ r = draw + k).

End ResolverNotions.

(** *** Catchment *)

(** The sum, over the active quotas, of the counts that
    [calculate_catchment] returns. *)
Definition catchment_sum (active : gset Z) (max_cota : Z) : Z :=
  Py.sum ((λ q, (AnalyzeOptimalCotas.calculate_catchment q active max_cota).1)
            <$> elements active).

(** The draws of [1 .. max_cota] that select some quota. *)
Definition resolved_draws (active : gset Z) (max_cota : Z) : list Z :=
  filter (λ draw, is_Some (AnalyzeOptimalCotas.find_selected_cota draw active max_cota))
         (Py.range 1 (max_cota + 1)).

(** *** Gaps *)

(** The pairs of neighbours of a list, in order. *)
Definition adjacent_pairs {A} (l : list A) : list (A * A) := zip l (tail l).

(** What [find_gaps] emits for two successive active quotas. *)
Definition gap_between (contempladas disponiveis : gset Z) (lower upper : Z)
  : list (Z * Z * Z * Z * Z) :=
  AnalyzeOptimalCotas.find_gaps_step [lower; upper] contempladas disponiveis [] 0.

(** The quotas inside a gap tuple. *)
Definition gap_members (gap : Z * Z * Z * Z * Z) : list Z :=
  let '(gap_start, gap_end, _, _, _) := gap in Py.range gap_start (gap_end + 1).

(** *** Runs *)

(** [r] describes a maximal run of two or more consecutive integers of
    [quotas_list]: its members are the integers from [start] to [end_], all
    in the list, and the integers just before and just after are not. *)
Definition is_maximal_run (quotas_list : list Z) (r : AnalisarSequencias.Sequence)
  : Prop :=
  2 ≤ AnalisarSequencias.length r ∧
  AnalisarSequencias.quotas r =
    Py.range (AnalisarSequencias.start r)
             (AnalisarSequencias.start r + AnalisarSequencias.length r) ∧
  AnalisarSequencias.end_ r =
    AnalisarSequencias.start r + AnalisarSequencias.length r - 1 ∧
  (∀ x, x ∈ AnalisarSequencias.quotas r → x ∈ quotas_list) ∧
  (AnalisarSequencias.start r - 1 ∉ quotas_list) ∧
  (AnalisarSequencias.end_ r + 1 ∉ quotas_list).

(** The loop body of [find_consecutive_sequences] on two neighbours. *)
Definition scan_pair (state : list AnalisarSequencias.Sequence * list Z)
    (prev curr : Z) : list AnalisarSequencias.Sequence * list Z :=
  AnalisarSequencias.scan_step [prev; curr] state 1.

(** Longer runs first, and among runs of the same length the one that
    starts first. *)
Definition run_before (r1 r2 : AnalisarSequencias.Sequence) : Prop :=
  AnalisarSequencias.length r1 > AnalisarSequencias.length r2 ∨
  (AnalisarSequencias.length r1 = AnalisarSequencias.length r2 ∧
   AnalisarSequencias.start r1 < AnalisarSequencias.start r2).

(** *** Floats *)

(** A float that is a number (not NaN). *)
Definition is_number (x : float) : Prop := PrimFloat.is_nan x = false.

(** The place of a float in the order of the numbers: the sign class
    first (minus infinity, negative, zero, positive, plus infinity), then the
    exponent and the mantissa, both counted downwards for the negative
    numbers. *)
Definition sf_rank (s : spec_float) : Z * Z * Z :=
  match s with
  | S754_zero _ => (0, 0, 0)
  | S754_infinity true => (-2, 0, 0)
  | S754_infinity false => (2, 0, 0)
  | S754_nan => (0, 0, 0)
  | S754_finite true m e => (-1, - e, Z.neg m)
  | S754_finite false m e => (1, e, Z.pos m)
  end.

Definition float_rank (x : float) : Z * Z * Z := sf_rank (Prim2SF x).

Definition rank_lt (a b : Z * Z * Z) : Prop :=
  a.1.1 < b.1.1 ∨
  (a.1.1 = b.1.1 ∧ (a.1.2 < b.1.2 ∨ (a.1.2 = b.1.2 ∧ a.2 < b.2))).

(** *** Edge opportunities *)

(** The interior of the interval that starts at [start] and has [length]
    quotas, and the fraction of it that is occupied. *)
Definition interior (start length : Z) : gset Z :=
  list_to_set (Py.range (start + 1) (start + length - 1)).

Definition occupied_fraction (data : AnalisarPontas.GroupData) (start length : Z)
  : float :=
  Py.truediv (Py.set_len (interior start length ∩ AnalisarPontas.occupied data))
             (Py.set_len (interior start length)).

(** The record of the interval that starts at [start] and has [length]
    quotas; its score is [length * occupied_fraction * 100]. *)
Definition opportunity_record (data : AnalisarPontas.GroupData) (start length : Z)
  : AnalisarPontas.Opportunity :=
  {| AnalisarPontas.start := start;
     AnalisarPontas.end_ := start + length - 1;
     AnalisarPontas.length := length;
     AnalisarPontas.middle_occupied :=
       Py.set_len (interior start length ∩ AnalisarPontas.occupied data);
     AnalisarPontas.middle_available :=
       Py.set_len (interior start length ∩ AnalisarPontas.available data);
     AnalisarPontas.middle_total := Py.set_len (interior start length);
     AnalisarPontas.occupied_pct := occupied_fraction data start length;
     AnalisarPontas.score :=
       PrimFloat.mul
         (PrimFloat.mul (Py.float_of_int length) (occupied_fraction data start length))
         100%float;
     AnalisarPontas.middle_occupied_list :=
       Py.sorted_set (interior start length ∩ AnalisarPontas.occupied data);
     AnalisarPontas.middle_available_list :=
       Py.sorted_set (interior start length ∩ AnalisarPontas.available data) |}.

(** The checks made on the fraction [a / b] and on the score it gives to
    an interval of [b + 2] quotas: both are numbers, and the fraction is
    between 0 and 1. *)
Definition fraction_ok (b a : Z) : bool :=
  negb (PrimFloat.is_nan (Py.truediv a b)) &&
  negb (PrimFloat.is_nan
          (PrimFloat.mul (PrimFloat.mul (Py.float_of_int (b + 2)) (Py.truediv a b))
                         100%float)) &&
  PrimFloat.leb 0%float (Py.truediv a b) &&
  PrimFloat.leb (Py.truediv a b) 1%float.

(** The intervals that the two loops go through. *)
Definition enumerated (data : AnalisarPontas.GroupData) (min_length start length : Z)
  : Prop :=
  1 ≤ start < AnalisarPontas.total_quotas data - min_length + 2 ∧
  min_length ≤ length < Z.min 51 (AnalisarPontas.total_quotas data - start + 2).

(** The order in which the loops reach the records: by [start], then by
    [length]. *)
Definition enumerated_before (r1 r2 : AnalisarPontas.Opportunity) : Prop :=
  AnalisarPontas.start r1 < AnalisarPontas.start r2 ∨
  (AnalisarPontas.start r1 = AnalisarPontas.start r2 ∧
   AnalisarPontas.length r1 < AnalisarPontas.length r2).

(** A group of 115 quotas where only 100 and 110 are available and
    101..109 are contemplated: the interior of the interval 100..110 is fully
    occupied. *)
Definition example_full : AnalisarPontas.GroupData :=
  AnalisarPontas.group_data 115 (list_to_set (Py.range 101 110)) {[100; 110]}.

(** The same group with quota 105 available instead of contemplated: 8 of
    the 9 interior quotas are occupied. *)
Definition example_partial : AnalisarPontas.GroupData :=
  AnalisarPontas.group_data 115 (list_to_set (Py.range 101 110) ∖ {[105]})
                            {[100; 105; 110]}.

(** What a call can end in: a returned value or a raised condition. *)
Inductive Outcome (A : Type) : Type :=
  | Returned (value : A)
  | InvalidConfiguration.

Arguments Returned {A} value.
Arguments InvalidConfiguration {A}.

(** A call of [find_edge_opportunities]: the function has no [raise] and
    no operation of it can fail (the one division comes after the test that
    [middle] is not empty), so every call returns. *)
Definition call_find_edge_opportunities (data : AnalisarPontas.GroupData)
    (min_length : Z) (min_occupied_pct : float)
  : Outcome (list AnalisarPontas.Opportunity) :=
  Returned (AnalisarPontas.find_edge_opportunities data min_length min_occupied_pct).

(** A configuration outside the documented ranges. *)
Definition out_of_range (min_length : Z) (min_occupied_pct : float) : Prop :=
  min_length < 2 ∨
  PrimFloat.ltb min_occupied_pct 0%float = true ∨
  PrimFloat.ltb 1%float min_occupied_pct = true.

(** *** Nearest active quota *)

(** [q] is an active quota of the pool [1 .. max_cota]. *)
Definition in_pool (active : gset Z) (max_cota q : Z) : Prop :=
  q ∈ active ∧ 1 ≤ q ≤ max_cota.

(** [r] is at least as near to [draw] as [q] is, and is the lower one
    when both are at the same distance. *)
Definition nearer (draw r q : Z) : Prop :=
  Z.abs (draw - r) < Z.abs (draw - q) ∨
  (Z.abs (draw - r) = Z.abs (draw - q) ∧ r ≤ q).

(** *** Ranking of the buyable quotas *)

(** The item [p1] comes before [p2] in the ranking: more draws, or as many
    draws and a lower quota number. *)
Definition ranked_before (p1 p2 : Z * Z) : Prop :=
  p1.2 > p2.2 ∨ (p1.2 = p2.2 ∧ p1.1 < p2.1).

(** *** Gap tuples *)

(** The fields of a gap tuple
    [(start, end, size, num_contempladas, num_disponiveis)]. *)
Definition gap_first (gap : Z * Z * Z * Z * Z) : Z := gap.1.1.1.1.
Definition gap_last (gap : Z * Z * Z * Z * Z) : Z := gap.1.1.1.2.
Definition gap_size (gap : Z * Z * Z * Z * Z) : Z := gap.1.1.2.
Definition gap_contempladas (gap : Z * Z * Z * Z * Z) : Z := gap.1.2.
Definition gap_disponiveis (gap : Z * Z * Z * Z * Z) : Z := gap.2.

(** The number of quotas of [lo .. hi] that are in [s]. *)
Definition members_between (s : gset Z) (lo hi : Z) : Z :=
  Py.len (filter (λ x, x ∈ s) (Py.range lo (hi + 1))).

(** Larger gaps first, and among gaps of the same size those with more
    contemplated quotas. *)
Definition gap_ranked_before (g1 g2 : AnalyzeOptimalCotas.AnalyzedGap) : Prop :=
  AnalyzeOptimalCotas.size g1 > AnalyzeOptimalCotas.size g2 ∨
  (AnalyzeOptimalCotas.size g1 = AnalyzeOptimalCotas.size g2 ∧
   AnalyzeOptimalCotas.num_contempladas g2 ≤ AnalyzeOptimalCotas.num_contempladas g1).

(** *** Isolated quotas *)

(** [x] has a neighbour in [s]: the quota before or the quota after. *)
Definition has_neighbour (s : gset Z) (x : Z) : Prop := x - 1 ∈ s ∨ x + 1 ∈ s.

#[global] Instance has_neighbour_dec (s : gset Z) (x : Z) : Decision (has_neighbour s x).
Proof. unfold has_neighbour. apply _. Defined.

(** *** Highlighted sequences *)

(** [all_sequences] of [visualizar_simples]: the sequences of the
    available and the contemplated quotas. *)
Definition all_sequences (data : VisualizarGrupoSimples.GroupData)
  : list AnalisarSequencias.Sequence :=
  VisualizarGrupoSimples.find_consecutive_sequences
    (elements (VisualizarGrupoSimples.available data
               ∪ VisualizarGrupoSimples.contemplated data)).

(** The lengths that occur in a list of sequences. *)
Definition lengths_of (l : list AnalisarSequencias.Sequence) : gset Z :=
  list_to_set (AnalisarSequencias.length <$> l).

(** *** Order and thresholds of the edge opportunities *)

(** The order of the returned opportunities: by descending score, and
    between records whose scores compare equal, the order of the loops. *)
Definition opportunity_before (r1 r2 : AnalisarPontas.Opportunity) : Prop :=
  is_number (AnalisarPontas.score r1) ∧ is_number (AnalisarPontas.score r2) ∧
  key_le AnalisarPontas.score PrimFloat.ltb r2 r1 ∧
  (key_equiv AnalisarPontas.score PrimFloat.ltb r1 r2 → enumerated_before r1 r2).

(** The comparison of the fraction [a / b] with the thresholds 1.0 and
    0.5 agrees with the comparison of the integers. *)
Definition threshold_ok (b a : Z) : bool :=
  Bool.eqb (PrimFloat.ltb (Py.truediv a b) 1%float) (a <? b) &&
  Bool.eqb (PrimFloat.ltb (Py.truediv a b) 0.5%float) (2 * a <? b).

(** *** The matrix of the group *)

(** The check made on the shape computed for [total_quotas]: [cols] is
    the integer square root rounded up, [rows] the least number of rows of
    [cols] cells that hold all the quotas. *)
Definition shape_ok (total_quotas : Z) : bool :=
  match VisualizarGrupoSimples.matrix_shape total_quotas with
  | Some (rows, cols) =>
      ((cols - 1) * (cols - 1) <? total_quotas) && (total_quotas <=? cols * cols) &&
      ((rows - 1) * cols <? total_quotas) && (total_quotas <=? rows * cols)
  | None => false
  end.

(** ** Facts about the Python primitives *)

Lemma elem_of_range (lo hi x : Z) : x ∈ Py.range lo hi ↔ lo ≤ x < hi.
Proof. unfold Py.range. rewrite elem_of_seqZ. lia. Qed.

Lemma NoDup_range (lo hi : Z) : NoDup (Py.range lo hi).
Proof. apply NoDup_seqZ. Qed.

Lemma length_range (lo hi : Z) : length (Py.range lo hi) = Z.to_nat (hi - lo).
Proof. unfold Py.range. apply length_seqZ. Qed.

Lemma range_cons (lo hi : Z) :
  lo < hi → Py.range lo hi = lo :: Py.range (lo + 1) hi.
Proof.
  intros H. unfold Py.range. rewrite seqZ_cons by lia.
  f_equal. f_equal; lia.
Qed.

Lemma range_nil (lo hi : Z) : hi ≤ lo → Py.range lo hi = [].
Proof. intros H. unfold Py.range. apply seqZ_nil. lia. Qed.

Lemma range_app (lo mid hi : Z) :
  lo ≤ mid ≤ hi → Py.range lo hi = Py.range lo mid ++ Py.range mid hi.
Proof.
  intros H. unfold Py.range.
  replace (hi - lo) with ((mid - lo) + (hi - mid)) by lia.
  rewrite seqZ_app by lia. do 2 f_equal; lia.
Qed.

Lemma sum_cons (x : Z) (l : list Z) : Py.sum (x :: l) = x + Py.sum l.
Proof. reflexivity. Qed.

Lemma len_filter_cons {A} (P : A → Prop) `{∀ x, Decision (P x)} (x : A) (l : list A) :
  Py.len (filter P (x :: l)) = (if decide (P x) then 1 else 0) + Py.len (filter P l).
Proof.
  unfold Py.len. rewrite filter_cons. destruct (decide (P x)); simpl; lia.
Qed.

Lemma len_filter_le {A} (P : A → Prop) `{∀ x, Decision (P x)} (l : list A) :
  Py.len (filter P l) ≤ Py.len l.
Proof. unfold Py.len. pose proof (length_filter P l). lia. Qed.

Lemma len_filter_all {A} (P : A → Prop) `{∀ x, Decision (P x)} (l : list A) :
  Py.len (filter P l) = Py.len l ↔ ∀ x, x ∈ l → P x.
Proof.
  induction l as [|x l IH].
  - split; [intros _ x Hx; by apply elem_of_nil in Hx | done].
  - rewrite len_filter_cons. pose proof (len_filter_le P l) as Hle.
    unfold Py.len in *. simpl length. destruct (decide (P x)) as [HP|HP].
    + split.
      * intros Heq y Hy. apply elem_of_cons in Hy as [->|Hy]; [done|].
        apply IH; [lia | done].
      * intros Hall.
        assert (∀ y, y ∈ l → P y) as Hl by (intros; apply Hall; by right).
        apply IH in Hl. lia.
    + split; [lia|]. intros Hall. destruct HP. apply Hall. by left.
Qed.

(** *** The sort *)

Lemma StronglySorted_reverse {A} (R : relation A) (l : list A) :
  StronglySorted R l → StronglySorted (flip R) (reverse l).
Proof.
  induction 1 as [|x l Hs IH Hall].
  - constructor.
  - rewrite reverse_cons. apply StronglySorted_app. split; [|split].
    + intros y z Hy Hz. apply list_elem_of_singleton in Hz as ->.
      rewrite elem_of_reverse in Hy. unfold flip.
      rewrite Forall_forall in Hall. by apply Hall.
    + done.
    + repeat constructor.
Qed.

Lemma StronglySorted_mono {A} (R1 R2 : relation A) (l : list A) :
  (∀ x y, R1 x y → R2 x y) → StronglySorted R1 l → StronglySorted R2 l.
Proof.
  intros Himp. induction 1 as [|x l Hs IH Hall]; constructor; [done|].
  eapply Forall_impl; [done | auto].
Qed.

Section SortFacts.
Context {A K : Type} (key : A → K) (lt : K → K → bool).

Lemma insert_Permutation (x : A) (l : list A) : Py.insert key lt x l ≡ₚ x :: l.
Proof.
  induction l as [|y l IH]; simpl; [done|].
  destruct (lt (key y) (key x)); [|done].
  rewrite IH. apply perm_swap.
Qed.

Lemma sort_forward_Permutation (l : list A) : Py.sort_forward key lt l ≡ₚ l.
Proof.
  induction l as [|x l IH]; simpl; [done|].
  by rewrite insert_Permutation, IH.
Qed.

Lemma sort_Permutation (b : bool) (l : list A) : Py.sort key lt b l ≡ₚ l.
Proof.
  destruct b; simpl.
  - by rewrite reverse_Permutation, sort_forward_Permutation, reverse_Permutation.
  - apply sort_forward_Permutation.
Qed.

Lemma elem_of_sort (b : bool) (l : list A) (x : A) :
  x ∈ Py.sort key lt b l ↔ x ∈ l.
Proof. by rewrite sort_Permutation. Qed.

(** The comparison is a strict weak order on the elements that [ok]
    holds of (all of them for integer keys, those whose key is a number for
    float keys). *)
Variable ok : A → Prop.
Hypothesis lt_asym : ∀ x y,
  ok x → ok y → lt (key x) (key y) = true → lt (key y) (key x) = false.
Hypothesis le_trans : ∀ x y z,
  ok x → ok y → ok z →
  key_le key lt x y → key_le key lt y z → key_le key lt x z.

Lemma insert_sorted (x : A) (l : list A) :
  ok x → Forall ok l →
  StronglySorted (key_le key lt) l →
  StronglySorted (key_le key lt) (Py.insert key lt x l).
Proof.
  intros Hx Hl Hs. induction Hs as [|y l Hs IH Hall]; simpl.
  - repeat constructor.
  - apply Forall_cons in Hl as [Hy Hl].
    destruct (lt (key y) (key x)) eqn:E.
    + constructor; [by apply IH|].
      rewrite insert_Permutation. constructor; [|done].
      unfold key_le. by apply lt_asym.
    + constructor; [by constructor|].
      constructor; [done|].
      apply Forall_forall. intros z Hz.
      rewrite Forall_forall in Hl. rewrite Forall_forall in Hall.
      apply (le_trans x y z); auto.
Qed.

Lemma sort_forward_sorted (l : list A) :
  Forall ok l → StronglySorted (key_le key lt) (Py.sort_forward key lt l).
Proof.
  induction 1 as [|x l Hx Hl IH]; simpl; [constructor|].
  apply insert_sorted; [done | | done].
  by rewrite sort_forward_Permutation.
Qed.

Lemma sort_ascending (l : list A) :
  Forall ok l → StronglySorted (key_le key lt) (Py.sort key lt false l).
Proof. apply sort_forward_sorted. Qed.

Lemma sort_descending (l : list A) :
  Forall ok l → StronglySorted (flip (key_le key lt)) (Py.sort key lt true l).
Proof.
  intros Hl. simpl. apply StronglySorted_reverse, sort_forward_sorted.
  by rewrite reverse_Permutation.
Qed.

Lemma filter_insert (x0 x : A) (l : list A) :
  ok x0 → ok x → Forall ok l →
  filter (key_equiv key lt x0) (Py.insert key lt x l) =
  filter (key_equiv key lt x0) (x :: l).
Proof.
  intros H0 Hx Hl. induction Hl as [|y l Hy Hl IH]; simpl; [done|].
  destruct (lt (key y) (key x)) eqn:E; [|done].
  rewrite (filter_cons _ y), IH, (filter_cons _ x (y :: l)), !(filter_cons _ x l),
    (filter_cons _ y l).
  destruct (decide (key_equiv key lt x0 y)) as [[Hy1 Hy2]|]; [|done].
  destruct (decide (key_equiv key lt x0 x)) as [[Hx1 Hx2]|]; [|done].
  assert (key_le key lt x y) as Hle by (by apply (le_trans x x0 y)).
  unfold key_le in Hle. congruence.
Qed.

Lemma sort_forward_stable (x0 : A) (l : list A) :
  ok x0 → Forall ok l →
  filter (key_equiv key lt x0) (Py.sort_forward key lt l) =
  filter (key_equiv key lt x0) l.
Proof.
  intros H0. induction 1 as [|x l Hx Hl IH]; simpl; [done|].
  rewrite filter_insert; [| done | done | by rewrite sort_forward_Permutation].
  by rewrite !filter_cons, IH.
Qed.

(** The sort is stable in both directions: the elements whose key is
    equivalent to that of [x0] keep their relative order. *)
Lemma sort_stable (b : bool) (x0 : A) (l : list A) :
  ok x0 → Forall ok l →
  filter (key_equiv key lt x0) (Py.sort key lt b l) =
  filter (key_equiv key lt x0) l.
Proof.
  intros H0 Hl. destruct b; simpl; [|by apply sort_forward_stable].
  rewrite filter_reverse, sort_forward_stable, filter_reverse, reverse_involutive;
    [done | done | by rewrite reverse_Permutation].
Qed.

End SortFacts.

(** Integer keys. *)
Lemma sorted_set_Permutation (s : gset Z) : Py.sorted_set s ≡ₚ elements s.
Proof. apply sort_Permutation. Qed.

Lemma elem_of_sorted_set (s : gset Z) (x : Z) : x ∈ Py.sorted_set s ↔ x ∈ s.
Proof. by rewrite sorted_set_Permutation, elem_of_elements. Qed.

Lemma sorted_set_increasing (s : gset Z) : StronglySorted Z.lt (Py.sorted_set s).
Proof.
  assert (StronglySorted Z.le (Py.sorted_set s)) as Hle.
  { apply (StronglySorted_mono (key_le (λ x : Z, x) Z.ltb)).
    - unfold key_le. intros x y. rewrite Z.ltb_ge. lia.
    - apply (sort_ascending _ _ (λ _, True)).
      + intros x y _ _. rewrite Z.ltb_lt, Z.ltb_ge. lia.
      + unfold key_le. intros x y z _ _ _. rewrite !Z.ltb_ge. lia.
      + by apply Forall_forall. }
  assert (NoDup (Py.sorted_set s)) as Hnd.
  { rewrite sorted_set_Permutation. apply NoDup_elements. }
  induction Hle as [|x l Hs IH Hall]; [constructor|].
  apply NoDup_cons in Hnd as [Hnin Hnd].
  constructor; [by apply IH|].
  apply Forall_forall. intros y Hy.
  rewrite Forall_forall in Hall. specialize (Hall y Hy).
  assert (x ≠ y) by (intros ->; contradiction). lia.
Qed.

(** ** Draw resolution *)

Section Resolver.
Import AnalyzeOptimalCotas.
Variables (draw : Z) (active : gset Z) (max_cota : Z).

Lemma below_test (k : Z) :
  (draw - k >=? 1) && bool_decide (draw - k ∈ active) = true ↔
  below_wins draw active k.
Proof.
  unfold below_wins. rewrite andb_true_iff, bool_decide_eq_true, Z.geb_le. tauto.
Qed.

Lemma above_test (k : Z) :
  (draw + k <=? max_cota) && bool_decide (draw + k ∈ active) = true ↔
  above_wins draw active max_cota k.
Proof.
  unfold above_wins. rewrite andb_true_iff, bool_decide_eq_true, Z.leb_le. tauto.
Qed.

Lemma search_offsets_step (k : Z) (rest : list Z) :
  search_offsets draw active max_cota (k :: rest) =
    if (draw - k >=? 1) && bool_decide (draw - k ∈ active) then Some (draw - k)
    else if (draw + k <=? max_cota) && bool_decide (draw + k ∈ active)
         then Some (draw + k)
         else search_offsets draw active max_cota rest.
Proof. reflexivity. Qed.

(** The loop over the offsets [lo, lo+1, ..., lo+n-1] returns [r] exactly
    when some offset [k] of them selects [r] and all the earlier ones fail. *)
Lemma search_offsets_Some (n : nat) : ∀ (lo r : Z),
  search_offsets draw active max_cota (seqZ lo (Z.of_nat n)) = Some r ↔
  ∃ k, lo ≤ k < lo + Z.of_nat n ∧
       (∀ j, lo ≤ j < k → offset_fails draw active max_cota j) ∧
       offset_selects draw active max_cota k r.
Proof.
  induction n as [|n IH]; intros lo r.
  - simpl. split; [discriminate | intros (k & ? & _); lia].
  - rewrite seqZ_cons by lia.
    replace (Z.pred (Z.of_nat (S n))) with (Z.of_nat n) by lia.
    rewrite search_offsets_step.
    destruct ((draw - lo >=? 1) && bool_decide (draw - lo ∈ active)) eqn:Hb.
    { apply below_test in Hb. split.
      - intros [= <-]. exists lo. split; [lia|]. split; [intros; lia|].
        left. done.
      - intros (k & Hk & Hf & Hs).
        destruct (decide (k = lo)) as [->|Hne].
        + destruct Hs as [[_ ->]|[Hnb _]]; [done | contradiction].
        + destruct (Hf lo) as [Hnb _]; [lia | contradiction]. }
    assert (¬ below_wins draw active lo) as Hnb.
    { rewrite <- below_test, Hb. discriminate. }
    destruct ((draw + lo <=? max_cota) && bool_decide (draw + lo ∈ active)) eqn:Ha.
    { apply above_test in Ha. split.
      - intros [= <-]. exists lo. split; [lia|]. split; [intros; lia|].
        right. done.
      - intros (k & Hk & Hf & Hs).
        destruct (decide (k = lo)) as [->|Hne].
        + destruct Hs as [[? _]|(_ & _ & ->)]; [contradiction | done].
        + destruct (Hf lo) as [_ Hna]; [lia | contradiction]. }
    assert (¬ above_wins draw active max_cota lo) as Hna.
    { rewrite <- above_test, Ha. discriminate. }
    rewrite IH. split.
    + intros (k & Hk & Hf & Hs). exists k. split; [lia|]. split; [|done].
      intros j Hj. destruct (decide (j = lo)) as [->|]; [done|].
      apply Hf. lia.
    + intros (k & Hk & Hf & Hs).
      destruct (decide (k = lo)) as [->|Hne].
      * destruct Hs as [[? _]|(_ & ? & _)]; contradiction.
      * exists k. split; [lia|]. split; [|done]. intros j Hj. apply Hf. lia.
Qed.

Lemma search_offsets_None (offsets : list Z) :
  search_offsets draw active max_cota offsets = None ↔
  ∀ k, k ∈ offsets → offset_fails draw active max_cota k.
Proof.
  induction offsets as [|k rest IH].
  - simpl. split; [intros _ k Hk; by apply elem_of_nil in Hk | done].
  - rewrite search_offsets_step.
    destruct ((draw - k >=? 1) && bool_decide (draw - k ∈ active)) eqn:Hb.
    { apply below_test in Hb. split; [discriminate|].
      intros H. destruct (H k) as [Hnb _]; [left | contradiction]. }
    destruct ((draw + k <=? max_cota) && bool_decide (draw + k ∈ active)) eqn:Ha.
    { apply above_test in Ha. split; [discriminate|].
      intros H. destruct (H k) as [_ Hna]; [left | contradiction]. }
    rewrite IH. split.
    + intros H j Hj. apply elem_of_cons in Hj as [->|Hj]; [|by apply H].
      split; [rewrite <- below_test, Hb | rewrite <- above_test, Ha]; discriminate.
    + intros H j Hj. apply H. by right.
Qed.

Lemma find_selected_cota_in :
  draw ∈ active → find_selected_cota draw active max_cota = Some draw.
Proof. intros H. unfold find_selected_cota. by rewrite bool_decide_eq_true_2. Qed.

Lemma find_selected_cota_Some (r : Z) :
  draw ∉ active →
  (find_selected_cota draw active max_cota = Some r ↔
   ∃ k, 1 ≤ k ≤ max_cota - 1 ∧
        (∀ j, 1 ≤ j < k → offset_fails draw active max_cota j) ∧
        offset_selects draw active max_cota k r).
Proof.
  intros H. unfold find_selected_cota, Py.range.
  rewrite bool_decide_eq_false_2 by done.
  destruct (decide (1 ≤ max_cota)) as [Hm|Hm].
  - rewrite <- (Z2Nat.id (max_cota - 1)) at 1 by lia.
    rewrite search_offsets_Some. rewrite Z2Nat.id by lia.
    split; intros (k & Hk & Hrest); exists k; (split; [lia | done]).
  - rewrite seqZ_nil by lia.
    simpl. split; [discriminate | intros (k & ? & _); lia].
Qed.

Lemma find_selected_cota_None :
  find_selected_cota draw active max_cota = None ↔
  (draw ∉ active) ∧ (∀ k, 1 ≤ k ≤ max_cota - 1 → offset_fails draw active max_cota k).
Proof.
  unfold find_selected_cota. case_bool_decide as Hin.
  - split; [discriminate | intros [? _]; contradiction].
  - rewrite search_offsets_None. split.
    + intros H. split; [done|]. intros k Hk. apply H, elem_of_range. lia.
    + intros [_ H] k Hk. apply H. apply elem_of_range in Hk. lia.
Qed.

(** Whatever is selected is an active quota. *)
Lemma find_selected_cota_active (r : Z) :
  find_selected_cota draw active max_cota = Some r → r ∈ active.
Proof.
  destruct (decide (draw ∈ active)) as [Hin|Hin].
  - rewrite find_selected_cota_in by done. by intros [= <-].
  - rewrite find_selected_cota_Some by done.
    intros (k & _ & _ & [[[_ ?] ->]|(_ & [_ ?] & ->)]); done.
Qed.

End Resolver.

(** C1. [find_selected_cota] returns the draw itself when it is active;
    otherwise it returns the quota selected at the first offset [k] of
    [1 .. max_cota - 1], in ascending order, at which a test succeeds, where
    at each offset [draw - k] is tested first (it wins when it is at least 1
    and active) and [draw + k] only when that failed (it wins when it is at
    most [max_cota] and active); it returns [None] exactly when every offset
    fails. With the active quotas 10 and 12 among 20, draw 11 selects 10. *)
Theorem find_selected_cota_below_first (draw : Z) (active : gset Z) (max_cota : Z) :
  (draw ∈ active →
     AnalyzeOptimalCotas.find_selected_cota draw active max_cota = Some draw) ∧
  (draw ∉ active → ∀ r,
     (AnalyzeOptimalCotas.find_selected_cota draw active max_cota = Some r ↔
      ∃ k, 1 ≤ k ≤ max_cota - 1 ∧
           (∀ j, 1 ≤ j < k → offset_fails draw active max_cota j) ∧
           offset_selects draw active max_cota k r)) ∧
  (draw ∉ active →
     (AnalyzeOptimalCotas.find_selected_cota draw active max_cota = None ↔
      ∀ k, 1 ≤ k ≤ max_cota - 1 → offset_fails draw active max_cota k)) ∧
  AnalyzeOptimalCotas.find_selected_cota 11 {[10; 12]} 20 = Some 10.
Proof.
  split; [apply find_selected_cota_in|].
  split; [intros H r; by apply find_selected_cota_Some|].
  split; [|by vm_compute].
  intros H. rewrite find_selected_cota_None. tauto.
Qed.

(** C2. With a non-empty set of active quotas inside [1 .. max_cota] and a
    draw inside [1 .. max_cota], some quota is always selected; with no
    active quota at all, no draw selects anything. *)
Theorem find_selected_cota_total_in_range :
  (∀ (draw : Z) (active : gset Z) (max_cota : Z),
     active ≠ ∅ →
     (∀ q, q ∈ active → 1 ≤ q ≤ max_cota) →
     1 ≤ draw ≤ max_cota →
     AnalyzeOptimalCotas.find_selected_cota draw active max_cota ≠ None) ∧
  (∀ (draw max_cota : Z),
     AnalyzeOptimalCotas.find_selected_cota draw ∅ max_cota = None).
Proof.
  split.
  - intros draw active max_cota Hne Hsub Hd Hnone.
    apply find_selected_cota_None in Hnone as [Hnin Hfail].
    apply set_choose_L in Hne as [q Hq].
    specialize (Hsub q Hq).
    assert (q ≠ draw) as Hqd by (intros ->; contradiction).
    destruct (Z.lt_total q draw) as [Hlt|[?|Hgt]]; [|done|].
    + destruct (Hfail (draw - q)) as [Hb _]; [lia|].
      apply Hb. split; [lia|]. by replace (draw - (draw - q)) with q by lia.
    + destruct (Hfail (q - draw)) as [_ Ha]; [lia|].
      apply Ha. split; [lia|]. by replace (draw + (q - draw)) with q by lia.
  - intros draw max_cota. apply find_selected_cota_None.
    split; [set_solver|].
    intros k _. split; intros [_ H]; set_solver.
Qed.

(** Five quotas with 2 and 4 active: draw 5 selects a quota. *)
Lemma find_selected_cota_total_in_range_witness :
  AnalyzeOptimalCotas.find_selected_cota 5 {[2; 4]} 5 ≠ None.
Proof.
  apply (proj1 find_selected_cota_total_in_range 5 {[2; 4]} 5).
  - apply (non_empty_inhabited_L 2). set_solver.
  - intros q Hq. set_unfold in Hq. lia.
  - lia.
Defined.

(** ** Catchment *)

(** Among the candidates [qs], listed once each, at most one is the quota
    that [x] stands for. *)
Lemma sum_indicator (x : option Z) (qs : list Z) :
  NoDup qs →
  Py.sum ((λ q, if decide (x = Some q) then 1 else 0) <$> qs) =
    match x with
    | Some r => if decide (r ∈ qs) then 1 else 0
    | None => 0
    end.
Proof.
  induction 1 as [|q qs Hnin Hnd IH].
  - destruct x as [r|]; [|done].
    destruct (decide (r ∈ [])) as [Hr|]; [by apply elem_of_nil in Hr | done].
  - rewrite fmap_cons, sum_cons, IH.
    destruct x as [r|]; [|by rewrite decide_False].
    destruct (decide (Some r = Some q)) as [[= ->]|Hne].
    + rewrite (decide_False (P := q ∈ qs)) by done.
      rewrite decide_True; [done | left].
    + destruct (decide (r ∈ qs)) as [Hr|Hr].
      * rewrite decide_True; [done | by right].
      * rewrite decide_False; [done|].
        intros [->|?]%elem_of_cons; [congruence | done].
Qed.

(** Bucketing the draws [ds] by the quota they select loses none of the
    draws that select something, and counts none twice. *)
Lemma bucket_count (f : Z → option Z) (qs ds : list Z) :
  NoDup qs →
  (∀ d r, f d = Some r → r ∈ qs) →
  Py.sum ((λ q, Py.len (filter (λ d, f d = Some q) ds)) <$> qs) =
    Py.len (filter (λ d, is_Some (f d)) ds).
Proof.
  intros Hnd Hin. induction ds as [|d ds IH].
  - clear. induction qs as [|q qs IH]; [done|].
    rewrite fmap_cons, sum_cons, IH. reflexivity.
  - rewrite len_filter_cons, <- IH.
    transitivity (Py.sum ((λ q, if decide (f d = Some q) then 1 else 0) <$> qs) +
                  Py.sum ((λ q, Py.len (filter (λ d, f d = Some q) ds)) <$> qs)).
    + clear. induction qs as [|q qs IHq]; [done|].
      rewrite !fmap_cons, !sum_cons, IHq.
      rewrite (len_filter_cons (λ d0, f d0 = Some q)). lia.
    + f_equal. rewrite sum_indicator by done.
      destruct (f d) as [r|] eqn:Hr.
      * rewrite decide_True by (by eapply Hin).
        rewrite decide_True; [done | by eexists].
      * rewrite decide_False; [done | by intros [? ?]].
Qed.

Lemma catchment_sum_resolved (active : gset Z) (max_cota : Z) :
  catchment_sum active max_cota = Py.len (resolved_draws active max_cota).
Proof.
  unfold catchment_sum, resolved_draws.
  rewrite <- (bucket_count
                (λ d, AnalyzeOptimalCotas.find_selected_cota d active max_cota)
                (elements active)).
  - f_equal. apply list_fmap_ext. intros i q Hq.
    apply list_elem_of_lookup_2, elem_of_elements in Hq.
    unfold AnalyzeOptimalCotas.calculate_catchment.
    rewrite bool_decide_eq_false_2; [done|]. by intros Hn.
  - apply NoDup_elements.
  - intros d r Hr. apply elem_of_elements.
    by eapply find_selected_cota_active.
Qed.

(** C3. The counts that [calculate_catchment] returns for the active
    quotas add up to the number of draws of [1 .. max_cota] that select
    some quota; so the sum is at most [max_cota], the number of draws, and
    it is [max_cota] exactly when no draw of the range is left without a
    selected quota. *)
Theorem catchment_conservation (active : gset Z) (max_cota : Z) :
  0 ≤ max_cota →
  catchment_sum active max_cota = Py.len (resolved_draws active max_cota) ∧
  catchment_sum active max_cota ≤ max_cota ∧
  (catchment_sum active max_cota = max_cota ↔
   ∀ draw, 1 ≤ draw ≤ max_cota →
     AnalyzeOptimalCotas.find_selected_cota draw active max_cota ≠ None).
Proof.
  intros Hmax. rewrite catchment_sum_resolved.
  split; [done|]. unfold resolved_draws.
  assert (Py.len (Py.range 1 (max_cota + 1)) = max_cota) as Hlen.
  { unfold Py.len. rewrite length_range. lia. }
  split.
  - rewrite <- Hlen at 2. apply len_filter_le.
  - rewrite <- Hlen at 2. rewrite len_filter_all. split.
    + intros H draw Hd Hnone. destruct (H draw) as [r Hr].
      * apply elem_of_range. lia.
      * congruence.
    + intros H draw Hd. apply elem_of_range in Hd.
      destruct (AnalyzeOptimalCotas.find_selected_cota draw active max_cota) eqn:E.
      * by eexists.
      * destruct (H draw); [lia | done].
Qed.

(** Six quotas with 2 and 5 active. *)
Lemma catchment_conservation_witness :
  catchment_sum {[2; 5]} 6 = Py.len (resolved_draws {[2; 5]} 6) ∧
  catchment_sum {[2; 5]} 6 ≤ 6 ∧
  (catchment_sum {[2; 5]} 6 = 6 ↔
   ∀ draw, 1 ≤ draw ≤ 6 →
     AnalyzeOptimalCotas.find_selected_cota draw {[2; 5]} 6 ≠ None).
Proof. apply (catchment_conservation {[2; 5]} 6). lia. Defined.

Example catchment_of_2 :
  AnalyzeOptimalCotas.calculate_catchment 2 {[2; 5]} 6 = (3, [1; 2; 3]).
Proof. by vm_compute. Qed.

Example catchment_of_5 :
  AnalyzeOptimalCotas.calculate_catchment 5 {[2; 5]} 6 = (3, [4; 5; 6]).
Proof. by vm_compute. Qed.

(** C10. For a quota that is not active, [calculate_catchment] returns the
    count 0 and the empty list of draws. *)
Theorem calculate_catchment_not_active (cota : Z) (active : gset Z) (max_cota : Z) :
  cota ∉ active →
  AnalyzeOptimalCotas.calculate_catchment cota active max_cota = (0, []).
Proof.
  intros H. unfold AnalyzeOptimalCotas.calculate_catchment.
  by rewrite bool_decide_eq_true_2.
Qed.

Lemma calculate_catchment_not_active_witness :
  AnalyzeOptimalCotas.calculate_catchment 3 {[2; 5]} 6 = (0, []).
Proof.
  apply (calculate_catchment_not_active 3 {[2; 5]} 6).
  intros H. set_unfold in H. lia.
Defined.

(** ** Gaps *)

(** A loop over the indices [0 .. len(xs) - 2] that reads [xs[i]] and
    [xs[i + 1]] is a loop over the pairs of neighbours of [xs]. *)
Lemma foldl_index_adjacent {A B} (f : B → A → A → B) (suf : list A) :
  ∀ (pre : list A) (acc : B),
  foldl (λ acc i,
           match (pre ++ suf) !! i, (pre ++ suf) !! S i with
           | Some a, Some b => f acc a b
           | _, _ => acc
           end) acc (seq (length pre) (length suf - 1)) =
  foldl (λ acc p, f acc p.1 p.2) acc (adjacent_pairs suf).
Proof.
  induction suf as [|a suf IH]; intros pre acc; [done|].
  destruct suf as [|b suf]; [done|].
  replace (length (a :: b :: suf) - 1)%nat with (S (length (b :: suf) - 1))
    by (simpl; lia).
  cbn [seq foldl adjacent_pairs tail zip zip_with].
  rewrite (list_lookup_middle pre (b :: suf) a (length pre)) by done.
  replace (pre ++ a :: b :: suf) with ((pre ++ [a]) ++ b :: suf)
    by (by rewrite <- app_assoc).
  rewrite (list_lookup_middle (pre ++ [a]) suf b (S (length pre)))
    by (rewrite length_app; simpl; lia).
  specialize (IH (pre ++ [a]) (f acc a b)).
  rewrite length_app in IH. simpl in IH.
  replace (length pre + 1)%nat with (S (length pre)) in IH by lia.
  exact IH.
Qed.

Lemma foldl_append_bind {A B} (g : A → list B) (ps : list A) :
  ∀ acc, foldl (λ acc p, acc ++ g p) acc ps = acc ++ (ps ≫= g).
Proof.
  induction ps as [|p ps IH]; intros acc; cbn [foldl].
  - by rewrite app_nil_r.
  - by rewrite IH, bind_cons, app_assoc.
Qed.

Lemma find_gaps_step_between (xs : list Z) (c d : gset Z)
    (gaps : list (Z * Z * Z * Z * Z)) (i : nat) (lower upper : Z) :
  xs !! i = Some lower → xs !! S i = Some upper →
  AnalyzeOptimalCotas.find_gaps_step xs c d gaps i = gaps ++ gap_between c d lower upper.
Proof.
  intros H1 H2. unfold gap_between, AnalyzeOptimalCotas.find_gaps_step.
  rewrite H1, H2. simpl.
  destruct (upper - 1 >=? lower + 1); [done | by rewrite app_nil_r].
Qed.

Lemma foldl_pointwise {A B} (f g : B → A → B) (l : list A) :
  (∀ acc x, f acc x = g acc x) → ∀ acc, foldl f acc l = foldl g acc l.
Proof.
  intros Hfg. induction l as [|x l IH]; intros acc; simpl; [done|].
  by rewrite Hfg, IH.
Qed.

(** [find_gaps] goes through the pairs of successive active quotas. *)
Lemma find_gaps_pairs (active c d : gset Z) :
  AnalyzeOptimalCotas.find_gaps active c d =
  adjacent_pairs (Py.sorted_set active) ≫= (λ p, gap_between c d p.1 p.2).
Proof.
  unfold AnalyzeOptimalCotas.find_gaps. cbv zeta.
  etransitivity.
  - exact (foldl_index_adjacent
      (λ gaps lower upper,
         AnalyzeOptimalCotas.find_gaps_step [lower; upper] c d gaps 0)
      (Py.sorted_set active) [] []).
  - rewrite (foldl_pointwise _ (λ acc p, acc ++ gap_between c d p.1 p.2)).
    + by rewrite foldl_append_bind.
    + intros acc [lower upper]. by apply find_gaps_step_between.
Qed.

Lemma gap_between_members (c d : gset Z) (lower upper : Z) :
  gap_between c d lower upper ≫= gap_members = Py.range (lower + 1) upper.
Proof.
  unfold gap_between, AnalyzeOptimalCotas.find_gaps_step. simpl.
  destruct (upper - 1 >=? lower + 1) eqn:E; simpl.
  - rewrite app_nil_r. f_equal. lia.
  - symmetry. apply range_nil. rewrite Z.geb_leb in E.
    apply Z.leb_gt in E. lia.
Qed.

Lemma gap_between_inv (c d : gset Z) (lower upper : Z) (gap : Z * Z * Z * Z * Z) :
  gap ∈ gap_between c d lower upper →
  gap.1.1.1.1 = lower + 1 ∧ gap.1.1.1.2 = upper - 1.
Proof.
  unfold gap_between, AnalyzeOptimalCotas.find_gaps_step. simpl.
  destruct (upper - 1 >=? lower + 1); simpl.
  - by intros ->%list_elem_of_singleton.
  - by intros ?%elem_of_nil.
Qed.

Lemma elem_of_adjacent_pairs {A} (l : list A) (a b : A) :
  (a, b) ∈ adjacent_pairs l → a ∈ l ∧ b ∈ l.
Proof.
  unfold adjacent_pairs. intros H. split.
  - by apply elem_of_zip_l in H.
  - apply elem_of_zip_r in H. destruct l; [done | by right].
Qed.

(** The quotas of a strictly increasing list together with the quotas
    strictly between its neighbours are the whole range from its first to
    its last element. *)
Lemma increasing_cover (xs : list Z) : ∀ (lo hi : Z),
  StronglySorted Z.lt (lo :: xs) →
  last (lo :: xs) = Some hi →
  lo ≤ hi ∧
  (lo :: xs) ++ (adjacent_pairs (lo :: xs) ≫= (λ p, Py.range (p.1 + 1) p.2))
    ≡ₚ Py.range lo (hi + 1).
Proof.
  induction xs as [|b xs IH]; intros lo hi Hs Hlast.
  - injection Hlast as <-. split; [lia|].
    simpl. rewrite range_cons, range_nil by lia. done.
  - apply StronglySorted_cons in Hs as [Hall Hs].
    apply Forall_cons in Hall as [Hlt _].
    rewrite last_cons_cons in Hlast.
    destruct (IH b hi Hs Hlast) as [Hle Hperm].
    split; [lia|].
    change (adjacent_pairs (lo :: b :: xs)) with ((lo, b) :: adjacent_pairs (b :: xs)).
    rewrite bind_cons. cbn [fst snd].
    rewrite (range_cons lo (hi + 1)) by lia.
    rewrite (range_app (lo + 1) b (hi + 1)) by lia.
    rewrite <- Hperm. cbn [app]. constructor.
    rewrite !app_comm_cons.
    rewrite (assoc_L (++)). rewrite (assoc_L (++)).
    f_equiv. apply Permutation_app_comm.
Qed.

Lemma bind_bind {A B C} (f : A → list B) (g : B → list C) (l : list A) :
  (l ≫= f) ≫= g = l ≫= (λ x, f x ≫= g).
Proof.
  induction l as [|x l IH]; [done|].
  by rewrite !bind_cons, bind_app, IH.
Qed.

Lemma find_gaps_members (active c d : gset Z) :
  AnalyzeOptimalCotas.find_gaps active c d ≫= gap_members =
  adjacent_pairs (Py.sorted_set active) ≫= (λ p, Py.range (p.1 + 1) p.2).
Proof.
  rewrite find_gaps_pairs, bind_bind.
  apply list_bind_ext; [|done]. intros p. apply gap_between_members.
Qed.

(** The first and the last element of the sorted active quotas are the
    smallest and the largest active quota. *)
Lemma sorted_set_extremes (active : gset Z) (lo hi : Z) :
  lo ∈ active → hi ∈ active → (∀ x, x ∈ active → lo ≤ x ≤ hi) →
  ∃ xs, Py.sorted_set active = lo :: xs ∧ last (lo :: xs) = Some hi.
Proof.
  intros Hlo Hhi Hall.
  pose proof (sorted_set_increasing active) as Hs.
  destruct (Py.sorted_set active) as [|x0 xs] eqn:E.
  { apply elem_of_sorted_set in Hlo. rewrite E in Hlo. by apply elem_of_nil in Hlo. }
  assert (∀ x, x ∈ x0 :: xs → lo ≤ x ≤ hi) as Hin.
  { intros x Hx. apply Hall. apply elem_of_sorted_set. by rewrite E. }
  assert (x0 = lo) as ->.
  { assert (lo ∈ x0 :: xs) as Hl by (rewrite <- E; by apply elem_of_sorted_set).
    apply elem_of_cons in Hl as [->|Hl]; [done|].
    apply StronglySorted_cons in Hs as [Hf _].
    rewrite Forall_forall in Hf. specialize (Hf lo Hl).
    specialize (Hin x0 ltac:(left)). lia. }
  exists xs. split; [done|].
  destruct (last (lo :: xs)) as [h|] eqn:El; [|by apply last_None in El].
  f_equal. apply last_Some in El as [l' El].
  assert (hi ∈ l' ++ [h]) as Hh.
  { rewrite <- El, <- E. by apply elem_of_sorted_set. }
  apply elem_of_app in Hh as [Hh|Hh%list_elem_of_singleton]; [|done].
  rewrite El in Hs.
  assert (hi < h).
  { eapply (StronglySorted_app_1_elem_of Z.lt l' [h]); [done | done | left]. }
  assert (lo ≤ h ≤ hi); [|lia].
  apply Hin. rewrite El. apply elem_of_app. right. left.
Qed.

(** C4, as the code has it. The gaps that [find_gaps] emits lie between
    successive active quotas: together with the active quotas they make up,
    each quota once, the range from the smallest active quota to the largest
    one (not [1 .. total]: the quotas below the smallest active quota and
    above the largest one are in no gap); with no active quota there is no
    gap. *)
Theorem find_gaps_cover_between_extremes (active contempladas disponiveis : gset Z) :
  (∀ lo hi : Z,
     lo ∈ active → hi ∈ active → (∀ x, x ∈ active → lo ≤ x ≤ hi) →
     Py.sorted_set active ++
       (AnalyzeOptimalCotas.find_gaps active contempladas disponiveis ≫= gap_members)
     ≡ₚ Py.range lo (hi + 1)) ∧
  AnalyzeOptimalCotas.find_gaps ∅ contempladas disponiveis = [].
Proof.
  split; [|done].
  intros lo hi Hlo Hhi Hall.
  destruct (sorted_set_extremes active lo hi) as (xs & E & Hlast); [done..|].
  rewrite find_gaps_members.
  pose proof (sorted_set_increasing active) as Hs. rewrite E in *.
  by apply increasing_cover.
Qed.

(** Ten quotas, 3 and 4 contemplated, 5 and 8 available: the active quotas
    1, 2, 6, 7, 9, 10 and the gaps 3-5 and 8-8 make up the range 1..10. *)
Lemma find_gaps_cover_between_extremes_witness :
  Py.sorted_set (AnalyzeOptimalCotas.get_active_cotas 10 {[3; 4]} {[5; 8]}) ++
    (AnalyzeOptimalCotas.find_gaps
       (AnalyzeOptimalCotas.get_active_cotas 10 {[3; 4]} {[5; 8]}) {[3; 4]} {[5; 8]}
     ≫= gap_members)
  ≡ₚ Py.range 1 (10 + 1).
Proof.
  apply (proj1 (find_gaps_cover_between_extremes
                  (AnalyzeOptimalCotas.get_active_cotas 10 {[3; 4]} {[5; 8]})
                  {[3; 4]} {[5; 8]})).
  - by vm_compute.
  - by vm_compute.
  - intros x Hx. unfold AnalyzeOptimalCotas.get_active_cotas in Hx.
    apply elem_of_difference in Hx as [Hx _].
    apply elem_of_difference in Hx as [Hx _].
    apply elem_of_list_to_set, elem_of_range in Hx. lia.
Defined.

Example find_gaps_of_ten :
  AnalyzeOptimalCotas.find_gaps
    (AnalyzeOptimalCotas.get_active_cotas 10 {[3; 4]} {[5; 8]}) {[3; 4]} {[5; 8]} =
  [(3, 5, 3, 2, 1); (8, 8, 1, 0, 1)].
Proof. by vm_compute. Qed.

(** Three quotas of which quota 1 is contemplated: the active quotas are 2
    and 3, there is no gap, and quota 1 of the range 1..3 is in neither. *)
Lemma find_gaps_misses_leading_quota :
  Py.sorted_set (AnalyzeOptimalCotas.get_active_cotas 3 {[1]} ∅) ++
    (AnalyzeOptimalCotas.find_gaps
       (AnalyzeOptimalCotas.get_active_cotas 3 {[1]} ∅) {[1]} ∅ ≫= gap_members)
    = [2; 3] ∧
  Py.range 1 (3 + 1) = [1; 2; 3].
Proof. by vm_compute. Qed.

(** ** Gap boundaries *)

(** C7. Every gap that [main] analyses has both boundaries classified as
    not purchasable: [lower_buyable] and [upper_buyable] are [False], since
    each boundary is an active quota ([lower_active] and [upper_active] are
    [True]) and no active quota is among the available ones. *)
Theorem analyzed_gaps_boundaries_not_buyable
    (total_cotas : Z) (contempladas disponiveis : gset Z) :
  Forall (λ g, AnalyzeOptimalCotas.lower_buyable g = false ∧
               AnalyzeOptimalCotas.upper_buyable g = false ∧
               AnalyzeOptimalCotas.lower_active g = true ∧
               AnalyzeOptimalCotas.upper_active g = true)
         (AnalyzeOptimalCotas.analyzed_gaps total_cotas contempladas disponiveis).
Proof.
  apply Forall_forall. intros g Hg.
  unfold AnalyzeOptimalCotas.analyzed_gaps in Hg. cbv zeta in Hg.
  apply elem_of_sort, list_elem_of_fmap in Hg as (gap & -> & Hgap).
  rewrite find_gaps_pairs in Hgap.
  apply list_elem_of_bind in Hgap as ([lower upper] & Hgap & Hp).
  apply elem_of_adjacent_pairs in Hp as [Hl Hu].
  apply elem_of_sorted_set in Hl, Hu.
  apply gap_between_inv in Hgap as [Hs He]. simpl in Hs, He.
  destruct gap as [[[[gap_start gap_end] sz] nc] nd]. simpl in *. subst.
  replace (lower + 1 - 1) with lower by lia.
  replace (upper - 1 + 1) with upper by lia.
  assert (∀ x, x ∈ AnalyzeOptimalCotas.get_active_cotas total_cotas contempladas
                      disponiveis → x ∉ disponiveis) as Hdisj.
  { intros x Hx. unfold AnalyzeOptimalCotas.get_active_cotas in Hx.
    by apply elem_of_difference in Hx as [_ Hx]. }
  rewrite !bool_decide_eq_false, !bool_decide_eq_true. auto.
Qed.

Example analyzed_gaps_of_ten :
  (λ g, (AnalyzeOptimalCotas.start g, AnalyzeOptimalCotas.end_ g,
         AnalyzeOptimalCotas.lower_boundary g, AnalyzeOptimalCotas.upper_boundary g,
         AnalyzeOptimalCotas.lower_buyable g, AnalyzeOptimalCotas.upper_buyable g))
    <$> AnalyzeOptimalCotas.analyzed_gaps 10 {[3; 4]} {[5; 8]}
  = [(3, 5, 2, 6, false, false); (8, 8, 7, 9, false, false)].
Proof. by vm_compute. Qed.

(** ** Runs of consecutive quotas *)

Example find_consecutive_sequences_example :
  (λ r, (AnalisarSequencias.start r, AnalisarSequencias.end_ r,
         AnalisarSequencias.length r))
    <$> AnalisarSequencias.find_consecutive_sequences
          [39; 1; 2; 6; 7; 8; 12; 13; 14; 34; 35; 36; 7; 2]
  = [(6, 8, 3); (12, 14, 3); (34, 36, 3); (1, 2, 2)].
Proof. by vm_compute. Qed.

Section Runs.
Import AnalisarSequencias.

Lemma scan_loop_pairs (xs : list Z) (state : list Sequence * list Z) :
  foldl (scan_step xs) state (seq 1 (Datatypes.length xs - 1)) =
  foldl (λ st p, scan_pair st p.1 p.2) state (adjacent_pairs xs).
Proof.
  rewrite <- fmap_S_seq, foldl_fmap.
  rewrite (foldl_pointwise _
    (λ acc i, match ([] ++ xs) !! i, ([] ++ xs) !! S i with
              | Some a, Some b => scan_pair acc a b
              | _, _ => acc
              end)).
  - apply (foldl_index_adjacent scan_pair xs []).
  - intros acc i. unfold scan_step, scan_pair. simpl.
    rewrite Nat.sub_0_r.
    destruct (xs !! i) as [a|]; [|done]. by destruct (xs !! S i).
Qed.

Lemma head_range (s n : Z) : 1 ≤ n → head (Py.range s (s + n)) = Some s.
Proof. intros H. by rewrite range_cons by lia. Qed.

Lemma last_range (s n : Z) : 1 ≤ n → last (Py.range s (s + n)) = Some (s + n - 1).
Proof.
  intros H. rewrite (range_app s (s + n - 1) (s + n)) by lia.
  rewrite (range_cons (s + n - 1)) by lia.
  rewrite (range_nil (s + n - 1 + 1)) by lia. apply last_snoc.
Qed.

Lemma len_range (s n : Z) : 0 ≤ n → Py.len (Py.range s (s + n)) = n.
Proof. intros H. unfold Py.len. rewrite length_range. lia. Qed.

Lemma make_sequence_range (s n : Z) :
  1 ≤ n →
  make_sequence (Py.range s (s + n)) =
  {| quotas := Py.range s (s + n); start := s; end_ := s + n - 1; length := n |}.
Proof.
  intros H. unfold make_sequence.
  by rewrite head_range, last_range, len_range by lia.
Qed.

Lemma save_sequence_app (seqs : list Sequence) (cur : list Z) :
  save_sequence seqs cur = seqs ++ save_sequence [] cur.
Proof.
  unfold save_sequence. destruct (Py.len cur >=? 2); [done | by rewrite app_nil_r].
Qed.

(** A block [c0 .. prev] of consecutive quotas on its own: the only
    maximal run in it is the block, when it has two quotas or more. *)
Lemma runs_of_block (c0 prev : Z) (r : Sequence) :
  c0 ≤ prev →
  r ∈ save_sequence [] (Py.range c0 (prev + 1)) ↔
  is_maximal_run (Py.range c0 (prev + 1)) r.
Proof.
  intros Hle. unfold save_sequence.
  replace (prev + 1) with (c0 + (prev + 1 - c0)) by lia.
  rewrite len_range by lia.
  rewrite (make_sequence_range c0 (prev + 1 - c0)) by lia.
  replace (c0 + (prev + 1 - c0)) with (prev + 1) by lia.
  unfold is_maximal_run. split.
  - destruct (prev + 1 - c0 >=? 2) eqn:E; [|by intros ?%elem_of_nil].
    intros ->%list_elem_of_singleton. simpl. apply Z.geb_le in E.
    replace (c0 + (prev + 1 - c0)) with (prev + 1) by lia.
    split; [lia|]. split; [done|]. split; [lia|]. split; [done|].
    rewrite !elem_of_range. lia.
  - destruct r as [q s e n]. simpl.
    intros (Hn & -> & -> & Hin & Hbefore & Hafter).
    assert (c0 ≤ s ∧ s + n ≤ prev + 1) as [H1 H2].
    { pose proof (Hin s) as Hs. pose proof (Hin (s + n - 1)) as He.
      rewrite !elem_of_range in Hs, He. lia. }
    rewrite elem_of_range in Hbefore, Hafter.
    assert (s = c0) as -> by lia.
    assert (n = prev + 1 - c0) as -> by lia.
    assert ((prev + 1 - c0 >=? 2) = true) as -> by (apply Z.geb_le; lia).
    simpl. apply list_elem_of_singleton.
    replace (c0 + (prev + 1 - c0)) with (prev + 1) by lia. done.
Qed.

(** Two parts of a list that are more than one apart: a maximal run of
    the whole is a maximal run of one of the parts. *)
Lemma runs_split (l1 l2 : list Z) (p c : Z) (r : Sequence) :
  (∀ x, x ∈ l1 → x ≤ p) → (∀ x, x ∈ l2 → c ≤ x) → p + 1 < c →
  is_maximal_run (l1 ++ l2) r ↔ is_maximal_run l1 r ∨ is_maximal_run l2 r.
Proof.
  intros H1 H2 Hpc. unfold is_maximal_run.
  destruct r as [q s e n]. simpl. split.
  - intros (Hn & -> & -> & Hin & Hbefore & Hafter).
    assert (∀ x, s ≤ x < s + n → x ∈ l1 ∨ x ∈ l2) as Hin'.
    { intros x Hx. apply elem_of_app, Hin, elem_of_range. lia. }
    rewrite elem_of_app in Hbefore, Hafter.
    destruct (Hin' s) as [Hs|Hs]; [lia| |].
    + left. pose proof (H1 s Hs).
      assert (s + n ≤ p + 1) as Hend.
      { destruct (decide (s + n ≤ p + 1)) as [|Hgt]; [done|].
        destruct (Hin' (p + 1)) as [Hx|Hx]; [lia | |].
        - apply H1 in Hx. lia.
        - apply H2 in Hx. lia. }
      split; [done|]. split; [done|]. split; [done|].
      split; [|tauto].
      intros x Hx. apply elem_of_range in Hx.
      destruct (Hin' x) as [?|Hx2]; [lia | done |]. apply H2 in Hx2. lia.
    + right. pose proof (H2 s Hs).
      split; [done|]. split; [done|]. split; [done|].
      split; [|tauto].
      intros x Hx. apply elem_of_range in Hx.
      destruct (Hin' x) as [Hx1|?]; [lia | | done]. apply H1 in Hx1. lia.
  - intros [(Hn & -> & -> & Hin & Hbefore & Hafter)|
            (Hn & -> & -> & Hin & Hbefore & Hafter)].
    + assert (∀ x, s ≤ x < s + n → x ≤ p) as Hp.
      { intros x Hx. apply H1, Hin, elem_of_range. lia. }
      pose proof (Hp s). pose proof (Hp (s + n - 1)).
      split; [done|]. split; [done|]. split; [done|].
      rewrite !elem_of_app. split; [|split].
      * intros x Hx. apply elem_of_app. left. by apply Hin.
      * intros [?|Hx]; [done|]. apply H2 in Hx. lia.
      * intros [?|Hx]; [done|]. apply H2 in Hx. lia.
    + assert (∀ x, s ≤ x < s + n → c ≤ x) as Hc.
      { intros x Hx. apply H2, Hin, elem_of_range. lia. }
      pose proof (Hc s). pose proof (Hc (s + n - 1)).
      split; [done|]. split; [done|]. split; [done|].
      rewrite !elem_of_app. split; [|split].
      * intros x Hx. apply elem_of_app. right. by apply Hin.
      * intros [Hx|?]; [|done]. apply H1 in Hx. lia.
      * intros [Hx|?]; [|done]. apply H1 in Hx. lia.
Qed.

Lemma is_maximal_run_start (l : list Z) (r : Sequence) :
  is_maximal_run l r → start r ∈ l.
Proof.
  intros (Hn & Hq & _ & Hin & _). apply Hin. rewrite Hq, elem_of_range. lia.
Qed.

Lemma is_maximal_run_ext (l1 l2 : list Z) (r : Sequence) :
  (∀ x, x ∈ l1 ↔ x ∈ l2) → is_maximal_run l1 r → is_maximal_run l2 r.
Proof.
  intros Heq (Hn & Hq & He & Hin & Hb & Ha).
  split; [done|]. split; [done|]. split; [done|].
  rewrite <- !Heq. split; [|done]. intros x Hx. by apply Heq, Hin.
Qed.

Lemma scan_pair_eq (st : list Sequence * list Z) (prev curr : Z) :
  scan_pair st prev curr =
  if curr =? prev + 1 then (st.1, st.2 ++ [curr])
  else (save_sequence st.1 st.2, [curr]).
Proof. reflexivity. Qed.

(** The loop, started on the block [cur = c0 .. prev] with the quotas of
    [rest] still to come, adds to [seqs] the maximal runs of [cur ++ rest],
    in the order of their starts. *)
Lemma scan_result (rest : list Z) : ∀ (prev : Z) (seqs : list Sequence) (cur : list Z) (c0 : Z),
  cur = Py.range c0 (prev + 1) → c0 ≤ prev →
  StronglySorted Z.lt (prev :: rest) →
  ∃ news,
    save_sequence
      (foldl (λ st p, scan_pair st p.1 p.2) (seqs, cur)
             (adjacent_pairs (prev :: rest))).1
      (foldl (λ st p, scan_pair st p.1 p.2) (seqs, cur)
             (adjacent_pairs (prev :: rest))).2 = seqs ++ news ∧
    (∀ r, r ∈ news ↔ is_maximal_run (cur ++ rest) r) ∧
    StronglySorted (λ r1 r2, start r1 < start r2) news.
Proof.
  induction rest as [|c rest IH]; intros prev seqs cur c0 -> Hle Hs.
  - exists (save_sequence [] (Py.range c0 (prev + 1))). simpl.
    split; [apply save_sequence_app|]. split.
    + intros r. rewrite app_nil_r. by apply runs_of_block.
    + unfold save_sequence. destruct (_ >=? 2); repeat constructor.
  - apply StronglySorted_cons in Hs as [Hall Hs].
    pose proof Hall as Hall'. apply Forall_cons in Hall' as [Hlt _].
    change (adjacent_pairs (prev :: c :: rest))
      with ((prev, c) :: adjacent_pairs (c :: rest)).
    cbn [foldl fst snd]. rewrite scan_pair_eq. cbn [fst snd].
    destruct (c =? prev + 1) eqn:E.
    + apply Z.eqb_eq in E. subst c.
      destruct (IH (prev + 1) seqs (Py.range c0 (prev + 1) ++ [prev + 1]) c0)
        as (news & Hres & Hmem & Hsorted); [| lia | done |].
      { rewrite (range_app c0 (prev + 1) (prev + 1 + 1)) by lia.
        by rewrite (range_cons (prev + 1)), (range_nil (prev + 1 + 1)) by lia. }
      exists news. split; [done|]. split; [|done].
      intros r. rewrite Hmem. by rewrite <- app_assoc.
    + apply Z.eqb_neq in E.
      destruct (IH c (save_sequence seqs (Py.range c0 (prev + 1))) [c] c)
        as (news & Hres & Hmem & Hsorted); [| lia | done |].
      { by rewrite range_cons, range_nil by lia. }
      assert (∀ x, x ∈ Py.range c0 (prev + 1) → x ≤ prev) as H1.
      { intros x Hx. apply elem_of_range in Hx. lia. }
      assert (∀ x, x ∈ c :: rest → c ≤ x) as H2.
      { intros x [->|Hx]%elem_of_cons; [lia|].
        apply StronglySorted_cons in Hs as [Hc _].
        rewrite Forall_forall in Hc. specialize (Hc x Hx). lia. }
      exists (save_sequence [] (Py.range c0 (prev + 1)) ++ news).
      split; [|split].
      * rewrite Hres. by rewrite save_sequence_app, <- app_assoc.
      * intros r. rewrite elem_of_app, Hmem, runs_of_block by done.
        symmetry. apply (runs_split _ _ prev c); [done | done | lia].
      * apply StronglySorted_app. split; [|split; [|done]].
        -- intros r1 r2 Hr1 Hr2.
           apply runs_of_block, is_maximal_run_start, H1 in Hr1; [|done].
           apply Hmem, is_maximal_run_start, H2 in Hr2. lia.
        -- unfold save_sequence. destruct (_ >=? 2); repeat constructor.
Qed.

End Runs.

Lemma lt_pair_spec (p q : Z * Z) :
  Py.lt_pair p q = true ↔ p.1 < q.1 ∨ (p.1 = q.1 ∧ p.2 < q.2).
Proof.
  unfold Py.lt_pair.
  rewrite orb_true_iff, andb_true_iff, !Z.ltb_lt, Z.eqb_eq. tauto.
Qed.

Lemma lt_pair_false (p q : Z * Z) :
  Py.lt_pair p q = false ↔ q.1 < p.1 ∨ (p.1 = q.1 ∧ q.2 ≤ p.2).
Proof.
  rewrite <- not_true_iff_false, lt_pair_spec. lia.
Qed.

(** Sorting with a key that is a pair of integers. *)
Lemma sort_pairs_sorted {A} (key : A → Z * Z) (b : bool) (l : list A) :
  StronglySorted (if b then flip (key_le key Py.lt_pair) else key_le key Py.lt_pair)
                 (Py.sort key Py.lt_pair b l).
Proof.
  assert (Forall (λ _ : A, True) l) as Hok by (by apply Forall_forall).
  assert (∀ x y : A, True → True →
            Py.lt_pair (key x) (key y) = true → Py.lt_pair (key y) (key x) = false)
    as Hasym.
  { intros x y _ _. rewrite lt_pair_spec, lt_pair_false. lia. }
  assert (∀ x y z : A, True → True → True →
            key_le key Py.lt_pair x y → key_le key Py.lt_pair y z →
            key_le key Py.lt_pair x z) as Htrans.
  { unfold key_le. intros x y z _ _ _. rewrite !lt_pair_false. lia. }
  destruct b.
  - by apply (sort_descending _ _ (λ _, True)).
  - by apply (sort_ascending _ _ (λ _, True)).
Qed.

Lemma increasing_NoDup (l : list Z) : StronglySorted Z.lt l → NoDup l.
Proof.
  induction 1 as [|x l Hs IH Hall]; constructor; [|done].
  intros Hx. rewrite Forall_forall in Hall. specialize (Hall x Hx). lia.
Qed.

Lemma sorted_distinct {A B} (R : relation A) (f : A → B) (l : list A) :
  StronglySorted R l → NoDup (f <$> l) →
  StronglySorted (λ a b, R a b ∧ f a ≠ f b) l.
Proof.
  induction 1 as [|x l Hs IH Hall]; intros Hnd; [constructor|].
  rewrite fmap_cons in Hnd. apply NoDup_cons in Hnd as [Hx Hnd].
  constructor; [by apply IH|].
  rewrite Forall_forall in Hall. apply Forall_forall. intros y Hy.
  split; [by apply Hall|]. intros Heq. apply Hx. rewrite Heq.
  by apply list_elem_of_fmap_2.
Qed.

(** [find_consecutive_sequences] sorts the maximal runs of its input,
    found in the order of their starts. *)
Lemma find_consecutive_sequences_sorted_runs (quotas_list : list Z) :
  ∃ runs,
    AnalisarSequencias.find_consecutive_sequences quotas_list =
      Py.sort (λ s, (- AnalisarSequencias.length s, AnalisarSequencias.start s))
              Py.lt_pair false runs ∧
    (∀ r, r ∈ runs ↔ is_maximal_run quotas_list r) ∧
    StronglySorted (λ r1 r2, AnalisarSequencias.start r1 < AnalisarSequencias.start r2)
                   runs.
Proof.
  destruct quotas_list as [|q0 qs].
  { exists []. split; [done|]. split; [|constructor].
    intros r. split; [by intros ?%elem_of_nil|].
    intros Hr%is_maximal_run_start. by apply elem_of_nil in Hr. }
  unfold AnalisarSequencias.find_consecutive_sequences.
  pose proof (sorted_set_increasing (list_to_set (q0 :: qs))) as Hs.
  assert (∀ x, x ∈ Py.sorted_set (list_to_set (q0 :: qs)) ↔ x ∈ q0 :: qs) as Hmem.
  { intros x. by rewrite elem_of_sorted_set, elem_of_list_to_set. }
  destruct (Py.sorted_set (list_to_set (q0 :: qs))) as [|first rest] eqn:E.
  { specialize (Hmem q0). rewrite elem_of_nil in Hmem.
    destruct (proj2 Hmem). left. }
  cbv zeta. rewrite scan_loop_pairs.
  destruct (scan_result rest first [] [first] first) as (runs & Hres & Hruns & Hsorted);
    [by rewrite range_cons, range_nil by lia | lia | done |].
  exists runs. rewrite Hres. split; [done|]. split; [|done].
  intros r. rewrite Hruns. split; apply is_maximal_run_ext; intros x;
    by rewrite <- Hmem.
Qed.

(** C6. [find_consecutive_sequences] returns exactly the maximal runs of
    two or more consecutive integers of its input (a repeated quota counts
    once), each run once, the longer runs first and, among runs of the same
    length, the one that starts first; an empty input gives an empty result.
    The copy in [visualizar_grupo_simples.py] returns the same list. *)
Theorem find_consecutive_sequences_maximal_runs (quotas_list : list Z) :
  (∀ r, r ∈ AnalisarSequencias.find_consecutive_sequences quotas_list ↔
        is_maximal_run quotas_list r) ∧
  NoDup (AnalisarSequencias.find_consecutive_sequences quotas_list) ∧
  StronglySorted run_before
    (AnalisarSequencias.find_consecutive_sequences quotas_list) ∧
  AnalisarSequencias.find_consecutive_sequences [] = [] ∧
  VisualizarGrupoSimples.find_consecutive_sequences quotas_list =
    AnalisarSequencias.find_consecutive_sequences quotas_list.
Proof.
  assert (VisualizarGrupoSimples.find_consecutive_sequences quotas_list =
          AnalisarSequencias.find_consecutive_sequences quotas_list) as Hcopy
    by reflexivity.
  rewrite Hcopy. clear Hcopy.
  destruct (find_consecutive_sequences_sorted_runs quotas_list)
    as (runs & -> & Hruns & Hsorted).
  assert (NoDup (AnalisarSequencias.start <$>
            Py.sort (λ s, (- AnalisarSequencias.length s, AnalisarSequencias.start s))
                    Py.lt_pair false runs)) as Hnd.
  { rewrite sort_Permutation. apply increasing_NoDup.
    eapply StronglySorted_fmap; [|exact Hsorted]. done. }
  split; [|split; [|split; [|split]]].
  - intros r. by rewrite elem_of_sort.
  - by apply NoDup_fmap_1 in Hnd.
  - pose proof (sort_pairs_sorted
        (λ s, (- AnalisarSequencias.length s, AnalisarSequencias.start s))
        false runs) as Hle.
    apply (sorted_distinct _ AnalisarSequencias.start) in Hle; [|done].
    revert Hle. apply StronglySorted_mono.
    intros r1 r2 [Hle Hne]. unfold key_le in Hle.
    apply lt_pair_false in Hle. simpl in Hle. unfold run_before. lia.
  - done.
  - done.
Qed.

(** ** Facts about floats *)

Lemma is_number_not_nan (x : float) : is_number x → Prim2SF x ≠ S754_nan.
Proof.
  unfold is_number, PrimFloat.is_nan. rewrite FloatAxioms.eqb_spec.
  intros H Hnan. rewrite Hnan in H. discriminate.
Qed.

(** On numbers, the comparison of the specification is the comparison of
    the ranks. *)
Lemma SFcompare_rank (s1 s2 : spec_float) :
  s1 ≠ S754_nan → s2 ≠ S754_nan →
  match SFcompare s1 s2 with
  | Some Lt => rank_lt (sf_rank s1) (sf_rank s2)
  | Some Eq => sf_rank s1 = sf_rank s2
  | Some Gt => rank_lt (sf_rank s2) (sf_rank s1)
  | None => False
  end.
Proof.
  intros H1 H2. unfold rank_lt.
  destruct s1 as [[]|[]| |[] m1 e1], s2 as [[]|[]| |[] m2 e2];
    try done; simpl; try lia.
  - change (PosDef.Pos.compare_cont Eq m1 m2) with (Pos.compare m1 m2).
    destruct (Z.compare_spec e1 e2) as [->| |]; simpl; try lia.
    destruct (Pos.compare_spec m1 m2) as [->| |]; simpl; [done | lia | lia].
  - change (PosDef.Pos.compare_cont Eq m1 m2) with (Pos.compare m1 m2).
    destruct (Z.compare_spec e1 e2) as [->| |]; simpl; try lia.
    destruct (Pos.compare_spec m1 m2) as [->| |]; simpl; [done | lia | lia].
Qed.

Lemma rank_lt_irrefl (a : Z * Z * Z) : ¬ rank_lt a a.
Proof. unfold rank_lt. lia. Qed.

Lemma rank_eq (a b : Z * Z * Z) :
  a = b ↔ ¬ rank_lt a b ∧ ¬ rank_lt b a.
Proof.
  destruct a as [[a1 a2] a3], b as [[b1 b2] b3]. unfold rank_lt. simpl. split.
  - intros [= -> -> ->]. lia.
  - intros [H1 H2]. f_equal; [f_equal|]; lia.
Qed.

Section FloatOrder.
Variables x y : float.
Hypothesis (Hx : is_number x) (Hy : is_number y).

Lemma ltb_rank : PrimFloat.ltb x y = true ↔ rank_lt (float_rank x) (float_rank y).
Proof.
  rewrite FloatAxioms.ltb_spec. unfold SFltb, float_rank.
  pose proof (SFcompare_rank (Prim2SF x) (Prim2SF y)
                (is_number_not_nan x Hx) (is_number_not_nan y Hy)) as H.
  destruct (SFcompare (Prim2SF x) (Prim2SF y)) as [[]|]; try done.
  - rewrite H. split; [done|]. by intros ?%rank_lt_irrefl.
  - split; [done|]. intros H'. revert H H'. unfold rank_lt. lia.
Qed.

Lemma leb_rank : PrimFloat.leb x y = true ↔ ¬ rank_lt (float_rank y) (float_rank x).
Proof.
  rewrite FloatAxioms.leb_spec. unfold SFleb, float_rank.
  pose proof (SFcompare_rank (Prim2SF x) (Prim2SF y)
                (is_number_not_nan x Hx) (is_number_not_nan y Hy)) as H.
  destruct (SFcompare (Prim2SF x) (Prim2SF y)) as [[]|]; try done.
  - rewrite H. split; [|done]. intros _. apply rank_lt_irrefl.
  - split; [|done]. intros _. revert H. unfold rank_lt. lia.
Qed.

Lemma eqb_rank : PrimFloat.eqb x y = true ↔ float_rank x = float_rank y.
Proof.
  rewrite FloatAxioms.eqb_spec. unfold SFeqb, float_rank.
  pose proof (SFcompare_rank (Prim2SF x) (Prim2SF y)
                (is_number_not_nan x Hx) (is_number_not_nan y Hy)) as H.
  destruct (SFcompare (Prim2SF x) (Prim2SF y)) as [[]|]; try done.
  - split; [done|]. intros Heq. rewrite Heq in H. by apply rank_lt_irrefl in H.
  - split; [done|]. intros Heq. rewrite Heq in H. by apply rank_lt_irrefl in H.
Qed.

End FloatOrder.

(** Not smaller means greater or equal, for numbers. *)
Lemma ltb_false_leb (x y : float) :
  is_number x → is_number y →
  PrimFloat.ltb x y = false ↔ PrimFloat.leb y x = true.
Proof.
  intros Hx Hy. rewrite <- not_true_iff_false, ltb_rank, leb_rank by done. done.
Qed.

Lemma not_nan_is_number (x : float) : Prim2SF x ≠ S754_nan → is_number x.
Proof.
  unfold is_number, PrimFloat.is_nan. rewrite FloatAxioms.eqb_spec.
  unfold SFeqb. destruct (Prim2SF x) as [[]|[]| |[] m e]; try done; intros _; simpl.
  - by rewrite Z.compare_refl, Pos.compare_cont_refl.
  - by rewrite Z.compare_refl, Pos.compare_cont_refl.
Qed.

(** Only numbers are smaller or greater than something. *)
Lemma ltb_true_numbers (x y : float) :
  PrimFloat.ltb x y = true → is_number x ∧ is_number y.
Proof.
  rewrite FloatAxioms.ltb_spec. unfold SFltb. intros H.
  split; apply not_nan_is_number; intros Hnan; rewrite Hnan in H.
  - done.
  - by destruct (Prim2SF x) as [[]|[]| |[]].
Qed.

(** Nothing is smaller than a threshold that is not a number. *)
Lemma ltb_nan_false (x y : float) :
  PrimFloat.is_nan y = true → PrimFloat.ltb x y = false.
Proof.
  intros Hnan. apply not_true_iff_false. intros Hlt.
  apply ltb_true_numbers in Hlt as [_ Hy]. unfold is_number in Hy. congruence.
Qed.

(** Nor is it at most anything. *)
Lemma leb_nan_false (x y : float) :
  PrimFloat.is_nan x = true → PrimFloat.leb x y = false.
Proof.
  intros Hnan. apply not_true_iff_false. intros Hle.
  assert (is_number x) as Hx.
  { revert Hle. rewrite FloatAxioms.leb_spec. unfold SFleb. intros H.
    apply not_nan_is_number. intros Hn. by rewrite Hn in H. }
  unfold is_number in Hx. congruence.
Qed.

(** ** Edge opportunities *)

Section Pontas.
Import AnalisarPontas.

Lemma candidate_spec (data : GroupData) (min_occupied_pct : float)
    (start length : Z) (r : Opportunity) :
  r ∈ candidate data min_occupied_pct start length ↔
  interior start length ≠ ∅ ∧
  start ∈ available data ∧
  start + length - 1 ∈ available data ∧
  PrimFloat.ltb (occupied_fraction data start length) min_occupied_pct = false ∧
  r = opportunity_record data start length.
Proof.
  unfold candidate. cbv zeta.
  change (list_to_set (Py.range (start + 1) (start + length - 1)))
    with (interior start length).
  change (Py.truediv (Py.set_len (interior start length ∩ occupied data))
                     (Py.set_len (interior start length)))
    with (occupied_fraction data start length).
  case_bool_decide as Hm.
  { split; [by intros ?%elem_of_nil | tauto]. }
  destruct (bool_decide (start ∉ available data)
            || bool_decide (start + length - 1 ∉ available data)) eqn:E.
  { split; [by intros ?%elem_of_nil|].
    apply orb_true_iff in E. rewrite !bool_decide_eq_true in E. tauto. }
  apply orb_false_iff in E as [E1 E2].
  apply bool_decide_eq_false, dec_stable in E1.
  apply bool_decide_eq_false, dec_stable in E2.
  destruct (PrimFloat.ltb (occupied_fraction data start length) min_occupied_pct)
    eqn:El.
  { split; [by intros ?%elem_of_nil | intros (_ & _ & _ & ? & _); done]. }
  rewrite list_elem_of_singleton. unfold opportunity_record. tauto.
Qed.

Lemma generate_spec (data : GroupData) (min_length : Z) (min_occupied_pct : float)
    (r : Opportunity) :
  r ∈ generate data min_length min_occupied_pct ↔
  ∃ start length,
    enumerated data min_length start length ∧
    r ∈ candidate data min_occupied_pct start length.
Proof.
  unfold generate, enumerated. rewrite list_elem_of_bind. split.
  - intros (start & Hr & Hs). apply list_elem_of_bind in Hr as (length & Hr & Hl).
    apply elem_of_range in Hs, Hl. by exists start, length.
  - intros (start & length & [Hs Hl] & Hr). exists start.
    rewrite elem_of_range. split; [|done].
    apply list_elem_of_bind. exists length. by rewrite elem_of_range.
Qed.

Lemma interior_size (start length : Z) :
  Py.set_len (interior start length) = Z.max 0 (length - 2).
Proof.
  unfold Py.set_len, interior.
  rewrite size_list_to_set by apply NoDup_range.
  rewrite length_range. lia.
Qed.

Lemma interior_nonempty (start length : Z) :
  interior start length ≠ ∅ ↔ 3 ≤ length.
Proof.
  pose proof (interior_size start length) as H. unfold Py.set_len in H.
  pose proof (size_non_empty_iff (interior start length)) as Hne.
  unfold_leibniz. rewrite <- Hne. lia.
Qed.

(** The fractions of the interiors of 1 to 48 quotas, and the scores they
    give, checked one by one. *)
Lemma fraction_table (b a : Z) :
  1 ≤ b ≤ 48 → 0 ≤ a ≤ b → fraction_ok b a = true.
Proof.
  intros Hb Ha.
  assert (forallb (λ b, forallb (fraction_ok b) (Py.range 0 (b + 1)))
                  (Py.range 1 49) = true) as Htable by (by vm_compute).
  rewrite forallb_forall in Htable.
  specialize (Htable b). rewrite forallb_forall in Htable.
  apply Htable; apply list_elem_of_In, elem_of_range; lia.
Qed.

Lemma occupied_fraction_ok (data : GroupData) (start length : Z) :
  3 ≤ length ≤ 50 →
  fraction_ok (length - 2)
    (Py.set_len (interior start length ∩ occupied data)) = true ∧
  occupied_fraction data start length =
    Py.truediv (Py.set_len (interior start length ∩ occupied data)) (length - 2).
Proof.
  intros Hl. unfold occupied_fraction.
  rewrite interior_size. replace (Z.max 0 (length - 2)) with (length - 2) by lia.
  split; [|done]. apply fraction_table; [lia|].
  pose proof (subseteq_size (interior start length ∩ occupied data)
                (interior start length) (intersection_subseteq_l _ _)) as Hsub.
  pose proof (interior_size start length) as Hsz. unfold Py.set_len in *. lia.
Qed.

(** The fraction and the score of an interval that the loops reach are
    numbers, and the fraction is between 0 and 1. *)
Lemma opportunity_numbers (data : GroupData) (start length : Z) :
  3 ≤ length ≤ 50 →
  is_number (occupied_fraction data start length) ∧
  is_number (score (opportunity_record data start length)) ∧
  PrimFloat.leb 0%float (occupied_fraction data start length) = true ∧
  PrimFloat.leb (occupied_fraction data start length) 1%float = true.
Proof.
  intros Hl. destruct (occupied_fraction_ok data start length Hl) as [Hok Heq].
  unfold fraction_ok in Hok.
  replace (length - 2 + 2) with length in Hok by lia.
  rewrite <- Heq in Hok.
  apply andb_true_iff in Hok as [Hok H4].
  apply andb_true_iff in Hok as [Hok H3].
  apply andb_true_iff in Hok as [H1 H2].
  apply negb_true_iff in H1, H2. done.
Qed.

End Pontas.

Section PontasClaims.
Import AnalisarPontas.

Lemma enumerated_length (data : GroupData) (min_length start length : Z) :
  enumerated data min_length start length → interior start length ≠ ∅ →
  3 ≤ length ≤ 50.
Proof. unfold enumerated. rewrite interior_nonempty. lia. Qed.

(** The records that [find_edge_opportunities] returns, with the test on
    the fraction as the code makes it. *)
Lemma find_edge_opportunities_spec (data : GroupData) (min_length : Z)
    (min_occupied_pct : float) (r : Opportunity) :
  r ∈ find_edge_opportunities data min_length min_occupied_pct ↔
  ∃ start length,
    enumerated data min_length start length ∧
    interior start length ≠ ∅ ∧
    start ∈ available data ∧
    start + length - 1 ∈ available data ∧
    PrimFloat.ltb (occupied_fraction data start length) min_occupied_pct = false ∧
    r = opportunity_record data start length.
Proof.
  unfold find_edge_opportunities. cbv zeta. rewrite elem_of_sort, generate_spec.
  split; intros (start & length & He & H); exists start, length;
    (split; [done|]); by apply candidate_spec.
Qed.

Lemma opportunity_record_inj (data : GroupData) (s1 l1 s2 l2 : Z) :
  opportunity_record data s1 l1 = opportunity_record data s2 l2 → s1 = s2 ∧ l1 = l2.
Proof.
  intros H. split.
  - by apply (f_equal start) in H.
  - by apply (f_equal length) in H.
Qed.

End PontasClaims.

(** C5, as the code has it. With a threshold that is a number,
    [find_edge_opportunities] returns a record for an interval that its loops
    reach exactly when the interior of the interval is not empty, both ends
    of the interval are available, and the occupied fraction of the interior
    is at least the threshold; the record is the one of the interval, whose
    score is [length * fraction * 100]. With a threshold that is not a number
    the test [occupied_pct < min_occupied_pct] never holds, and the record is
    returned whatever the fraction is. The interval 100..110 with a fully
    occupied interior is returned at threshold 1.0; with 8 of the 9 interior
    quotas occupied it is not returned at threshold 1.0 and is returned at
    0.5. *)
Theorem find_edge_opportunities_threshold :
  (∀ (data : AnalisarPontas.GroupData) (min_length : Z) (min_occupied_pct : float),
     is_number min_occupied_pct →
     ∀ r, r ∈ AnalisarPontas.find_edge_opportunities data min_length min_occupied_pct ↔
          ∃ start length,
            enumerated data min_length start length ∧
            interior start length ≠ ∅ ∧
            start ∈ AnalisarPontas.available data ∧
            start + length - 1 ∈ AnalisarPontas.available data ∧
            PrimFloat.leb min_occupied_pct (occupied_fraction data start length) = true ∧
            r = opportunity_record data start length) ∧
  (∀ (data : AnalisarPontas.GroupData) (min_length : Z) (min_occupied_pct : float),
     PrimFloat.is_nan min_occupied_pct = true →
     ∀ r, r ∈ AnalisarPontas.find_edge_opportunities data min_length min_occupied_pct ↔
          ∃ start length,
            enumerated data min_length start length ∧
            interior start length ≠ ∅ ∧
            start ∈ AnalisarPontas.available data ∧
            start + length - 1 ∈ AnalisarPontas.available data ∧
            r = opportunity_record data start length) ∧
  (∀ (data : AnalisarPontas.GroupData) (start length : Z),
     AnalisarPontas.score (opportunity_record data start length) =
     PrimFloat.mul
       (PrimFloat.mul (Py.float_of_int length) (occupied_fraction data start length))
       100%float) ∧
  (AnalisarPontas.middle_occupied (opportunity_record example_full 100 11) = 9 ∧
   AnalisarPontas.middle_total (opportunity_record example_full 100 11) = 9 ∧
   opportunity_record example_full 100 11 ∈
     AnalisarPontas.find_edge_opportunities example_full 5 1%float) ∧
  (AnalisarPontas.middle_occupied (opportunity_record example_partial 100 11) = 8 ∧
   AnalisarPontas.middle_total (opportunity_record example_partial 100 11) = 9 ∧
   (opportunity_record example_partial 100 11 ∉
      AnalisarPontas.find_edge_opportunities example_partial 5 1%float) ∧
   opportunity_record example_partial 100 11 ∈
     AnalisarPontas.find_edge_opportunities example_partial 5 0.5%float).
Proof.
  assert (∀ (data : AnalisarPontas.GroupData) (min_length : Z) (pct : float),
     is_number pct →
     ∀ r, r ∈ AnalisarPontas.find_edge_opportunities data min_length pct ↔
          ∃ start length,
            enumerated data min_length start length ∧
            interior start length ≠ ∅ ∧
            start ∈ AnalisarPontas.available data ∧
            start + length - 1 ∈ AnalisarPontas.available data ∧
            PrimFloat.leb pct (occupied_fraction data start length) = true ∧
            r = opportunity_record data start length) as Hmain.
  { intros data min_length pct Hpct r. rewrite find_edge_opportunities_spec.
    split; intros (start & length & He & Hi & Hs & Hend & Hfrac & Hr);
      exists start, length; repeat (split; [done|]); (split; [|done]);
      destruct (opportunity_numbers data start length) as [Hnum _];
      try (by eapply enumerated_length);
      by apply (ltb_false_leb _ _ Hnum Hpct). }
  split; [exact Hmain|]. split.
  { intros data min_length pct Hnan r. rewrite find_edge_opportunities_spec.
    split.
    - intros (start & length & He & Hi & Hs & Hend & _ & Hr).
      by exists start, length.
    - intros (start & length & He & Hi & Hs & Hend & Hr).
      exists start, length. repeat (split; [done|]).
      split; [by apply ltb_nan_false | done]. }
  split; [done|].
  assert (∀ data pct, is_number pct →
            enumerated data 5 100 11 →
            100 ∈ AnalisarPontas.available data →
            110 ∈ AnalisarPontas.available data →
            PrimFloat.leb pct (occupied_fraction data 100 11) = true →
            opportunity_record data 100 11 ∈
              AnalisarPontas.find_edge_opportunities data 5 pct) as Hin.
  { intros data pct Hpct He H100 H110 Hfrac. apply Hmain; [done|].
    exists 100, 11. split; [done|].
    split; [apply interior_nonempty; lia|]. done. }
  split; [|split; [|split; [|split]]].
  - split; [by vm_compute|]. split; [by vm_compute|].
    apply Hin; by vm_compute.
  - by vm_compute.
  - by vm_compute.
  - intros H. apply Hmain in H as (s & l & _ & _ & _ & _ & Hfrac & Heq);
      [|by vm_compute].
    apply opportunity_record_inj in Heq as [<- <-].
    vm_compute in Hfrac. discriminate.
  - apply Hin; by vm_compute.
Qed.

(** The fully occupied interval 100..110 at threshold 1.0. *)
Lemma find_edge_opportunities_threshold_witness :
  opportunity_record example_full 100 11 ∈
    AnalisarPontas.find_edge_opportunities example_full 5 1%float.
Proof.
  apply (proj1 find_edge_opportunities_threshold example_full 5 1%float).
  - by vm_compute.
  - exists 100, 11. split; [unfold enumerated; simpl; lia|].
    split; [apply interior_nonempty; lia|].
    split; [by vm_compute|]. split; [by vm_compute|]. split; by vm_compute.
Defined.

(** C5, the threshold that is not a number. Called with such a threshold,
    the function returns the interval 100..110 with 8 of its 9 interior
    quotas occupied, although the fraction 8/9 is not at least the threshold:
    no comparison with it holds. The two intervals that the threshold 1.0
    gives come after it. *)
Lemma find_edge_opportunities_nan_threshold :
  PrimFloat.is_nan nan = true ∧
  PrimFloat.leb nan (occupied_fraction example_partial 100 11) = false ∧
  opportunity_record example_partial 100 11 ∈
    AnalisarPontas.find_edge_opportunities example_partial 5 nan ∧
  (λ r, (AnalisarPontas.start r, AnalisarPontas.end_ r,
         AnalisarPontas.middle_occupied r, AnalisarPontas.middle_total r))
    <$> AnalisarPontas.find_edge_opportunities example_partial 5 nan
  = [(100, 110, 8, 9); (100, 105, 4, 4); (105, 110, 4, 4)].
Proof.
  split; [done|]. split; [by apply leb_nan_false|]. split; [|by vm_compute].
  apply find_edge_opportunities_spec. exists 100, 11.
  split; [unfold enumerated; simpl; lia|].
  split; [apply interior_nonempty; lia|].
  split; [by vm_compute|]. split; [by vm_compute|].
  split; [by apply ltb_nan_false | done].
Qed.

(** ** Order of the opportunities *)

Lemma range_increasing (lo hi : Z) : StronglySorted Z.lt (Py.range lo hi).
Proof.
  unfold Py.range. generalize (hi - lo). intros n.
  destruct (decide (0 ≤ n)) as [Hn|Hn]; [|rewrite seqZ_nil by lia; constructor].
  rewrite <- (Z2Nat.id n) by done. generalize (Z.to_nat n). clear. intros n.
  revert lo. induction n as [|n IH]; intros lo; [constructor|].
  rewrite seqZ_cons by lia.
  replace (Z.pred (Z.of_nat (S n))) with (Z.of_nat n) by lia.
  constructor; [apply IH|].
  apply Forall_forall. intros x Hx. apply elem_of_seqZ in Hx. lia.
Qed.

(** The results of the turns of a loop, one after the other, are in
    order when each turn's results are and the turns are. *)
Lemma sorted_bind {A B} (R' : relation A) (R : relation B) (f : A → list B)
    (l : list A) :
  StronglySorted R' l →
  (∀ x, x ∈ l → StronglySorted R (f x)) →
  (∀ x y a b, R' x y → a ∈ f x → b ∈ f y → R a b) →
  StronglySorted R (l ≫= f).
Proof.
  intros Hs Hf Hcross. revert Hf.
  induction Hs as [|x l Hs IH Hall]; intros Hf.
  - constructor.
  - rewrite bind_cons. apply StronglySorted_app. split; [|split].
    + intros a b Ha Hb. apply list_elem_of_bind in Hb as (y & Hb & Hy).
      rewrite Forall_forall in Hall.
      exact (Hcross x y a b (Hall y Hy) Ha Hb).
    + apply Hf. left.
    + apply IH. intros y Hy. apply Hf. by right.
Qed.

Lemma StronglySorted_filter {A} (R : relation A) (P : A → Prop)
    `{∀ x, Decision (P x)} (l : list A) :
  StronglySorted R l → StronglySorted R (filter P l).
Proof.
  induction 1 as [|x l Hs IH Hall]; [constructor|].
  rewrite filter_cons. destruct (decide (P x)); [|done].
  constructor; [done|].
  rewrite Forall_forall in Hall. apply Forall_forall.
  intros y [_ Hy]%list_elem_of_filter. by apply Hall.
Qed.

(** In a list whose elements with equivalent keys are in order, any two
    elements with equivalent keys are. *)
Lemma stable_sorted {A} (Q E : relation A) `{∀ x y, Decision (Q x y)} (l : list A) :
  (∀ x, x ∈ l → Q x x) →
  (∀ x0, x0 ∈ l → StronglySorted E (filter (Q x0) l)) →
  StronglySorted (λ a b, Q a b → E a b) l.
Proof.
  induction l as [|x l IH]; intros Hrefl Hf; [constructor|].
  constructor.
  - apply IH; [intros y Hy; apply Hrefl; by right|].
    intros x0 Hx0. specialize (Hf x0 ltac:(by right)).
    rewrite filter_cons in Hf. destruct (decide (Q x0 x)); [|done].
    by apply StronglySorted_cons in Hf as [_ ?].
  - apply Forall_forall. intros y Hy Hq.
    specialize (Hf x ltac:(left)).
    rewrite filter_cons_True in Hf by (apply Hrefl; left).
    apply StronglySorted_cons in Hf as [Hall _].
    rewrite Forall_forall in Hall. apply Hall. by apply list_elem_of_filter.
Qed.

Lemma StronglySorted_and_Forall {A} (R1 R2 : relation A) (P : A → Prop) (l : list A) :
  StronglySorted R1 l → StronglySorted R2 l → Forall P l →
  StronglySorted (λ a b, R1 a b ∧ R2 a b ∧ P a ∧ P b) l.
Proof.
  induction 1 as [|x l Hs IH Hall]; intros H2 HP; [constructor|].
  apply StronglySorted_cons in H2 as [Hall2 H2].
  apply Forall_cons in HP as [Hx HP].
  constructor; [by apply IH|].
  rewrite Forall_forall in Hall, Hall2, HP. apply Forall_forall.
  intros y Hy. auto.
Qed.

Section PontasOrder.
Import AnalisarPontas.
Variables (data : GroupData) (min_length : Z) (min_occupied_pct : float).

Lemma candidate_cases (start length : Z) :
  candidate data min_occupied_pct start length = [] ∨
  candidate data min_occupied_pct start length = [opportunity_record data start length].
Proof.
  unfold candidate. cbv zeta.
  destruct (bool_decide _); [by left|].
  destruct (_ || _); [by left|].
  destruct (PrimFloat.ltb _ _); [by left | by right].
Qed.

(** The loops append the records by ascending [start], and for one
    [start] by ascending [length]. *)
Lemma generate_sorted :
  StronglySorted enumerated_before (generate data min_length min_occupied_pct).
Proof.
  unfold generate.
  apply (sorted_bind Z.lt); [apply range_increasing | |].
  - intros start _. apply (sorted_bind Z.lt); [apply range_increasing | |].
    + intros length _.
      destruct (candidate_cases start length) as [-> | ->]; repeat constructor.
    + intros l1 l2 a b Hlt Ha Hb.
      apply candidate_spec in Ha as (_ & _ & _ & _ & ->).
      apply candidate_spec in Hb as (_ & _ & _ & _ & ->).
      right. simpl. done.
  - intros s1 s2 a b Hlt Ha Hb.
    apply list_elem_of_bind in Ha as (l1 & Ha & _).
    apply list_elem_of_bind in Hb as (l2 & Hb & _).
    apply candidate_spec in Ha as (_ & _ & _ & _ & ->).
    apply candidate_spec in Hb as (_ & _ & _ & _ & ->).
    left. simpl. done.
Qed.

Lemma generate_numbers :
  Forall (λ r, is_number (score r)) (generate data min_length min_occupied_pct).
Proof.
  apply Forall_forall. intros r Hr.
  apply generate_spec in Hr as (start & length & He & Hr).
  apply candidate_spec in Hr as (Hi & _ & _ & _ & ->).
  apply opportunity_numbers. by eapply enumerated_length.
Qed.

End PontasOrder.

Lemma score_lt_asym (x y : AnalisarPontas.Opportunity) :
  is_number (AnalisarPontas.score x) → is_number (AnalisarPontas.score y) →
  PrimFloat.ltb (AnalisarPontas.score x) (AnalisarPontas.score y) = true →
  PrimFloat.ltb (AnalisarPontas.score y) (AnalisarPontas.score x) = false.
Proof.
  intros Hx Hy. rewrite <- not_true_iff_false, !ltb_rank by done.
  unfold rank_lt. lia.
Qed.

Lemma score_le_trans (x y z : AnalisarPontas.Opportunity) :
  is_number (AnalisarPontas.score x) → is_number (AnalisarPontas.score y) →
  is_number (AnalisarPontas.score z) →
  key_le AnalisarPontas.score PrimFloat.ltb x y →
  key_le AnalisarPontas.score PrimFloat.ltb y z →
  key_le AnalisarPontas.score PrimFloat.ltb x z.
Proof.
  intros Hx Hy Hz. unfold key_le.
  rewrite <- !not_true_iff_false, !ltb_rank by done.
  unfold rank_lt. lia.
Qed.

Lemma score_equiv_eqb (x y : AnalisarPontas.Opportunity) :
  is_number (AnalisarPontas.score x) → is_number (AnalisarPontas.score y) →
  key_equiv AnalisarPontas.score PrimFloat.ltb x y ↔
  PrimFloat.eqb (AnalisarPontas.score x) (AnalisarPontas.score y) = true.
Proof.
  intros Hx Hy. unfold key_equiv, key_le.
  rewrite <- !not_true_iff_false, !ltb_rank, eqb_rank, rank_eq by done. tauto.
Qed.

(** C9. The list that [find_edge_opportunities] returns is in descending
    order of score, and two of its records with equal scores are in the
    order in which the loops reach them: by ascending [start], then by
    ascending [length]. *)
Theorem find_edge_opportunities_order
    (data : AnalisarPontas.GroupData) (min_length : Z) (min_occupied_pct : float) :
  StronglySorted
    (λ r1 r2,
       PrimFloat.leb (AnalisarPontas.score r2) (AnalisarPontas.score r1) = true ∧
       (PrimFloat.eqb (AnalisarPontas.score r1) (AnalisarPontas.score r2) = true →
        enumerated_before r1 r2))
    (AnalisarPontas.find_edge_opportunities data min_length min_occupied_pct).
Proof.
  unfold AnalisarPontas.find_edge_opportunities. cbv zeta.
  set (generated := AnalisarPontas.generate data min_length min_occupied_pct).
  set (ok := λ r, is_number (AnalisarPontas.score r)).
  assert (Forall ok generated) as Hgen by apply generate_numbers.
  assert (Forall ok (Py.sort AnalisarPontas.score PrimFloat.ltb true generated))
    as Hres by (by rewrite sort_Permutation).
  pose proof (sort_descending AnalisarPontas.score PrimFloat.ltb ok
                score_lt_asym score_le_trans generated Hgen) as Hdesc.
  assert (StronglySorted
            (λ a b, key_equiv AnalisarPontas.score PrimFloat.ltb a b →
                    enumerated_before a b)
            (Py.sort AnalisarPontas.score PrimFloat.ltb true generated)) as Hstable.
  { rewrite Forall_forall in Hres.
    apply (stable_sorted (key_equiv AnalisarPontas.score PrimFloat.ltb)
                         enumerated_before).
    - intros x Hx. apply score_equiv_eqb; [by apply Hres..|].
      apply eqb_rank; [by apply Hres..|]. done.
    - intros x0 Hx0.
      rewrite (sort_stable AnalisarPontas.score PrimFloat.ltb ok
                 score_le_trans true x0 generated);
        [| by apply Hres | done].
      apply StronglySorted_filter, generate_sorted. }
  pose proof (StronglySorted_and_Forall _ _ ok _ Hdesc Hstable Hres) as Hall.
  revert Hall. apply StronglySorted_mono.
  intros r1 r2 (Hle & Heq & H1 & H2). split.
  - by apply ltb_false_leb.
  - intros Heqb. apply Heq. by apply score_equiv_eqb.
Qed.

Example find_edge_opportunities_partial_order :
  (λ r, (AnalisarPontas.start r, AnalisarPontas.end_ r, AnalisarPontas.score r))
    <$> AnalisarPontas.find_edge_opportunities example_partial 5 0.5%float
  = [(100, 110, 0x1.e8e38e38e38e3p+9%float);
     (100, 105, 600%float);
     (105, 110, 600%float)].
Proof. by vm_compute. Qed.

(** ** Configuration values *)

Lemma bind_all_nil {A B} (f : A → list B) (l : list A) :
  (∀ x, x ∈ l → f x = []) → l ≫= f = [].
Proof.
  intros H. induction l as [|x l IH]; [done|].
  rewrite bind_cons, H, IH; [done | | left].
  intros y Hy. apply H. by right.
Qed.

Section PontasConfig.
Import AnalisarPontas.
Variables (data : GroupData) (min_occupied_pct : float).

(** An interval of fewer than three quotas has no interior: the loop body
    skips it. *)
Lemma candidate_short (start length : Z) :
  length < 3 → candidate data min_occupied_pct start length = [].
Proof.
  intros Hl. apply elem_of_nil_inv. intros r Hr.
  apply candidate_spec in Hr as (Hi%interior_nonempty & _). lia.
Qed.

Lemma lengths_short (start lo hi : Z) :
  hi ≤ 3 → Py.range lo hi ≫= candidate data min_occupied_pct start = [].
Proof.
  intros Hhi. apply bind_all_nil. intros l Hl%elem_of_range.
  apply candidate_short. lia.
Qed.

Lemma lengths_from_three (start min_length hi : Z) :
  min_length ≤ 3 →
  Py.range min_length hi ≫= candidate data min_occupied_pct start =
  Py.range 3 hi ≫= candidate data min_occupied_pct start.
Proof.
  intros Hml. destruct (decide (hi ≤ 3)) as [Hhi|Hhi].
  - by rewrite !lengths_short.
  - rewrite (range_app min_length 3 hi) by lia.
    by rewrite bind_app, lengths_short.
Qed.

(** A minimum length below 3 adds intervals without interior only. *)
Lemma generate_min_length (min_length : Z) :
  min_length ≤ 3 →
  generate data min_length min_occupied_pct = generate data 3 min_occupied_pct.
Proof.
  intros Hml. unfold generate.
  set (from_three := λ start : Z,
         Py.range 3 (Z.min 51 (total_quotas data - start + 2))
         ≫= candidate data min_occupied_pct start).
  transitivity (Py.range 1 (total_quotas data - min_length + 2) ≫= from_three).
  { apply list_bind_ext; [|done]. intros start. by apply lengths_from_three. }
  assert (∀ lo hi, total_quotas data - 1 ≤ lo →
            Py.range lo hi ≫= from_three = []) as Hlate.
  { intros lo hi Hlo. apply bind_all_nil. intros s Hs%elem_of_range.
    apply lengths_short. lia. }
  destruct (decide (1 ≤ total_quotas data - 1)) as [Ht|Ht].
  - rewrite (range_app 1 (total_quotas data - 3 + 2)
                       (total_quotas data - min_length + 2)) by lia.
    rewrite bind_app, (Hlate (total_quotas data - 3 + 2)) by lia.
    by rewrite app_nil_r.
  - rewrite (Hlate 1), (Hlate 1) by lia. done.
Qed.

(** The fraction of an interval with an interior that the loops reach is
    at least 0 and at most 1. *)
Lemma fraction_not_below (start length : Z) :
  3 ≤ length ≤ 50 →
  PrimFloat.ltb min_occupied_pct 0%float = true →
  PrimFloat.ltb (occupied_fraction data start length) min_occupied_pct = false ∧
  PrimFloat.ltb (occupied_fraction data start length) 0%float = false.
Proof.
  intros Hl Hpct.
  destruct (opportunity_numbers data start length Hl) as (Hnum & _ & H0 & _).
  destruct (ltb_true_numbers _ _ Hpct) as [Hp Hz].
  apply ltb_rank in Hpct; [|done..]. apply leb_rank in H0; [|done..].
  rewrite <- !not_true_iff_false, !ltb_rank by done.
  revert Hpct H0. unfold rank_lt. lia.
Qed.

Lemma fraction_below (start length : Z) :
  3 ≤ length ≤ 50 →
  PrimFloat.ltb 1%float min_occupied_pct = true →
  PrimFloat.ltb (occupied_fraction data start length) min_occupied_pct = true.
Proof.
  intros Hl Hpct.
  destruct (opportunity_numbers data start length Hl) as (Hnum & _ & _ & H1).
  destruct (ltb_true_numbers _ _ Hpct) as [Ho Hp].
  apply ltb_rank in Hpct; [|done..]. apply leb_rank in H1; [|done..].
  rewrite ltb_rank by done.
  revert Hpct H1. unfold rank_lt. lia.
Qed.

End PontasConfig.

Section PontasThreshold.
Import AnalisarPontas.
Variables (data : GroupData) (min_length : Z) (min_occupied_pct : float).

(** A threshold below 0 lets through what the threshold 0 lets through. *)
Lemma generate_below_zero :
  PrimFloat.ltb min_occupied_pct 0%float = true →
  generate data min_length min_occupied_pct = generate data min_length 0%float.
Proof.
  intros Hpct. unfold generate.
  apply Forall_bind_ext, Forall_forall. intros start _.
  apply Forall_bind_ext, Forall_forall. intros length Hl%elem_of_range.
  destruct (decide (3 ≤ length)) as [H3|H3]; [|by rewrite !candidate_short by lia].
  destruct (fraction_not_below data min_occupied_pct start length) as [Hp H0];
    [lia | done |].
  unfold candidate. cbv zeta.
  change (Py.truediv
            (Py.set_len (list_to_set (Py.range (start + 1) (start + length - 1))
                         ∩ occupied data))
            (Py.set_len (list_to_set (Py.range (start + 1) (start + length - 1)))))
    with (occupied_fraction data start length).
  by rewrite Hp, H0.
Qed.

(** A threshold above 1 lets nothing through. *)
Lemma generate_above_one :
  PrimFloat.ltb 1%float min_occupied_pct = true →
  generate data min_length min_occupied_pct = [].
Proof.
  intros Hpct. apply elem_of_nil_inv. intros r Hr.
  apply generate_spec in Hr as (start & length & He & Hr).
  apply candidate_spec in Hr as (Hi & _ & _ & Hfrac & _).
  rewrite fraction_below in Hfrac; [done | by eapply enumerated_length | done].
Qed.

End PontasThreshold.

(** C8, as the code has it. [find_edge_opportunities] does not check its
    configuration: called with a minimum length below 2, or with a threshold
    below 0 or above 1, it rejects nothing and returns the list that the
    value gives. A minimum length below 2 gives the list of the minimum
    length 3 (an interval without interior is skipped), a threshold below 0
    the list of the threshold 0, and a threshold above 1 the empty list. *)
Theorem find_edge_opportunities_no_validation
    (data : AnalisarPontas.GroupData) (min_length : Z) (min_occupied_pct : float) :
  out_of_range min_length min_occupied_pct →
  call_find_edge_opportunities data min_length min_occupied_pct =
    Returned (AnalisarPontas.find_edge_opportunities data min_length min_occupied_pct) ∧
  (min_length < 2 →
   AnalisarPontas.find_edge_opportunities data min_length min_occupied_pct =
   AnalisarPontas.find_edge_opportunities data 3 min_occupied_pct) ∧
  (PrimFloat.ltb min_occupied_pct 0%float = true →
   AnalisarPontas.find_edge_opportunities data min_length min_occupied_pct =
   AnalisarPontas.find_edge_opportunities data min_length 0%float) ∧
  (PrimFloat.ltb 1%float min_occupied_pct = true →
   AnalisarPontas.find_edge_opportunities data min_length min_occupied_pct = []).
Proof.
  intros _. unfold AnalisarPontas.find_edge_opportunities. cbv zeta.
  split; [done|]. split; [|split].
  - intros Hml. by rewrite generate_min_length by lia.
  - intros Hpct. by rewrite generate_below_zero.
  - intros Hpct. by rewrite generate_above_one.
Qed.

(** A minimum length of 1 and a threshold of -1. *)
Lemma find_edge_opportunities_no_validation_witness :
  call_find_edge_opportunities example_full 1 (-1)%float =
    Returned (AnalisarPontas.find_edge_opportunities example_full 1 (-1)%float) ∧
  (1 < 2 →
   AnalisarPontas.find_edge_opportunities example_full 1 (-1)%float =
   AnalisarPontas.find_edge_opportunities example_full 3 (-1)%float) ∧
  (PrimFloat.ltb (-1)%float 0%float = true →
   AnalisarPontas.find_edge_opportunities example_full 1 (-1)%float =
   AnalisarPontas.find_edge_opportunities example_full 1 0%float) ∧
  (PrimFloat.ltb 1%float (-1)%float = true →
   AnalisarPontas.find_edge_opportunities example_full 1 (-1)%float = []).
Proof.
  apply (find_edge_opportunities_no_validation example_full 1 (-1)%float).
  left. lia.
Defined.

(** Called with a minimum length of 1 and a threshold of -1, both outside
    the documented ranges, the function returns the record of the interval
    100..110 instead of rejecting the call. *)
Lemma find_edge_opportunities_accepts_out_of_range :
  out_of_range 1 (-1)%float ∧
  ∃ opportunities,
    call_find_edge_opportunities example_full 1 (-1)%float = Returned opportunities ∧
    (λ r, (AnalisarPontas.start r, AnalisarPontas.end_ r)) <$> opportunities
      = [(100, 110)].
Proof.
  split; [left; lia|]. eexists. split; [reflexivity|]. by vm_compute.
Qed.

(** ** The resolver selects the nearest active quota *)

Section Nearest.
Import AnalyzeOptimalCotas.
Variables (active : gset Z) (max_cota : Z).

Lemma selected_is_nearest (draw r : Z) :
  1 ≤ draw ≤ max_cota →
  find_selected_cota draw active max_cota = Some r →
  in_pool active max_cota r ∧
  ∀ q, in_pool active max_cota q → nearer draw r q.
Proof.
  intros Hd Hr. destruct (decide (draw ∈ active)) as [Hin|Hin].
  - rewrite find_selected_cota_in in Hr by done. injection Hr as <-.
    split; [done|]. intros q _. unfold nearer. lia.
  - apply find_selected_cota_Some in Hr as (k & Hk & Hfail & Hsel); [|done].
    assert (in_pool active max_cota r ∧ Z.abs (draw - r) = k) as [Hpool Hdist].
    { destruct Hsel as [[[? ?] ->]|(_ & [? ?] & ->)]; unfold in_pool; split;
        first [lia | split; [done | lia]]. }
    split; [done|]. intros q [Hq Hrange].
    assert (q ≠ draw) as Hne by (intros ->; contradiction).
    destruct (decide (Z.abs (draw - q) < k)) as [Hlt|Hge].
    { destruct (Hfail (Z.abs (draw - q))) as [Hb Ha]; [lia|].
      destruct (decide (q < draw)).
      - destruct Hb. split; [lia|].
        by replace (draw - Z.abs (draw - q)) with q by lia.
      - destruct Ha. split; [lia|].
        by replace (draw + Z.abs (draw - q)) with q by lia. }
    unfold nearer. destruct (decide (Z.abs (draw - q) = k)) as [Heq|]; [|lia].
    right. split; [lia|].
    destruct Hsel as [[_ ->]|(Hnb & _ & ->)]; [lia|].
    destruct (decide (q < draw)); [|lia].
    destruct Hnb. split; [lia|]. by replace (draw - k) with q by lia.
Qed.

Lemma nearest_unique (draw r1 r2 : Z) :
  nearer draw r1 r2 → nearer draw r2 r1 → r1 = r2.
Proof. unfold nearer. lia. Qed.

Lemma pool_selects (draw q : Z) :
  1 ≤ draw ≤ max_cota → in_pool active max_cota q →
  is_Some (find_selected_cota draw active max_cota).
Proof.
  intros Hd [Hq Hrange].
  destruct (find_selected_cota draw active max_cota) as [r|] eqn:E; [by eexists|].
  apply find_selected_cota_None in E as [Hnin Hfail].
  assert (q ≠ draw) as Hne by (intros ->; contradiction).
  destruct (Hfail (Z.abs (draw - q))) as [Hb Ha]; [lia|].
  destruct (decide (q < draw)).
  - destruct Hb. split; [lia|].
    by replace (draw - Z.abs (draw - q)) with q by lia.
  - destruct Ha. split; [lia|].
    by replace (draw + Z.abs (draw - q)) with q by lia.
Qed.

Lemma nearest_is_selected (draw r : Z) :
  1 ≤ draw ≤ max_cota →
  in_pool active max_cota r →
  (∀ q, in_pool active max_cota q → nearer draw r q) →
  find_selected_cota draw active max_cota = Some r.
Proof.
  intros Hd Hpool Hnear.
  destruct (pool_selects draw r Hd Hpool) as [r' Hr'].
  rewrite Hr'. f_equal.
  destruct (selected_is_nearest draw r' Hd Hr') as [Hpool' Hnear'].
  apply (nearest_unique draw); auto.
Qed.

Lemma selected_monotone (d1 d2 r1 r2 : Z) :
  1 ≤ d1 → d1 ≤ d2 → d2 ≤ max_cota →
  find_selected_cota d1 active max_cota = Some r1 →
  find_selected_cota d2 active max_cota = Some r2 →
  r1 ≤ r2.
Proof.
  intros H1 H12 H2 Hr1 Hr2.
  apply selected_is_nearest in Hr1 as [Hp1 Hn1]; [|lia].
  apply selected_is_nearest in Hr2 as [Hp2 Hn2]; [|lia].
  specialize (Hn1 r2 Hp2). specialize (Hn2 r1 Hp1).
  revert Hn1 Hn2. unfold nearer. lia.
Qed.

End Nearest.

(** X1. For a draw of the pool, [find_selected_cota] returns [r] exactly
    when [r] is the nearest active quota of the pool, the lower one of two at
    the same distance. *)
Theorem find_selected_cota_nearest (draw : Z) (active : gset Z) (max_cota r : Z) :
  1 ≤ draw ≤ max_cota →
  AnalyzeOptimalCotas.find_selected_cota draw active max_cota = Some r ↔
  in_pool active max_cota r ∧ ∀ q, in_pool active max_cota q → nearer draw r q.
Proof.
  intros Hd. split; [by apply selected_is_nearest|].
  intros [Hpool Hnear]. by apply nearest_is_selected.
Qed.

Lemma find_selected_cota_nearest_witness :
  AnalyzeOptimalCotas.find_selected_cota 11 {[10; 12]} 20 = Some 10 ↔
  in_pool {[10; 12]} 20 10 ∧ ∀ q, in_pool {[10; 12]} 20 q → nearer 11 10 q.
Proof. apply (find_selected_cota_nearest 11 {[10; 12]} 20 10). lia. Defined.

(** X2. Over the draws of the pool, the selected quota never decreases
    when the draw increases. *)
Theorem find_selected_cota_monotone (active : gset Z) (max_cota d1 d2 r1 r2 : Z) :
  1 ≤ d1 → d1 ≤ d2 → d2 ≤ max_cota →
  AnalyzeOptimalCotas.find_selected_cota d1 active max_cota = Some r1 →
  AnalyzeOptimalCotas.find_selected_cota d2 active max_cota = Some r2 →
  r1 ≤ r2.
Proof.
  intros H1 H12 H2 Hr1 Hr2.
  by apply (selected_monotone active max_cota d1 d2 r1 r2).
Qed.

Lemma find_selected_cota_monotone_witness : 2 ≤ 5.
Proof.
  apply (find_selected_cota_monotone {[2; 5]} 6 3 4 2 5); try lia; by vm_compute.
Defined.

(** ** Shape of a catchment *)

(** The elements of a range that satisfy a property without holes form a
    range. *)
Lemma filter_convex_range (P : Z → Prop) `{∀ x, Decision (P x)} (n : nat) :
  ∀ lo : Z,
  (∀ a b c, a ≤ b ≤ c → P a → P c → P b) →
  ∃ l h, lo ≤ l ≤ h ∧ h ≤ lo + Z.of_nat n ∧
         filter P (Py.range lo (lo + Z.of_nat n)) = Py.range l h.
Proof.
  induction n as [|n IH]; intros lo Hconv.
  - exists lo, lo. split; [lia|]. split; [lia|].
    by rewrite !range_nil by lia.
  - rewrite range_cons by lia.
    replace (lo + Z.of_nat (S n)) with (lo + 1 + Z.of_nat n) by lia.
    destruct (IH (lo + 1) Hconv) as (l & h & Hlh & Hh & Heq).
    rewrite filter_cons, Heq. destruct (decide (P lo)) as [HP|HP].
    + destruct (decide (l < h)) as [Hne|Hemp].
      * assert (P l) as HPl.
        { assert (l ∈ filter P (Py.range (lo + 1) (lo + 1 + Z.of_nat n))) as Hl
            by (rewrite Heq; apply elem_of_range; lia).
          by apply list_elem_of_filter in Hl as [? _]. }
        assert (l = lo + 1) as ->.
        { destruct (decide (l = lo + 1)) as [|Hgt]; [done|].
          assert (P (lo + 1)) as HP1 by (apply (Hconv lo (lo + 1) l); [lia|done..]).
          assert (lo + 1 ∈ Py.range l h) as Hin.
          { rewrite <- Heq. apply list_elem_of_filter. split; [done|].
            apply elem_of_range. lia. }
          apply elem_of_range in Hin. lia. }
        exists lo, h. split; [lia|]. split; [lia|]. by rewrite (range_cons lo) by lia.
      * exists lo, (lo + 1). split; [lia|]. split; [lia|].
        rewrite (range_nil l h) by lia.
        by rewrite range_cons, range_nil by lia.
    + exists l, h. split; [lia|]. split; [lia|]. done.
Qed.

Lemma filter_ext_in {A} (P Q : A → Prop) `{∀ x, Decision (P x)}
    `{∀ x, Decision (Q x)} (l : list A) :
  (∀ x, x ∈ l → P x ↔ Q x) → filter P l = filter Q l.
Proof.
  intros Hpq. induction l as [|x l IH]; [done|].
  rewrite !filter_cons, IH by (intros y Hy; apply Hpq; by right).
  destruct (decide (P x)) as [HP|HP]; destruct (decide (Q x)) as [HQ|HQ];
    try done; destruct (Hpq x ltac:(left)); tauto.
Qed.

Lemma filter_subset_length {A} (P Q : A → Prop) `{∀ x, Decision (P x)}
    `{∀ x, Decision (Q x)} (l : list A) :
  (∀ x, x ∈ l → P x → Q x) → Py.len (filter P l) ≤ Py.len (filter Q l).
Proof.
  intros Hpq. induction l as [|x l IH]; [done|].
  rewrite !len_filter_cons.
  assert (Py.len (filter P l) ≤ Py.len (filter Q l)) as Hle
    by (apply IH; intros y Hy; apply Hpq; by right).
  destruct (decide (P x)) as [HP|HP]; destruct (decide (Q x)) as [HQ|HQ]; try lia.
  destruct HQ. apply Hpq; [left | done].
Qed.

Lemma catchment_draws (cota : Z) (active : gset Z) (max_cota d : Z) :
  d ∈ (AnalyzeOptimalCotas.calculate_catchment cota active max_cota).2 ↔
  cota ∈ active ∧ 1 ≤ d ≤ max_cota ∧
  AnalyzeOptimalCotas.find_selected_cota d active max_cota = Some cota.
Proof.
  unfold AnalyzeOptimalCotas.calculate_catchment. case_bool_decide as Hin.
  - simpl. split; [by intros ?%elem_of_nil | intros [? _]; contradiction].
  - simpl.
    rewrite list_elem_of_filter, elem_of_range. split.
    + intros [? ?]. split; [done|]. split; [lia | done].
    + intros (_ & ? & ?). split; [done | lia].
Qed.

(** X3. The catchment of an active quota of the pool is a block of
    consecutive draws that contains the quota itself; the count returned is
    the size of the block. *)
Theorem calculate_catchment_block (cota : Z) (active : gset Z) (max_cota : Z) :
  cota ∈ active → 1 ≤ cota ≤ max_cota →
  ∃ lo hi, 1 ≤ lo ≤ cota ∧ cota ≤ hi ≤ max_cota ∧
    AnalyzeOptimalCotas.calculate_catchment cota active max_cota =
      (hi - lo + 1, Py.range lo (hi + 1)).
Proof.
  intros Hin Hrange.
  unfold AnalyzeOptimalCotas.calculate_catchment.
  rewrite bool_decide_eq_false_2 by (by intros Hn). cbv zeta.
  set (P := λ draw,
         AnalyzeOptimalCotas.find_selected_cota draw active max_cota = Some cota).
  assert (∀ a b c, 1 ≤ a → a ≤ b ≤ c → c ≤ max_cota → P a → P c → P b) as Hconv.
  { intros a b c Ha Hb Hc HPa HPc. unfold P in *.
    destruct (pool_selects active max_cota b cota) as [r Hr]; [lia | done |].
    rewrite Hr. f_equal.
    pose proof (selected_monotone active max_cota a b cota r
                  ltac:(lia) ltac:(lia) ltac:(lia) HPa Hr).
    pose proof (selected_monotone active max_cota b c r cota
                  ltac:(lia) ltac:(lia) ltac:(lia) Hr HPc). lia. }
  destruct (filter_convex_range
              (λ d, 1 ≤ d ≤ max_cota ∧ P d) (Z.to_nat max_cota) 1)
    as (l & h & Hlh & Hh & Heq).
  { intros a b c Hb [Ha HPa] [Hc HPc]. split; [lia|].
    apply (Hconv a b c); (lia || done). }
  replace (1 + Z.of_nat (Z.to_nat max_cota)) with (max_cota + 1) in Heq, Hh by lia.
  assert (filter P (Py.range 1 (max_cota + 1)) = Py.range l h) as Heq'.
  { rewrite <- Heq. apply filter_ext_in. intros d Hd%elem_of_range.
    split; [intros; split; [lia | done] | by intros [_ ?]]. }
  assert (cota ∈ Py.range l h) as Hc.
  { rewrite <- Heq'. apply list_elem_of_filter. split.
    - unfold P. by apply find_selected_cota_in.
    - apply elem_of_range. lia. }
  apply elem_of_range in Hc.
  exists l, (h - 1). split; [lia|]. split; [lia|].
  rewrite Heq'. replace (h - 1 + 1) with h by lia.
  f_equal. unfold Py.len. rewrite length_range. lia.
Qed.

Lemma calculate_catchment_block_witness :
  ∃ lo hi, 1 ≤ lo ≤ 5 ∧ 5 ≤ hi ≤ 6 ∧
    AnalyzeOptimalCotas.calculate_catchment 5 {[2; 5]} 6 =
      (hi - lo + 1, Py.range lo (hi + 1)).
Proof.
  apply (calculate_catchment_block 5 {[2; 5]} 6); [by vm_compute | lia].
Defined.

(** X4. A quota outside the pool [1 .. max_cota] is never selected by a
    draw of the pool: its catchment is empty even when it is in the active
    set. *)
Theorem calculate_catchment_outside_pool (cota : Z) (active : gset Z) (max_cota : Z) :
  cota < 1 ∨ max_cota < cota →
  AnalyzeOptimalCotas.calculate_catchment cota active max_cota = (0, []).
Proof.
  intros Hout. unfold AnalyzeOptimalCotas.calculate_catchment.
  case_bool_decide; [done|]. cbv zeta.
  assert (filter
            (λ draw, AnalyzeOptimalCotas.find_selected_cota draw active max_cota
                     = Some cota)
            (Py.range 1 (max_cota + 1)) = []) as ->; [|done].
  apply elem_of_nil_inv. intros d [Hsel Hd%elem_of_range]%list_elem_of_filter.
  apply selected_is_nearest in Hsel as [[_ ?] _]; lia.
Qed.

Lemma calculate_catchment_outside_pool_witness :
  AnalyzeOptimalCotas.calculate_catchment 9 {[2; 5; 9]} 6 = (0, []).
Proof. apply (calculate_catchment_outside_pool 9 {[2; 5; 9]} 6). lia. Defined.

(** X5. Adding a quota to the active ones takes draws away from the other
    quotas and gives them none: every draw that selects another quota [q]
    afterwards selected [q] before, so the count of [q] does not grow. *)
Theorem calculate_catchment_after_purchase
    (cota q : Z) (active : gset Z) (max_cota : Z) :
  q ≠ cota →
  (∀ d, d ∈ (AnalyzeOptimalCotas.calculate_catchment q (active ∪ {[cota]}) max_cota).2 →
        d ∈ (AnalyzeOptimalCotas.calculate_catchment q active max_cota).2) ∧
  (AnalyzeOptimalCotas.calculate_catchment q (active ∪ {[cota]}) max_cota).1 ≤
  (AnalyzeOptimalCotas.calculate_catchment q active max_cota).1.
Proof.
  intros Hne.
  assert (q ∈ active ∪ {[cota]} → q ∈ active) as Hq_active.
  { intros [?|Hq%elem_of_singleton]%elem_of_union; [done | contradiction]. }
  assert (∀ d, 1 ≤ d ≤ max_cota →
            AnalyzeOptimalCotas.find_selected_cota d (active ∪ {[cota]}) max_cota
              = Some q →
            AnalyzeOptimalCotas.find_selected_cota d active max_cota = Some q)
    as Hkeep.
  { intros d Hd Hsel.
    apply selected_is_nearest in Hsel as [[Hq Hrange] Hnear]; [|done].
    apply nearest_is_selected; [done | |].
    - split; [by apply Hq_active | done].
    - intros q' [Hq' Hrange']. apply Hnear.
      split; [apply elem_of_union; by left | done]. }
  split.
  - intros d. rewrite !catchment_draws. intros (Hq & Hd & Hsel).
    split; [by apply Hq_active|]. split; [done|]. by apply Hkeep.
  - unfold AnalyzeOptimalCotas.calculate_catchment.
    case_bool_decide as H1.
    { simpl. case_bool_decide; simpl; [done | apply Nat2Z.is_nonneg]. }
    rewrite bool_decide_eq_false_2 by (intros Hn; apply Hn, Hq_active, H1).
    simpl. apply filter_subset_length. intros d Hd%elem_of_range. apply Hkeep. lia.
Qed.

Lemma calculate_catchment_after_purchase_witness :
  (∀ d, d ∈ (AnalyzeOptimalCotas.calculate_catchment 2 ({[2; 5]} ∪ {[3]}) 6).2 →
        d ∈ (AnalyzeOptimalCotas.calculate_catchment 2 {[2; 5]} 6).2) ∧
  (AnalyzeOptimalCotas.calculate_catchment 2 ({[2; 5]} ∪ {[3]}) 6).1 ≤
  (AnalyzeOptimalCotas.calculate_catchment 2 {[2; 5]} 6).1.
Proof. apply (calculate_catchment_after_purchase 3 2 {[2; 5]} 6). lia. Defined.

(** ** Ranking of the buyable quotas *)

Lemma int_key_asym {A} (key : A → Z) (x y : A) :
  True → True → Z.ltb (key x) (key y) = true → Z.ltb (key y) (key x) = false.
Proof. intros _ _. rewrite Z.ltb_lt, Z.ltb_ge. lia. Qed.

Lemma int_key_trans {A} (key : A → Z) (x y z : A) :
  True → True → True →
  key_le key Z.ltb x y → key_le key Z.ltb y z → key_le key Z.ltb x z.
Proof. unfold key_le. intros _ _ _. rewrite !Z.ltb_ge. lia. Qed.

(** Sorting a list in descending order of an integer key: the elements
    with the same key stay in the order [E] in which the list had them. *)
Lemma sort_descending_stable {A} (key : A → Z) (E : relation A) (l : list A) :
  StronglySorted E l →
  StronglySorted (λ a b, key a > key b ∨ (key a = key b ∧ E a b))
                 (Py.sort key Z.ltb true l).
Proof.
  intros Hl.
  assert (Forall (λ _ : A, True) l) as Hok by (by apply Forall_forall).
  assert (Forall (λ _ : A, True) (Py.sort key Z.ltb true l)) as Hok'
    by (by apply Forall_forall).
  pose proof (sort_descending key Z.ltb (λ _, True)
                (int_key_asym key) (int_key_trans key) l Hok) as Hdesc.
  assert (StronglySorted (λ a b, key_equiv key Z.ltb a b → E a b)
                         (Py.sort key Z.ltb true l)) as Hstable.
  { apply (stable_sorted (key_equiv key Z.ltb) E).
    - intros x _. unfold key_equiv, key_le. rewrite Z.ltb_ge. lia.
    - intros x0 _.
      rewrite (sort_stable key Z.ltb (λ _, True) (int_key_trans key) true x0 l);
        [| done | done].
      by apply StronglySorted_filter. }
  pose proof (StronglySorted_and_Forall _ _ (λ _, True) _ Hdesc Hstable Hok') as Hall.
  revert Hall. apply StronglySorted_mono.
  intros a b (Hle & Heq & _). unfold flip, key_le in Hle. apply Z.ltb_ge in Hle.
  destruct (decide (key a = key b)) as [Hk|Hk]; [|lia].
  right. split; [done|]. apply Heq. unfold key_equiv, key_le.
  rewrite !Z.ltb_ge. lia.
Qed.

Lemma length_sorted_set (s : gset Z) : length (Py.sorted_set s) = size s.
Proof. by rewrite sorted_set_Permutation. Qed.

Section Ranking.
Import AnalyzeOptimalCotas.
Variables (total_cotas : Z) (active disponiveis : gset Z).

Lemma buyable_catchments_spec (p : Z * Z) :
  p ∈ buyable_catchments total_cotas active disponiveis ↔
  p.1 ∈ disponiveis ∧
  p.2 = (calculate_catchment p.1 (active ∪ {[p.1]}) total_cotas).1.
Proof.
  unfold buyable_catchments. rewrite list_elem_of_fmap. split.
  - intros (cota & -> & Hc%elem_of_sorted_set). done.
  - intros [Hc Hn]. exists p.1. split; [|by apply elem_of_sorted_set].
    destruct p as [c n]. simpl in *. by rewrite Hn.
Qed.

Lemma buyable_catchments_sorted :
  StronglySorted (λ a b : Z * Z, a.1 < b.1)
                 (buyable_catchments total_cotas active disponiveis).
Proof.
  unfold buyable_catchments.
  eapply StronglySorted_fmap; [|apply sorted_set_increasing]. done.
Qed.

Lemma ranking_sorted :
  StronglySorted ranked_before
    (Py.sort snd Z.ltb true (buyable_catchments total_cotas active disponiveis)).
Proof.
  apply (sort_descending_stable snd (λ a b : Z * Z, a.1 < b.1)).
  apply buyable_catchments_sorted.
Qed.

End Ranking.

(** X6. [top_10] of [main] holds the ten best buyable quotas, or all of
    them when there are fewer: each entry is a buyable quota with its
    simulated catchment count, the entries are in descending order of count
    and, for equal counts, in ascending order of quota number, and every
    buyable quota left out is ranked after every entry. *)
Theorem top_10_ranking (total_cotas : Z) (active disponiveis : gset Z) :
  Py.len (AnalyzeOptimalCotas.top_10 total_cotas active disponiveis) =
    Z.min 10 (Py.set_len disponiveis) ∧
  (∀ p, p ∈ AnalyzeOptimalCotas.top_10 total_cotas active disponiveis →
        p.1 ∈ disponiveis ∧
        p.2 = (AnalyzeOptimalCotas.calculate_catchment
                 p.1 (active ∪ {[p.1]}) total_cotas).1) ∧
  StronglySorted ranked_before
    (AnalyzeOptimalCotas.top_10 total_cotas active disponiveis) ∧
  (∀ p cota,
     p ∈ AnalyzeOptimalCotas.top_10 total_cotas active disponiveis →
     cota ∈ disponiveis →
     cota ∉ (AnalyzeOptimalCotas.top_10 total_cotas active disponiveis).*1 →
     ranked_before p
       (cota, (AnalyzeOptimalCotas.calculate_catchment
                 cota (active ∪ {[cota]}) total_cotas).1)).
Proof.
  unfold AnalyzeOptimalCotas.top_10.
  set (items := AnalyzeOptimalCotas.buyable_catchments total_cotas active disponiveis).
  set (full := Py.sort snd Z.ltb true items).
  pose proof (ranking_sorted total_cotas active disponiveis) as Hsorted.
  fold items in Hsorted. fold full in Hsorted.
  rewrite <- (take_drop 10 full) in Hsorted.
  apply StronglySorted_app in Hsorted as (Hcross & Htop & _).
  split; [|split; [|split]].
  - unfold Py.len, Py.set_len. rewrite length_take.
    unfold full. rewrite sort_Permutation. unfold items.
    unfold AnalyzeOptimalCotas.buyable_catchments.
    rewrite length_fmap, length_sorted_set. lia.
  - intros p Hp. apply buyable_catchments_spec.
    fold items. rewrite <- (sort_Permutation snd Z.ltb true items).
    by apply (subseteq_take 10).
  - done.
  - intros p cota Hp Hc Hout. apply Hcross; [done|].
    set (p' := (cota, (AnalyzeOptimalCotas.calculate_catchment
                         cota (active ∪ {[cota]}) total_cotas).1)).
    assert (p' ∈ take 10 full ++ drop 10 full) as Hin.
    { rewrite take_drop. unfold full. rewrite sort_Permutation.
      by apply buyable_catchments_spec. }
    apply elem_of_app in Hin as [Hin|Hin]; [|done].
    destruct Hout. apply list_elem_of_fmap. by exists p'.
Qed.

Example top_10_of_ten :
  AnalyzeOptimalCotas.top_10 10
    (AnalyzeOptimalCotas.get_active_cotas 10 {[3; 4]} {[5; 8]}) {[5; 8]}
  = [(5, 2); (8, 1)].
Proof. by vm_compute. Qed.

(** ** The gaps are the maximal spans without active quota *)

Lemma count_in_members (s : gset Z) (lo hi : Z) :
  AnalyzeOptimalCotas.count_in s lo (hi + 1) = members_between s lo hi.
Proof.
  unfold AnalyzeOptimalCotas.count_in, members_between, Py.len.
  induction (filter (λ c, c ∈ s) (Py.range lo (hi + 1))) as [|x l IH]; [done|].
  rewrite fmap_cons, sum_cons, IH. simpl length. lia.
Qed.

Lemma adjacent_pairs_cons {A} (x y : A) (l : list A) :
  adjacent_pairs (x :: y :: l) = (x, y) :: adjacent_pairs (y :: l).
Proof. reflexivity. Qed.

(** Two neighbours of a strictly increasing list have nothing of the list
    between them. *)
Lemma adjacent_no_between (l : list Z) (a b : Z) :
  StronglySorted Z.lt l → (a, b) ∈ adjacent_pairs l →
  a < b ∧ ∀ x, x ∈ l → ¬ (a < x < b).
Proof.
  induction l as [|x l IH]; intros Hs Hp; [by apply elem_of_nil in Hp|].
  destruct l as [|y l]; [by apply elem_of_nil in Hp|].
  rewrite adjacent_pairs_cons in Hp.
  apply StronglySorted_cons in Hs as [Hall Hs].
  pose proof Hs as Hs'. apply StronglySorted_cons in Hs' as [Hally _].
  rewrite Forall_forall in Hall, Hally.
  apply elem_of_cons in Hp as [[= -> ->]|Hp].
  - split; [apply Hall; left|].
    intros z [->|[->|Hz]%elem_of_cons]%elem_of_cons; [lia | lia |].
    specialize (Hally z Hz). lia.
  - destruct (IH Hs Hp) as [Hab Hno]. split; [done|].
    intros z [->|Hz]%elem_of_cons; [|by apply Hno].
    apply elem_of_adjacent_pairs in Hp as [Ha _].
    specialize (Hall a Ha). lia.
Qed.

(** Two elements of a strictly increasing list with nothing of the list
    between them are neighbours. *)
Lemma adjacent_of_no_between (l : list Z) (a b : Z) :
  StronglySorted Z.lt l → a ∈ l → b ∈ l → a < b →
  (∀ x, x ∈ l → ¬ (a < x < b)) →
  (a, b) ∈ adjacent_pairs l.
Proof.
  induction l as [|x l IH]; intros Hs Ha Hb Hab Hno; [by apply elem_of_nil in Ha|].
  apply StronglySorted_cons in Hs as [Hall Hs]. rewrite Forall_forall in Hall.
  assert (b ∈ l) as Hbl.
  { apply elem_of_cons in Hb as [->|?]; [|done].
    apply elem_of_cons in Ha as [->|Ha]; [lia|]. specialize (Hall a Ha). lia. }
  destruct l as [|y l]; [by apply elem_of_nil in Hbl|].
  rewrite adjacent_pairs_cons.
  apply elem_of_cons in Ha as [->|Ha].
  - assert (y = b) as ->; [|left].
    pose proof (Hall y ltac:(left)).
    apply StronglySorted_cons in Hs as [Hally _]. rewrite Forall_forall in Hally.
    apply elem_of_cons in Hbl as [->|Hbl]; [done|].
    specialize (Hally b Hbl).
    destruct (Hno y); [right; left | lia].
  - right. apply IH; [done | done | done | done |].
    intros z Hz. apply Hno. by right.
Qed.

Lemma adjacent_pairs_sorted (l : list Z) :
  StronglySorted Z.lt l →
  StronglySorted (λ p1 p2 : Z * Z, p1.2 ≤ p2.1) (adjacent_pairs l).
Proof.
  induction l as [|x l IH]; intros Hs; [constructor|].
  destruct l as [|y l]; [constructor|].
  rewrite adjacent_pairs_cons.
  apply StronglySorted_cons in Hs as [_ Hs].
  constructor; [by apply IH|].
  apply Forall_forall. intros [a b] Hp. simpl.
  apply elem_of_adjacent_pairs in Hp as [Ha _].
  apply elem_of_cons in Ha as [->|Ha]; [lia|].
  apply StronglySorted_cons in Hs as [Hally _]. rewrite Forall_forall in Hally.
  specialize (Hally a Ha). lia.
Qed.

Lemma gap_between_spec (c d : gset Z) (lower upper : Z) (gap : Z * Z * Z * Z * Z) :
  gap ∈ gap_between c d lower upper ↔
  lower + 1 ≤ upper - 1 ∧
  gap = (lower + 1, upper - 1, upper - 1 - (lower + 1) + 1,
         members_between c (lower + 1) (upper - 1),
         members_between d (lower + 1) (upper - 1)).
Proof.
  unfold gap_between, AnalyzeOptimalCotas.find_gaps_step. simpl.
  rewrite !count_in_members.
  destruct (upper - 1 >=? lower + 1) eqn:E; simpl.
  - apply Z.geb_le in E. rewrite list_elem_of_singleton. tauto.
  - rewrite Z.geb_leb in E. apply Z.leb_gt in E.
    split; [by intros ?%elem_of_nil | lia].
Qed.

Section GapSpec.
Variables (active contempladas disponiveis : gset Z).

Lemma find_gaps_spec (gap : Z * Z * Z * Z * Z) :
  gap ∈ AnalyzeOptimalCotas.find_gaps active contempladas disponiveis ↔
  gap_first gap ≤ gap_last gap ∧
  gap_first gap - 1 ∈ active ∧
  gap_last gap + 1 ∈ active ∧
  (∀ x, gap_first gap ≤ x ≤ gap_last gap → x ∉ active) ∧
  gap_size gap = gap_last gap - gap_first gap + 1 ∧
  gap_contempladas gap = members_between contempladas (gap_first gap) (gap_last gap) ∧
  gap_disponiveis gap = members_between disponiveis (gap_first gap) (gap_last gap).
Proof.
  rewrite find_gaps_pairs, list_elem_of_bind.
  pose proof (sorted_set_increasing active) as Hs. split.
  - intros ([a b] & Hgap & Hp). simpl in Hgap.
    apply gap_between_spec in Hgap as [Hle ->].
    destruct (adjacent_no_between _ a b Hs Hp) as [_ Hno].
    apply elem_of_adjacent_pairs in Hp as [Ha Hb].
    apply elem_of_sorted_set in Ha, Hb.
    unfold gap_first, gap_last, gap_size, gap_contempladas, gap_disponiveis. simpl.
    replace (a + 1 - 1) with a by lia. replace (b - 1 + 1) with b by lia.
    repeat (split; [done|]). split; [|done].
    intros x Hx Hin%elem_of_sorted_set. apply (Hno x Hin). lia.
  - destruct gap as [[[[s e] sz] nc] nd].
    unfold gap_first, gap_last, gap_size, gap_contempladas, gap_disponiveis. simpl.
    intros (Hle & Ha & Hb & Hno & -> & -> & ->).
    exists (s - 1, e + 1). simpl. split.
    + apply gap_between_spec.
      replace (s - 1 + 1) with s by lia. replace (e + 1 - 1) with e by lia. done.
    + apply adjacent_of_no_between; [done | by apply elem_of_sorted_set..| lia |].
      intros x Hx%elem_of_sorted_set Hbetween. apply (Hno x); [lia | done].
Qed.

Lemma find_gaps_ascending :
  StronglySorted (λ g1 g2, gap_last g1 + 1 < gap_first g2)
    (AnalyzeOptimalCotas.find_gaps active contempladas disponiveis).
Proof.
  rewrite find_gaps_pairs.
  apply (sorted_bind (λ p1 p2 : Z * Z, p1.2 ≤ p2.1)).
  - apply adjacent_pairs_sorted, sorted_set_increasing.
  - intros [a b] _. simpl.
    unfold gap_between, AnalyzeOptimalCotas.find_gaps_step. simpl.
    destruct (_ >=? _); repeat constructor.
  - intros [a1 b1] [a2 b2] g1 g2 Hle Hg1 Hg2. simpl in *.
    apply gap_between_spec in Hg1 as [_ ->].
    apply gap_between_spec in Hg2 as [_ ->].
    unfold gap_first, gap_last. simpl. lia.
Qed.

End GapSpec.

(** X7. [find_gaps] returns exactly the maximal non-empty spans without
    active quota that lie between two active quotas, with their size and the
    numbers of contemplated and available quotas inside, in ascending order
    and with an active quota between any two of them. *)
Theorem find_gaps_maximal_spans (active contempladas disponiveis : gset Z) :
  (∀ gap,
     gap ∈ AnalyzeOptimalCotas.find_gaps active contempladas disponiveis ↔
     gap_first gap ≤ gap_last gap ∧
     gap_first gap - 1 ∈ active ∧
     gap_last gap + 1 ∈ active ∧
     (∀ x, gap_first gap ≤ x ≤ gap_last gap → x ∉ active) ∧
     gap_size gap = gap_last gap - gap_first gap + 1 ∧
     gap_contempladas gap =
       members_between contempladas (gap_first gap) (gap_last gap) ∧
     gap_disponiveis gap =
       members_between disponiveis (gap_first gap) (gap_last gap)) ∧
  StronglySorted (λ g1 g2, gap_last g1 + 1 < gap_first g2)
    (AnalyzeOptimalCotas.find_gaps active contempladas disponiveis).
Proof.
  split; [apply find_gaps_spec | apply find_gaps_ascending].
Qed.

Lemma members_between_bounds (s : gset Z) (lo hi : Z) :
  lo ≤ hi + 1 → 0 ≤ members_between s lo hi ≤ hi - lo + 1.
Proof.
  intros H. unfold members_between.
  pose proof (len_filter_le (λ x, x ∈ s) (Py.range lo (hi + 1))) as Hle.
  unfold Py.len in *. rewrite length_range in Hle. lia.
Qed.

Lemma members_cover (c d : gset Z) (l : list Z) :
  (∀ x, x ∈ l → x ∈ c ∨ x ∈ d) →
  Py.len l ≤ Py.len (filter (λ x, x ∈ c) l) + Py.len (filter (λ x, x ∈ d) l).
Proof.
  intros H. induction l as [|x l IH]; [done|].
  rewrite !len_filter_cons.
  assert (Py.len l ≤ Py.len (filter (λ x, x ∈ c) l) + Py.len (filter (λ x, x ∈ d) l))
    as Hl by (apply IH; intros y Hy; apply H; by right).
  unfold Py.len in *. simpl length.
  destruct (H x ltac:(left)); destruct (decide (x ∈ c)); destruct (decide (x ∈ d));
    try done; lia.
Qed.

Lemma members_disjoint (c d : gset Z) (l : list Z) :
  c ∩ d = ∅ →
  Py.len (filter (λ x, x ∈ c) l) + Py.len (filter (λ x, x ∈ d) l) ≤ Py.len l.
Proof.
  intros H. induction l as [|x l IH]; [done|].
  rewrite !len_filter_cons. unfold Py.len in *. simpl length.
  destruct (decide (x ∈ c)) as [Hc|]; destruct (decide (x ∈ d)) as [Hd|]; try lia.
  assert (x ∈ c ∩ d) as Hx by (by apply elem_of_intersection).
  rewrite H in Hx. by apply elem_of_empty in Hx.
Qed.

(** X8. In a universe as [main] builds it, where the active quotas are
    the quotas of [1 .. total_cotas] that are neither contemplated nor
    available, every quota of a gap is contemplated or available: the two
    counts of a gap are at most its size and add up to at least its size, and
    to exactly its size when no quota is both contemplated and available. *)
Theorem find_gaps_counts (total_cotas : Z) (contempladas disponiveis : gset Z) :
  Forall (λ gap,
            1 ≤ gap_size gap ∧
            0 ≤ gap_contempladas gap ≤ gap_size gap ∧
            0 ≤ gap_disponiveis gap ≤ gap_size gap ∧
            gap_size gap ≤ gap_contempladas gap + gap_disponiveis gap ∧
            (contempladas ∩ disponiveis = ∅ →
             gap_contempladas gap + gap_disponiveis gap = gap_size gap))
    (AnalyzeOptimalCotas.find_gaps
       (AnalyzeOptimalCotas.get_active_cotas total_cotas contempladas disponiveis)
       contempladas disponiveis).
Proof.
  apply Forall_forall. intros gap Hgap.
  apply find_gaps_spec in Hgap as (Hle & Ha & Hb & Hno & -> & -> & ->).
  set (s := gap_first gap) in *. set (e := gap_last gap) in *.
  pose proof (members_between_bounds contempladas s e ltac:(lia)).
  pose proof (members_between_bounds disponiveis s e ltac:(lia)).
  assert (Py.len (Py.range s (e + 1)) = e - s + 1) as Hlen
    by (unfold Py.len; rewrite length_range; lia).
  assert (∀ x, x ∈ AnalyzeOptimalCotas.get_active_cotas total_cotas contempladas
                     disponiveis ↔
               1 ≤ x ≤ total_cotas ∧ (x ∉ contempladas) ∧ (x ∉ disponiveis)) as Hact.
  { intros x. unfold AnalyzeOptimalCotas.get_active_cotas.
    rewrite !elem_of_difference, elem_of_list_to_set, elem_of_range.
    split; [intros [[? ?] ?] | intros (? & ? & ?)];
      repeat split; (done || lia). }
  apply Hact in Ha, Hb.
  assert (e - s + 1 ≤ members_between contempladas s e
                       + members_between disponiveis s e) as Hcover.
  { rewrite <- Hlen. apply members_cover. intros x Hx%elem_of_range.
    destruct (decide (x ∈ contempladas)) as [|Hc]; [by left|].
    destruct (decide (x ∈ disponiveis)) as [|Hd]; [by right|].
    destruct (Hno x); [lia|]. apply Hact. split; [lia | done]. }
  split; [lia|]. split; [lia|]. split; [lia|]. split; [lia|].
  intros Hdisj.
  pose proof (members_disjoint contempladas disponiveis (Py.range s (e + 1)) Hdisj)
    as Hd. rewrite Hlen in Hd. unfold members_between in *. lia.
Qed.

(** X9. The analysed gaps of [main] are the gaps of [find_gaps], the
    larger ones first and, among gaps of one size, those with more
    contemplated quotas first; the quotas listed as buyable inside a gap are
    as many as its count of available quotas. *)
Theorem analyzed_gaps_ranked (total_cotas : Z) (contempladas disponiveis : gset Z) :
  AnalyzeOptimalCotas.analyzed_gaps total_cotas contempladas disponiveis ≡ₚ
    AnalyzeOptimalCotas.analyze_gap
      (AnalyzeOptimalCotas.get_active_cotas total_cotas contempladas disponiveis)
      disponiveis
    <$> AnalyzeOptimalCotas.find_gaps
          (AnalyzeOptimalCotas.get_active_cotas total_cotas contempladas disponiveis)
          contempladas disponiveis ∧
  StronglySorted gap_ranked_before
    (AnalyzeOptimalCotas.analyzed_gaps total_cotas contempladas disponiveis) ∧
  Forall (λ g, Py.len (AnalyzeOptimalCotas.buyable_in_gap g) =
               AnalyzeOptimalCotas.num_disponiveis g)
    (AnalyzeOptimalCotas.analyzed_gaps total_cotas contempladas disponiveis).
Proof.
  unfold AnalyzeOptimalCotas.analyzed_gaps. cbv zeta.
  split; [apply sort_Permutation|]. split.
  - pose proof (sort_pairs_sorted
        (λ x, (AnalyzeOptimalCotas.size x, AnalyzeOptimalCotas.num_contempladas x))
        true
        (AnalyzeOptimalCotas.analyze_gap
           (AnalyzeOptimalCotas.get_active_cotas total_cotas contempladas disponiveis)
           disponiveis
         <$> AnalyzeOptimalCotas.find_gaps
               (AnalyzeOptimalCotas.get_active_cotas total_cotas contempladas
                  disponiveis) contempladas disponiveis)) as Hs.
    revert Hs. apply StronglySorted_mono. intros g1 g2 Hle.
    unfold flip, key_le in Hle. apply lt_pair_false in Hle. simpl in Hle.
    unfold gap_ranked_before. lia.
  - apply Forall_forall. intros g Hg.
    apply elem_of_sort, list_elem_of_fmap in Hg as (gap & -> & Hgap).
    apply find_gaps_spec in Hgap as (_ & _ & _ & _ & _ & _ & Hnd).
    destruct gap as [[[[s e] sz] nc] nd].
    unfold gap_disponiveis, gap_first, gap_last in Hnd. simpl in *. by subst.
Qed.

(** ** More on the runs of consecutive quotas *)

Lemma find_consecutive_sequences_runs (quotas_list : list Z)
    (r : AnalisarSequencias.Sequence) :
  r ∈ AnalisarSequencias.find_consecutive_sequences quotas_list ↔
  is_maximal_run quotas_list r.
Proof.
  destruct (find_consecutive_sequences_sorted_runs quotas_list)
    as (runs & -> & Hruns & _).
  by rewrite elem_of_sort.
Qed.

(** X10. The result of [find_consecutive_sequences] depends on the quotas
    that its input holds only, not on their order or repetition. *)
Theorem find_consecutive_sequences_same_quotas (l1 l2 : list Z) :
  (∀ x, x ∈ l1 ↔ x ∈ l2) →
  AnalisarSequencias.find_consecutive_sequences l1 =
  AnalisarSequencias.find_consecutive_sequences l2.
Proof.
  intros Heq.
  assert (list_to_set l1 =@{gset Z} list_to_set l2) as Hset.
  { apply set_eq. intros x. by rewrite !elem_of_list_to_set. }
  destruct l1 as [|x1 l1], l2 as [|x2 l2]; [done | | |].
  - exfalso. apply (elem_of_nil x2), Heq. left.
  - exfalso. apply (elem_of_nil x1), Heq. left.
  - unfold AnalisarSequencias.find_consecutive_sequences. by rewrite Hset.
Qed.

Lemma find_consecutive_sequences_same_quotas_witness :
  AnalisarSequencias.find_consecutive_sequences [3; 1; 2; 3] =
  AnalisarSequencias.find_consecutive_sequences [1; 2; 3].
Proof.
  apply (find_consecutive_sequences_same_quotas [3; 1; 2; 3] [1; 2; 3]).
  intros x. rewrite !elem_of_cons. rewrite !elem_of_nil. tauto.
Defined.

Lemma maximal_run_eq (l : list Z) (r1 r2 : AnalisarSequencias.Sequence) :
  is_maximal_run l r1 → is_maximal_run l r2 →
  AnalisarSequencias.start r1 = AnalisarSequencias.start r2 →
  AnalisarSequencias.length r1 = AnalisarSequencias.length r2 →
  r1 = r2.
Proof.
  destruct r1 as [q1 s1 e1 n1], r2 as [q2 s2 e2 n2]. unfold is_maximal_run. simpl.
  intros (_ & -> & -> & _) (_ & -> & -> & _) -> ->. done.
Qed.

(** Two maximal runs of a list are the same run or lie apart, with a
    missing quota between them. *)
Lemma maximal_runs_apart (l : list Z) (r1 r2 : AnalisarSequencias.Sequence) :
  is_maximal_run l r1 → is_maximal_run l r2 →
  AnalisarSequencias.start r1 ≤ AnalisarSequencias.start r2 →
  r1 = r2 ∨ AnalisarSequencias.end_ r1 + 1 < AnalisarSequencias.start r2.
Proof.
  intros H1 H2 Hle.
  pose proof H1 as (Hn1 & Hq1 & He1 & Hin1 & Hb1 & Ha1).
  pose proof H2 as (Hn2 & Hq2 & He2 & Hin2 & Hb2 & Ha2).
  assert (∀ x, AnalisarSequencias.start r1 ≤ x ≤ AnalisarSequencias.end_ r1 → x ∈ l)
    as Hm1 by (intros x Hx; apply Hin1; rewrite Hq1, elem_of_range; lia).
  assert (∀ x, AnalisarSequencias.start r2 ≤ x ≤ AnalisarSequencias.end_ r2 → x ∈ l)
    as Hm2 by (intros x Hx; apply Hin2; rewrite Hq2, elem_of_range; lia).
  destruct (decide (AnalisarSequencias.end_ r1 + 1 < AnalisarSequencias.start r2))
    as [|Hnear]; [by right|]. left.
  assert (AnalisarSequencias.start r1 = AnalisarSequencias.start r2) as Hs.
  { destruct (decide (AnalisarSequencias.start r1 = AnalisarSequencias.start r2))
      as [|Hne]; [done|].
    destruct Hb2. apply Hm1. lia. }
  apply (maximal_run_eq l); [done | done | done |].
  destruct (Z.lt_total (AnalisarSequencias.end_ r1) (AnalisarSequencias.end_ r2))
    as [Hlt|[Heq|Hgt]]; [| lia |].
  - destruct Ha1. apply Hm2. lia.
  - destruct Ha2. apply Hm1. lia.
Qed.

(** X11. Two different sequences returned by [find_consecutive_sequences]
    share no quota and do not touch: a quota that is not in the input lies
    between them. *)
Theorem find_consecutive_sequences_apart (quotas_list : list Z)
    (r1 r2 : AnalisarSequencias.Sequence) :
  r1 ∈ AnalisarSequencias.find_consecutive_sequences quotas_list →
  r2 ∈ AnalisarSequencias.find_consecutive_sequences quotas_list →
  r1 ≠ r2 →
  AnalisarSequencias.end_ r1 + 1 < AnalisarSequencias.start r2 ∨
  AnalisarSequencias.end_ r2 + 1 < AnalisarSequencias.start r1.
Proof.
  intros H1%find_consecutive_sequences_runs H2%find_consecutive_sequences_runs Hne.
  destruct (Z.le_ge_cases (AnalisarSequencias.start r1) (AnalisarSequencias.start r2))
    as [Hle|Hge].
  - destruct (maximal_runs_apart _ _ _ H1 H2 Hle) as [?|?]; [done | by left].
  - destruct (maximal_runs_apart _ _ _ H2 H1 ltac:(lia)) as [?|?];
      [by subst | by right].
Qed.

Lemma find_consecutive_sequences_apart_witness :
  AnalisarSequencias.end_ (AnalisarSequencias.make_sequence [1; 2]) + 1 <
    AnalisarSequencias.start (AnalisarSequencias.make_sequence [6; 7; 8]) ∨
  AnalisarSequencias.end_ (AnalisarSequencias.make_sequence [6; 7; 8]) + 1 <
    AnalisarSequencias.start (AnalisarSequencias.make_sequence [1; 2]).
Proof.
  apply (find_consecutive_sequences_apart [1; 2; 6; 7; 8]).
  - by vm_compute; right; left.
  - by vm_compute; left.
  - intros [=].
Defined.

(** ** Quotas in sequences and isolated quotas *)

Lemma list_lower_bound (l : list Z) : ∃ m, ∀ y, y ∈ l → m ≤ y.
Proof.
  induction l as [|x l [m Hm]]; [exists 0; by intros y ?%elem_of_nil|].
  exists (Z.min x m). intros y [->|Hy]%elem_of_cons; [lia|].
  specialize (Hm y Hy). lia.
Qed.

Lemma list_upper_bound (l : list Z) : ∃ m, ∀ y, y ∈ l → y ≤ m.
Proof.
  induction l as [|x l [m Hm]]; [exists 0; by intros y ?%elem_of_nil|].
  exists (Z.max x m). intros y [->|Hy]%elem_of_cons; [lia|].
  specialize (Hm y Hy). lia.
Qed.

(** From a quota of the list, the consecutive quotas of the list extend
    to the left up to a first one. *)
Lemma run_to_the_left (l : list Z) (n : nat) : ∀ x,
  x ∈ l → (∀ y, y ∈ l → x - Z.of_nat n ≤ y) →
  ∃ s, s ≤ x ∧ (∀ y, s ≤ y ≤ x → y ∈ l) ∧ s - 1 ∉ l.
Proof.
  induction n as [|n IH]; intros x Hx Hbound.
  - exists x. split; [lia|]. split.
    + intros y Hy. by replace y with x by lia.
    + intros Hin. specialize (Hbound _ Hin). lia.
  - destruct (decide (x - 1 ∈ l)) as [Hin|Hout].
    + destruct (IH (x - 1) Hin) as (s & Hs & Hall & Hfirst).
      { intros y Hy. specialize (Hbound y Hy). lia. }
      exists s. split; [lia|]. split; [|done].
      intros y Hy. destruct (decide (y = x)) as [->|]; [done|]. apply Hall. lia.
    + exists x. split; [lia|]. split; [|done].
      intros y Hy. by replace y with x by lia.
Qed.

Lemma run_to_the_right (l : list Z) (n : nat) : ∀ x,
  x ∈ l → (∀ y, y ∈ l → y ≤ x + Z.of_nat n) →
  ∃ e, x ≤ e ∧ (∀ y, x ≤ y ≤ e → y ∈ l) ∧ e + 1 ∉ l.
Proof.
  induction n as [|n IH]; intros x Hx Hbound.
  - exists x. split; [lia|]. split.
    + intros y Hy. by replace y with x by lia.
    + intros Hin. specialize (Hbound _ Hin). lia.
  - destruct (decide (x + 1 ∈ l)) as [Hin|Hout].
    + destruct (IH (x + 1) Hin) as (e & He & Hall & Hlast).
      { intros y Hy. specialize (Hbound y Hy). lia. }
      exists e. split; [lia|]. split; [|done].
      intros y Hy. destruct (decide (y = x)) as [->|]; [done|]. apply Hall. lia.
    + exists x. split; [lia|]. split; [|done].
      intros y Hy. by replace y with x by lia.
Qed.

(** A quota of the list with a neighbour in the list is in a maximal
    run. *)
Lemma maximal_run_exists (l : list Z) (x : Z) :
  x ∈ l → x - 1 ∈ l ∨ x + 1 ∈ l →
  ∃ r, is_maximal_run l r ∧ x ∈ AnalisarSequencias.quotas r.
Proof.
  intros Hx Hnb.
  destruct (list_lower_bound l) as [lo Hlo].
  destruct (list_upper_bound l) as [hi Hhi].
  destruct (run_to_the_left l (Z.to_nat (x - lo)) x Hx) as (s & Hs & Hleft & Hfirst).
  { intros y Hy. specialize (Hlo y Hy). lia. }
  destruct (run_to_the_right l (Z.to_nat (hi - x)) x Hx) as (e & He & Hright & Hlast).
  { intros y Hy. specialize (Hhi y Hy). lia. }
  assert (s < e) as Hse.
  { destruct Hnb as [Hb|Ha].
    - destruct (decide (s = x)) as [->|]; [contradiction | lia].
    - destruct (decide (e = x)) as [->|]; [contradiction | lia]. }
  exists (AnalisarSequencias.make_sequence (Py.range s (s + (e - s + 1)))).
  rewrite make_sequence_range by lia. unfold is_maximal_run. simpl.
  replace (s + (e - s + 1) - 1 + 1) with (e + 1) by lia.
  replace (s + (e - s + 1)) with (e + 1) by lia.
  split; [|apply elem_of_range; lia].
  split; [lia|]. split; [done|]. split; [lia|]. split; [|done].
  intros y Hy%elem_of_range.
  destruct (decide (y ≤ x)); [apply Hleft | apply Hright]; lia.
Qed.

Section Stats.
Import AnalisarSequencias.
Variable quotas_list : list Z.

(** The quotas of the sequences, one sequence after the other in the
    order of their starts, are in ascending order. *)
Lemma runs_quotas_increasing (runs : list Sequence) :
  (∀ r, r ∈ runs → is_maximal_run quotas_list r) →
  StronglySorted (λ r1 r2, start r1 < start r2) runs →
  StronglySorted Z.lt (runs ≫= quotas).
Proof.
  intros Hruns Hsorted.
  assert (Forall (is_maximal_run quotas_list) runs) as Hall
    by (by apply Forall_forall).
  pose proof (StronglySorted_and_Forall _ _ _ _ Hsorted Hsorted Hall) as Hs.
  eapply (sorted_bind _ Z.lt); [exact Hs | |].
  - intros r Hr. destruct (Hruns r Hr) as (_ & -> & _). apply range_increasing.
  - intros r1 r2 a b (Hlt & _ & H1 & H2) Ha Hb.
    destruct (maximal_runs_apart _ _ _ H1 H2 ltac:(lia)) as [->|Hapart]; [lia|].
    destruct H1 as (_ & Hq1 & He1 & _). destruct H2 as (_ & Hq2 & _).
    rewrite Hq1 in Ha. rewrite Hq2 in Hb.
    apply elem_of_range in Ha, Hb. lia.
Qed.

Lemma sum_lengths (runs : list Sequence) :
  (∀ r, r ∈ runs → is_maximal_run quotas_list r) →
  Py.sum (length <$> runs) = Py.len (runs ≫= quotas).
Proof.
  intros Hruns. induction runs as [|r runs IH]; [done|].
  rewrite fmap_cons, sum_cons, bind_cons, IH by (intros; apply Hruns; by right).
  destruct (Hruns r ltac:(left)) as (Hn & Hq & _).
  unfold Py.len. rewrite length_app, Hq, length_range. lia.
Qed.

(** The sequences hold exactly the quotas that have a neighbour, each
    once. *)
Lemma sequences_quotas :
  find_consecutive_sequences quotas_list ≫= quotas ≡ₚ
  filter (has_neighbour (list_to_set quotas_list))
         (Py.sorted_set (list_to_set quotas_list)).
Proof.
  destruct (find_consecutive_sequences_sorted_runs quotas_list)
    as (runs & -> & Hruns & Hsorted).
  rewrite sort_Permutation.
  apply NoDup_Permutation.
  - apply increasing_NoDup, runs_quotas_increasing; [|done]. intros r. apply Hruns.
  - apply NoDup_filter. rewrite sorted_set_Permutation. apply NoDup_elements.
  - intros x. rewrite list_elem_of_bind, list_elem_of_filter, elem_of_sorted_set.
    unfold has_neighbour. rewrite !elem_of_list_to_set. split.
    + intros (r & Hx & (Hn & Hq & He & Hin & _)%Hruns).
      split; [|by apply Hin].
      rewrite Hq in Hx. apply elem_of_range in Hx.
      destruct (decide (x = start r)) as [->|].
      * right. apply Hin. rewrite Hq. apply elem_of_range. lia.
      * left. apply Hin. rewrite Hq. apply elem_of_range. lia.
    + intros [Hnb Hx].
      destruct (maximal_run_exists quotas_list x Hx Hnb) as (r & Hr & Hxr).
      exists r. split; [done|]. by apply Hruns.
Qed.

Lemma sequences_total :
  Py.sum (length <$> find_consecutive_sequences quotas_list) =
  Py.len (filter (has_neighbour (list_to_set quotas_list))
                 (Py.sorted_set (list_to_set quotas_list))).
Proof.
  rewrite sum_lengths by (intros r; apply find_consecutive_sequences_runs).
  unfold Py.len. by rewrite sequences_quotas.
Qed.

End Stats.

(** X12. When [analyze_consecutive_sequences] reaches its statistics, the
    total is the number of available or contemplated quotas, the quotas in
    sequences are those that have a neighbour among them, and the isolated
    quotas are those that have none: the three numbers are not negative and
    the first two are at most the total. *)
Theorem analyze_consecutive_sequences_statistics
    (data : AnalisarSequencias.GroupData) (total_in_sequences total_available
     isolated_quotas : Z) :
  AnalisarSequencias.analyze_consecutive_sequences data =
    Some (total_in_sequences, total_available, isolated_quotas) →
  total_available =
    Py.set_len (AnalisarSequencias.available data ∪ AnalisarSequencias.contemplated data) ∧
  total_in_sequences =
    Py.len (filter (has_neighbour (AnalisarSequencias.available data
                                   ∪ AnalisarSequencias.contemplated data))
                   (elements (AnalisarSequencias.available data
                              ∪ AnalisarSequencias.contemplated data))) ∧
  isolated_quotas =
    Py.len (filter (λ x, ¬ has_neighbour (AnalisarSequencias.available data
                                          ∪ AnalisarSequencias.contemplated data) x)
                   (elements (AnalisarSequencias.available data
                              ∪ AnalisarSequencias.contemplated data))) ∧
  2 ≤ total_in_sequences ≤ total_available ∧
  0 ≤ isolated_quotas.
Proof.
  unfold AnalisarSequencias.analyze_consecutive_sequences. cbv zeta.
  set (S := AnalisarSequencias.available data ∪ AnalisarSequencias.contemplated data).
  destruct (_ =? 0); [discriminate|].
  pose proof (sequences_total (elements S)) as Htotal.
  rewrite list_to_set_elements_L in Htotal.
  assert (Py.len (filter (has_neighbour S) (Py.sorted_set S)) =
          Py.len (filter (has_neighbour S) (elements S))) as Hperm.
  { unfold Py.len. by rewrite sorted_set_Permutation. }
  rewrite Hperm in Htotal. clear Hperm.
  assert (∀ r, r ∈ AnalisarSequencias.find_consecutive_sequences (elements S) →
               2 ≤ AnalisarSequencias.length r) as Hlong.
  { intros r Hr. by apply find_consecutive_sequences_runs in Hr as [? _]. }
  pose proof (filter_app_complement (has_neighbour S) (elements S)) as Hsplit.
  apply Permutation_length in Hsplit. rewrite length_app in Hsplit.
  revert Htotal Hlong.
  generalize (AnalisarSequencias.find_consecutive_sequences (elements S)).
  intros seqs Htotal Hlong. destruct seqs as [|r0 rs]; [discriminate|].
  intros [= <- <- <-].
  assert (∀ l : list AnalisarSequencias.Sequence,
            (∀ r, r ∈ l → 2 ≤ AnalisarSequencias.length r) →
            0 ≤ Py.sum (AnalisarSequencias.length <$> l)) as Hpos.
  { induction l as [|r l IH]; intros Hl; [done|].
    rewrite fmap_cons, sum_cons.
    pose proof (Hl r ltac:(left)).
    pose proof (IH ltac:(intros; apply Hl; by right)). lia. }
  pose proof (Hlong r0 ltac:(left)) as Hr0.
  pose proof (Hpos rs ltac:(intros; apply Hlong; by right)) as Hrs.
  rewrite fmap_cons, sum_cons in Htotal.
  change (list_fmap AnalisarSequencias.Sequence Z AnalisarSequencias.length rs)
    with (AnalisarSequencias.length <$> rs).
  split; [done|]. unfold Py.len in *. lia.
Qed.

Lemma analyze_consecutive_sequences_statistics_witness :
  5 = Py.set_len (AnalisarSequencias.available
                    (AnalisarSequencias.group_data 10 {[3; 4]} {[5; 8; 10]})
                  ∪ AnalisarSequencias.contemplated
                      (AnalisarSequencias.group_data 10 {[3; 4]} {[5; 8; 10]})) ∧
  2 ≤ 3 ≤ 5 ∧ 0 ≤ 2.
Proof.
  destruct (analyze_consecutive_sequences_statistics
              (AnalisarSequencias.group_data 10 {[3; 4]} {[5; 8; 10]}) 3 5 2)
    as (H1 & _ & _ & H4 & H5); [by vm_compute|].
  split; [exact H1|]. split; [exact H4 | exact H5].
Defined.

(** ** The highlighted sequences *)

Lemma filter_none {A} (P : A → Prop) `{∀ x, Decision (P x)} (l : list A) :
  (∀ x, x ∈ l → ¬ P x) → filter P l = [] ∧ filter (λ x, ¬ P x) l = l.
Proof.
  intros Hl. induction l as [|x l IH]; [done|].
  destruct IH as [IH1 IH2]; [intros y Hy; apply Hl; by right|].
  rewrite !filter_cons, IH1, IH2.
  pose proof (Hl x ltac:(left)).
  rewrite decide_False by done. by rewrite decide_True by done.
Qed.

(** In a sorted list, the elements that satisfy a property which goes up
    along the order form a prefix. *)
Lemma filter_prefix {A} (R : relation A) (P : A → Prop) `{∀ x, Decision (P x)}
    (l : list A) :
  StronglySorted R l →
  (∀ a b, a ∈ l → b ∈ l → R a b → P b → P a) →
  l = filter P l ++ filter (λ x, ¬ P x) l.
Proof.
  induction 1 as [|x l Hs IH Hall]; intros Hup; [done|].
  rewrite Forall_forall in Hall. rewrite !filter_cons.
  destruct (decide (P x)) as [HP|HP].
  - rewrite decide_False by (by intros Hn). simpl. f_equal.
    apply IH. intros a b Ha Hb. apply Hup; by right.
  - rewrite decide_True by done.
    destruct (filter_none P l) as [-> ->]; [|done].
    intros y Hy HPy. apply HP.
    apply (Hup x y); [left | by right | by apply Hall | done].
Qed.

Lemma int_sort_descending (l : list Z) :
  NoDup l → StronglySorted (λ a b : Z, b < a) (Py.sort (λ x, x) Z.ltb true l).
Proof.
  intros Hnd.
  pose proof (sort_descending_stable (λ x : Z, x) (λ _ _, True) l) as Hs.
  assert (StronglySorted (λ _ _ : Z, True) l) as Htriv.
  { clear. induction l; constructor; [done | by apply Forall_forall]. }
  specialize (Hs Htriv).
  apply (sorted_distinct _ (λ x : Z, x)) in Hs.
  - revert Hs. apply StronglySorted_mono. intros a b [Hab Hne]. lia.
  - rewrite list_fmap_id. by rewrite sort_Permutation.
Qed.

Lemma all_sequences_descending (data : VisualizarGrupoSimples.GroupData) :
  StronglySorted
    (λ a b, AnalisarSequencias.length b ≤ AnalisarSequencias.length a)
    (all_sequences data).
Proof.
  unfold all_sequences.
  change VisualizarGrupoSimples.find_consecutive_sequences
    with AnalisarSequencias.find_consecutive_sequences.
  destruct (find_consecutive_sequences_sorted_runs
              (elements (VisualizarGrupoSimples.available data
                         ∪ VisualizarGrupoSimples.contemplated data)))
    as (runs & -> & _ & _).
  pose proof (sort_pairs_sorted
      (λ s, (- AnalisarSequencias.length s, AnalisarSequencias.start s))
      false runs) as Hs.
  revert Hs. apply StronglySorted_mono. intros a b Hle.
  unfold key_le in Hle. apply lt_pair_false in Hle. simpl in Hle. lia.
Qed.

Section TopSequences.
Variable data : VisualizarGrupoSimples.GroupData.

(** The three largest lengths, as [visualizar_simples] computes them. *)
Let unique_lengths : list Z :=
  take 3 (Py.sort (λ x, x) Z.ltb true (elements (lengths_of (all_sequences data)))).

Lemma top_sequences_filter :
  VisualizarGrupoSimples.active data ∩ VisualizarGrupoSimples.available data ≠ ∅ →
  VisualizarGrupoSimples.top_sequences data true =
  filter (λ s, AnalisarSequencias.length s ∈ unique_lengths) (all_sequences data).
Proof.
  intros Hne. unfold VisualizarGrupoSimples.top_sequences. cbv zeta.
  assert ((Py.set_len (VisualizarGrupoSimples.active data
                       ∩ VisualizarGrupoSimples.available data) =? 0) = false) as ->.
  { apply Z.eqb_neq. unfold Py.set_len.
    intros H0. apply Hne. apply leibniz_equiv, size_empty_iff. lia. }
  simpl. fold (all_sequences data).
  destruct (all_sequences data) as [|s0 l] eqn:E; [done|]. done.
Qed.

Lemma unique_lengths_spec :
  StronglySorted (λ a b : Z, b < a)
    (Py.sort (λ x, x) Z.ltb true (elements (lengths_of (all_sequences data)))) ∧
  ∀ x, x ∈ Py.sort (λ x, x) Z.ltb true (elements (lengths_of (all_sequences data))) ↔
       ∃ s, s ∈ all_sequences data ∧ AnalisarSequencias.length s = x.
Proof.
  split; [apply int_sort_descending, NoDup_elements|].
  intros x. rewrite elem_of_sort, elem_of_elements. unfold lengths_of.
  rewrite elem_of_list_to_set, list_elem_of_fmap.
  split; [intros (s & -> & Hs) | intros (s & Hs & <-)]; eauto.
Qed.

End TopSequences.

(** X13. With highlighting on and an available active quota, the
    highlighted sequences are a prefix of the sorted list of sequences: every
    sequence left out is shorter than every highlighted one, and the
    highlighted ones have at most three different lengths, exactly three when
    a sequence is left out. Without highlighting, or without available active
    quota, nothing is highlighted. *)
Theorem top_sequences_prefix (data : VisualizarGrupoSimples.GroupData) :
  (VisualizarGrupoSimples.active data ∩ VisualizarGrupoSimples.available data ≠ ∅ →
   ∃ rest,
     all_sequences data = VisualizarGrupoSimples.top_sequences data true ++ rest ∧
     (∀ t r, t ∈ VisualizarGrupoSimples.top_sequences data true → r ∈ rest →
             AnalisarSequencias.length r < AnalisarSequencias.length t) ∧
     (size (lengths_of (VisualizarGrupoSimples.top_sequences data true)) ≤ 3)%nat ∧
     (rest ≠ [] →
      size (lengths_of (VisualizarGrupoSimples.top_sequences data true)) = 3%nat)) ∧
  VisualizarGrupoSimples.top_sequences data false = [] ∧
  (VisualizarGrupoSimples.active data ∩ VisualizarGrupoSimples.available data = ∅ →
   VisualizarGrupoSimples.top_sequences data true = []).
Proof.
  split; [|split].
  - intros Hne. rewrite (top_sequences_filter data Hne).
    destruct (unique_lengths_spec data) as [Hdesc Hmem].
    set (D := Py.sort (λ x : Z, x) Z.ltb true
                (elements (lengths_of (all_sequences data)))) in *.
    set (U := take 3 D).
    set (P := λ s, AnalisarSequencias.length s ∈ U).
    assert (StronglySorted (λ a b : Z, b < a) (U ++ drop 3 D)) as Hsplit
      by (unfold U; by rewrite take_drop).
    apply StronglySorted_app in Hsplit as (Hud & HU & _).
    assert (∀ x, x ∈ D → x ∉ U → x ∈ drop 3 D) as Hdrop.
    { intros x Hx Hn. rewrite <- (take_drop 3 D) in Hx.
      apply elem_of_app in Hx as [?|?]; [contradiction | done]. }
    assert (∀ s, s ∈ all_sequences data → AnalisarSequencias.length s ∈ D) as HD
      by (intros s Hs; apply Hmem; eauto).
    exists (filter (λ s, ¬ P s) (all_sequences data)). split; [|split; [|split]].
    + apply (filter_prefix _ P _ (all_sequences_descending data)).
      intros a b Ha Hb Hle HPb. unfold P in *.
      destruct (decide (AnalisarSequencias.length a ∈ U)) as [|Hn]; [done|].
      pose proof (Hud _ _ HPb (Hdrop _ (HD a Ha) Hn)). lia.
    + intros t r [Ht _]%list_elem_of_filter [Hr Hrin]%list_elem_of_filter.
      apply (Hud _ _ Ht). apply Hdrop; [by apply HD | done].
    + assert (lengths_of (filter P (all_sequences data)) ⊆ list_to_set U) as Hsub.
      { intros x. unfold lengths_of.
        rewrite !elem_of_list_to_set, list_elem_of_fmap.
        intros (t & -> & [Ht _]%list_elem_of_filter). done. }
      apply subseteq_size in Hsub.
      assert (NoDup U) as HndU.
      { apply (NoDup_fmap_1 Z.opp). apply increasing_NoDup.
        eapply StronglySorted_fmap; [|exact HU]. simpl. intros; lia. }
      rewrite (size_list_to_set U HndU) in Hsub.
      unfold U in Hsub at 2. rewrite length_take in Hsub. lia.
    + intros Hrest.
      assert (lengths_of (filter P (all_sequences data)) = list_to_set U) as ->.
      { apply set_eq. intros x. unfold lengths_of.
        rewrite !elem_of_list_to_set, list_elem_of_fmap. split.
        - intros (t & -> & [Ht _]%list_elem_of_filter). done.
        - intros Hx. assert (x ∈ D) as HxD by (by apply (subseteq_take 3)).
          apply Hmem in HxD as (s & Hs & <-).
          exists s. split; [done|]. by apply list_elem_of_filter. }
      assert (NoDup U) as HndU.
      { apply (NoDup_fmap_1 Z.opp). apply increasing_NoDup.
        eapply StronglySorted_fmap; [|exact HU]. simpl. intros; lia. }
      rewrite (size_list_to_set U HndU).
      destruct (filter (λ s, ¬ P s) (all_sequences data)) as [|r rest] eqn:Er;
        [done|].
      assert (r ∈ filter (λ s, ¬ P s) (all_sequences data)) as Hr
        by (rewrite Er; left).
      apply list_elem_of_filter in Hr as [Hnr Hr].
      pose proof (Hdrop _ (HD r Hr) Hnr) as Hin.
      assert (3 < length D)%nat.
      { destruct (decide (3 < length D)%nat) as [|Hshort]; [done|].
        rewrite drop_ge in Hin by lia. by apply elem_of_nil in Hin. }
      unfold U. rewrite length_take. lia.
  - done.
  - intros Hemp. unfold VisualizarGrupoSimples.top_sequences. cbv zeta.
    by rewrite Hemp.
Qed.

Example top_sequences_example :
  (λ r, (AnalisarSequencias.start r, AnalisarSequencias.end_ r))
    <$> VisualizarGrupoSimples.top_sequences
          (VisualizarGrupoSimples.group_data 40 {[1; 2; 3; 4; 7; 8]}
             {[10; 11; 12; 20; 21; 30; 31; 32; 33; 34]} ∅) true
  = [(30, 34); (1, 4); (10, 12)].
Proof. by vm_compute. Qed.

(** ** More on the edge opportunities *)

Lemma sorted_irrefl_NoDup {A} (R : relation A) (l : list A) :
  (∀ x, ¬ R x x) → StronglySorted R l → NoDup l.
Proof.
  intros Hirr. induction 1 as [|x l Hs IH Hall]; constructor; [|done].
  intros Hx. rewrite Forall_forall in Hall. exact (Hirr x (Hall x Hx)).
Qed.

Lemma leb_true_numbers (x y : float) :
  PrimFloat.leb x y = true → is_number x ∧ is_number y.
Proof.
  rewrite FloatAxioms.leb_spec. unfold SFleb. intros H.
  split; apply not_nan_is_number; intros Hnan; rewrite Hnan in H.
  - done.
  - by destruct (Prim2SF x) as [[]|[]| |[]].
Qed.

Section PontasSorted.
Import AnalisarPontas.
Variables (data : GroupData).

Lemma opportunities_NoDup (min_length : Z) (pct : float) :
  NoDup (find_edge_opportunities data min_length pct).
Proof.
  unfold find_edge_opportunities. cbv zeta. rewrite sort_Permutation.
  apply (sorted_irrefl_NoDup enumerated_before); [|apply generate_sorted].
  intros x. unfold enumerated_before. lia.
Qed.

Lemma opportunities_sorted (min_length : Z) (pct : float) :
  StronglySorted opportunity_before (find_edge_opportunities data min_length pct).
Proof.
  unfold find_edge_opportunities. cbv zeta.
  set (generated := generate data min_length pct).
  set (ok := λ r, is_number (score r)).
  assert (Forall ok generated) as Hgen by apply generate_numbers.
  assert (Forall ok (Py.sort score PrimFloat.ltb true generated))
    as Hres by (by rewrite sort_Permutation).
  pose proof (sort_descending score PrimFloat.ltb ok
                score_lt_asym score_le_trans generated Hgen) as Hdesc.
  assert (StronglySorted
            (λ a b, key_equiv score PrimFloat.ltb a b → enumerated_before a b)
            (Py.sort score PrimFloat.ltb true generated)) as Hstable.
  { rewrite Forall_forall in Hres.
    apply (stable_sorted (key_equiv score PrimFloat.ltb) enumerated_before).
    - intros x Hx. apply score_equiv_eqb; [by apply Hres..|].
      apply eqb_rank; [by apply Hres..|]. done.
    - intros x0 Hx0.
      rewrite (sort_stable score PrimFloat.ltb ok score_le_trans true x0 generated);
        [| by apply Hres | done].
      apply StronglySorted_filter, generate_sorted. }
  pose proof (StronglySorted_and_Forall _ _ ok _ Hdesc Hstable Hres) as Hall.
  revert Hall. apply StronglySorted_mono.
  intros r1 r2 (Hle & Heq & H1 & H2). done.
Qed.

(** Two calls whose results have the same records up to a filter return
    them in the same order. *)
Lemma opportunities_filter (ml1 ml2 : Z) (p1 p2 : float)
    (P : Opportunity → Prop) `{∀ r, Decision (P r)} :
  (∀ r, r ∈ find_edge_opportunities data ml2 p2 ↔
        r ∈ find_edge_opportunities data ml1 p1 ∧ P r) →
  find_edge_opportunities data ml2 p2 =
  filter P (find_edge_opportunities data ml1 p1).
Proof.
  intros Hmem.
  apply (StronglySorted_unique_strong opportunity_before).
  - intros r1 r2 _ _ (_ & _ & Hle1 & He1) (_ & _ & Hle2 & He2).
    assert (enumerated_before r1 r2) as Hb1 by (by apply He1).
    assert (enumerated_before r2 r1) as Hb2 by (by apply He2).
    unfold enumerated_before in *. lia.
  - apply opportunities_sorted.
  - apply StronglySorted_filter, opportunities_sorted.
  - apply NoDup_Permutation.
    + apply opportunities_NoDup.
    + apply NoDup_filter, opportunities_NoDup.
    + intros r. rewrite Hmem, list_elem_of_filter. tauto.
Qed.

End PontasSorted.

(** X14. A call with a larger minimal length and a larger threshold
    returns the list of the call with the smaller ones without the records
    that are too short or not occupied enough, the others in the same
    order. *)
Theorem find_edge_opportunities_tighten
    (data : AnalisarPontas.GroupData) (ml1 ml2 : Z) (p1 p2 : float) :
  ml1 ≤ ml2 → PrimFloat.leb p1 p2 = true →
  AnalisarPontas.find_edge_opportunities data ml2 p2 =
  filter (λ r, ml2 ≤ AnalisarPontas.length r ∧
               PrimFloat.ltb (AnalisarPontas.occupied_pct r) p2 = false)
         (AnalisarPontas.find_edge_opportunities data ml1 p1).
Proof.
  intros Hml Hp. apply opportunities_filter. intros r.
  rewrite !find_edge_opportunities_spec.
  destruct (leb_true_numbers _ _ Hp) as [Hn1 Hn2].
  split.
  - intros (s & l & He & Hi & Hs & Hend & Hfrac & ->). split; [|split].
    + exists s, l. split; [unfold enumerated in *; lia|].
      repeat (split; [done|]). split; [|done].
      destruct (opportunity_numbers data s l) as [Hnum _];
        [by eapply enumerated_length|].
      revert Hfrac Hp.
      rewrite <- !not_true_iff_false, leb_rank, !ltb_rank by done.
      unfold rank_lt. lia.
    + simpl. unfold enumerated in He. lia.
    + done.
  - intros [(s & l & He & Hi & Hs & Hend & Hfrac & ->) [Hlen Hpct]].
    simpl in Hlen, Hpct. exists s, l.
    split; [unfold enumerated in *; lia|]. done.
Qed.

Lemma find_edge_opportunities_tighten_witness :
  AnalisarPontas.find_edge_opportunities example_partial 5 1%float =
  filter (λ r, 5 ≤ AnalisarPontas.length r ∧
               PrimFloat.ltb (AnalisarPontas.occupied_pct r) 1%float = false)
         (AnalisarPontas.find_edge_opportunities example_partial 3 0.5%float).
Proof.
  apply (find_edge_opportunities_tighten example_partial 3 5 0.5%float 1%float).
  - lia.
  - reflexivity.
Defined.

Section PontasRecords.
Import AnalisarPontas.
Variables (total : Z) (contemplated available : gset Z).

Lemma group_data_occupied (q : Z) :
  q ∈ occupied (group_data total contemplated available) ↔
  q ∈ contemplated ∨ (1 ≤ q ≤ total ∧ q ∉ available).
Proof.
  simpl. rewrite elem_of_union, !elem_of_difference, elem_of_list_to_set,
    elem_of_range.
  destruct (decide (q ∈ contemplated)); [tauto|].
  split; [intros [?|[[? ?] ?]]; [tauto|right; split; [lia|done]]
         | intros [?|[? ?]]; [tauto|right; repeat split; [lia|lia|done..]]].
Qed.

End PontasRecords.

Lemma elem_of_interior (start length q : Z) :
  q ∈ interior start length ↔ start < q < start + length - 1.
Proof. unfold interior. rewrite elem_of_list_to_set, elem_of_range. lia. Qed.

Lemma size_inter_bound (s t : gset Z) : (size (s ∩ t) ≤ size s)%nat.
Proof. apply subseteq_size, intersection_subseteq_l. Qed.

Lemma size_cover (s t u : gset Z) :
  s ⊆ t ∪ u → (size s ≤ size (s ∩ t) + size (s ∩ u))%nat.
Proof.
  intros Hsub.
  assert (s ⊆ (s ∩ t) ∪ (s ∩ u)) as H.
  { intros q Hq. specialize (Hsub q Hq).
    rewrite elem_of_union in Hsub. rewrite elem_of_union, !elem_of_intersection.
    tauto. }
  apply subseteq_size in H.
  pose proof (size_union_alt (s ∩ t) (s ∩ u)) as Hun.
  pose proof (subseteq_size ((s ∩ u) ∖ (s ∩ t)) (s ∩ u)
                ltac:(apply subseteq_difference_l; done)).
  lia.
Qed.

Lemma size_partition (s t u : gset Z) :
  s ⊆ t ∪ u → s ∩ t ∩ u = ∅ → size s = (size (s ∩ t) + size (s ∩ u))%nat.
Proof.
  intros Hsub Hdisj.
  assert (s = (s ∩ t) ∪ (s ∩ u)) as H.
  { apply set_eq. intros q. specialize (Hsub q).
    rewrite elem_of_union in Hsub. rewrite elem_of_union, !elem_of_intersection.
    tauto. }
  rewrite H at 1. apply size_union.
  intros q Ht Hu. apply elem_of_intersection in Ht as [Hs Ht].
  apply elem_of_intersection in Hu as [_ Hu].
  apply (not_elem_of_empty (C := gset Z) q). rewrite <- Hdisj.
  rewrite !elem_of_intersection. done.
Qed.

(** X15. Every record that [find_edge_opportunities] returns for the
    data of [load_group_data] describes an interval inside [1 .. total] of 3
    to 50 quotas, at least [min_length], whose two ends are available; its
    middle has [length - 2] quotas, each counted as occupied (contemplated or
    not available) or as available, and exactly once when no contemplated
    quota is listed as available; the two lists are ascending and hold what
    the counts count. *)
Theorem find_edge_opportunities_records
    (total : Z) (contemplated available : gset Z) (min_length : Z) (pct : float) :
  Forall
    (λ r,
       (AnalisarPontas.end_ r = AnalisarPontas.start r + AnalisarPontas.length r - 1 ∧
        1 ≤ AnalisarPontas.start r ∧ AnalisarPontas.end_ r ≤ total ∧
        Z.max 3 min_length ≤ AnalisarPontas.length r ≤ 50 ∧
        AnalisarPontas.start r ∈ available ∧ AnalisarPontas.end_ r ∈ available) ∧
       (AnalisarPontas.middle_total r = AnalisarPontas.length r - 2 ∧
        0 ≤ AnalisarPontas.middle_occupied r ≤ AnalisarPontas.middle_total r ∧
        0 ≤ AnalisarPontas.middle_available r ≤ AnalisarPontas.middle_total r ∧
        AnalisarPontas.middle_total r ≤
          AnalisarPontas.middle_occupied r + AnalisarPontas.middle_available r ∧
        (contemplated ∩ available = ∅ →
         AnalisarPontas.middle_occupied r + AnalisarPontas.middle_available r =
         AnalisarPontas.middle_total r)) ∧
       (StronglySorted Z.lt (AnalisarPontas.middle_occupied_list r) ∧
        StronglySorted Z.lt (AnalisarPontas.middle_available_list r) ∧
        Py.len (AnalisarPontas.middle_occupied_list r) = AnalisarPontas.middle_occupied r ∧
        Py.len (AnalisarPontas.middle_available_list r) = AnalisarPontas.middle_available r ∧
        (∀ q, q ∈ AnalisarPontas.middle_occupied_list r ↔
              AnalisarPontas.start r < q < AnalisarPontas.end_ r ∧
              (q ∈ contemplated ∨ q ∉ available)) ∧
        (∀ q, q ∈ AnalisarPontas.middle_available_list r ↔
              AnalisarPontas.start r < q < AnalisarPontas.end_ r ∧ q ∈ available)))
    (AnalisarPontas.find_edge_opportunities
       (AnalisarPontas.group_data total contemplated available) min_length pct).
Proof.
  apply Forall_forall. intros r Hr.
  apply find_edge_opportunities_spec in Hr
    as (s & l & He & Hi & Hs & Hend & _ & ->).
  pose proof (enumerated_length _ _ _ _ He Hi) as Hl.
  unfold enumerated in He. simpl in He, Hs, Hend.
  set (data := AnalisarPontas.group_data total contemplated available).
  set (I := interior s l).
  pose proof (interior_size s l) as Hsz. fold I in Hsz.
  pose proof (size_inter_bound I (AnalisarPontas.occupied data)) as Hbo.
  pose proof (size_inter_bound I (AnalisarPontas.available data)) as Hba.
  assert (I ⊆ AnalisarPontas.occupied data ∪ AnalisarPontas.available data) as Hcov.
  { intros q Hq. apply elem_of_interior in Hq. apply elem_of_union.
    destruct (decide (q ∈ available)) as [|Hn]; [by right|left].
    apply group_data_occupied. right. split; [lia|done]. }
  pose proof (size_cover _ _ _ Hcov) as Hsum.
  subst data. split; [|split].
  - simpl. repeat split; (done || lia).
  - unfold opportunity_record;
      cbn [AnalisarPontas.start AnalisarPontas.end_ AnalisarPontas.length
           AnalisarPontas.middle_occupied AnalisarPontas.middle_available
           AnalisarPontas.middle_total AnalisarPontas.middle_occupied_list
           AnalisarPontas.middle_available_list].
    fold I. unfold Py.set_len in *.
    split; [lia|]. split; [lia|]. split; [lia|]. split; [lia|].
    intros Hdisj. symmetry.
    rewrite (size_partition _ _ _ Hcov); [lia|].
    apply set_eq. intros q. rewrite !elem_of_intersection, group_data_occupied.
    split; [|by intros ?%elem_of_empty].
    intros [[Hq [Hc|[_ Hn]]] Ha]; [|done].
    exfalso. apply (not_elem_of_empty (C := gset Z) q).
    rewrite <- Hdisj. by apply elem_of_intersection.
  - unfold opportunity_record;
      cbn [AnalisarPontas.start AnalisarPontas.end_ AnalisarPontas.length
           AnalisarPontas.middle_occupied AnalisarPontas.middle_available
           AnalisarPontas.middle_total AnalisarPontas.middle_occupied_list
           AnalisarPontas.middle_available_list].
    fold I.
    split; [apply sorted_set_increasing|]. split; [apply sorted_set_increasing|].
    unfold Py.len, Py.set_len. rewrite !length_sorted_set.
    split; [done|]. split; [done|]. split.
    + intros q. rewrite elem_of_sorted_set, elem_of_intersection.
      unfold I. rewrite elem_of_interior, group_data_occupied.
      split; [intros [? [?|[? ?]]]; (split; [lia|tauto])|].
      intros [? [?|?]]; (split; [lia|]); [by left|right; split; [lia|done]].
    + intros q. rewrite elem_of_sorted_set, elem_of_intersection.
      unfold I. rewrite elem_of_interior.
      split; intros [? ?]; (split; [lia|done]).
Qed.

Lemma threshold_table (b a : Z) :
  1 ≤ b ≤ 48 → 0 ≤ a ≤ b → threshold_ok b a = true.
Proof.
  intros Hb Ha.
  assert (forallb (λ b, forallb (threshold_ok b) (Py.range 0 (b + 1)))
                  (Py.range 1 49) = true) as Htable by (by vm_compute).
  rewrite forallb_forall in Htable.
  specialize (Htable b). rewrite forallb_forall in Htable.
  apply Htable; apply list_elem_of_In, elem_of_range; lia.
Qed.

(** X16. With the threshold 1.0 every returned record has its whole
    middle occupied, and with the default threshold 0.5 at least half of it;
    an enumerated interval with available ends and such a middle is
    returned. *)
Theorem find_edge_opportunities_thresholds
    (data : AnalisarPontas.GroupData) (min_length : Z) (r : AnalisarPontas.Opportunity) :
  (r ∈ AnalisarPontas.find_edge_opportunities data min_length 1%float ↔
   ∃ start length,
     enumerated data min_length start length ∧ 3 ≤ length ∧
     start ∈ AnalisarPontas.available data ∧
     start + length - 1 ∈ AnalisarPontas.available data ∧
     interior start length ⊆ AnalisarPontas.occupied data ∧
     r = opportunity_record data start length) ∧
  (r ∈ AnalisarPontas.find_edge_opportunities data min_length 0.5%float ↔
   ∃ start length,
     enumerated data min_length start length ∧ 3 ≤ length ∧
     start ∈ AnalisarPontas.available data ∧
     start + length - 1 ∈ AnalisarPontas.available data ∧
     length - 2 ≤ 2 * Py.set_len (interior start length ∩ AnalisarPontas.occupied data) ∧
     r = opportunity_record data start length).
Proof.
  assert (∀ s l, enumerated data min_length s l → 3 ≤ l →
            (PrimFloat.ltb (occupied_fraction data s l) 1%float = false ↔
             interior s l ⊆ AnalisarPontas.occupied data) ∧
            (PrimFloat.ltb (occupied_fraction data s l) 0.5%float = false ↔
             l - 2 ≤ 2 * Py.set_len (interior s l ∩ AnalisarPontas.occupied data)))
    as Hcmp.
  { intros s l He Hl3.
    assert (3 ≤ l ≤ 50) as Hl by (unfold enumerated in He; lia).
    destruct (occupied_fraction_ok data s l Hl) as [_ ->].
    pose proof (interior_size s l) as Hsz.
    pose proof (size_inter_bound (interior s l) (AnalisarPontas.occupied data)) as Hb.
    unfold Py.set_len in *.
    assert (0 ≤ Z.of_nat (size (interior s l ∩ AnalisarPontas.occupied data))
            ≤ l - 2) as Hrange. { lia. }
    pose proof (threshold_table (l - 2) _ ltac:(lia) Hrange) as Ht.
    unfold threshold_ok in Ht. apply andb_true_iff in Ht as [H1 H2].
    apply Bool.eqb_prop in H1, H2. rewrite H1, H2, !Z.ltb_ge.
    split; [|lia]. split.
    - intros Hge.
      assert (interior s l ∩ AnalisarPontas.occupied data = interior s l) as Heq
        by (apply set_subseteq_size_eq; [apply intersection_subseteq_l | lia]).
      intros q Hq. rewrite <- Heq in Hq. by apply elem_of_intersection in Hq as [_ ?].
    - intros Hsub. apply subseteq_intersection_1_L in Hsub. rewrite Hsub. lia. }
  split; rewrite find_edge_opportunities_spec; split.
  - intros (s & l & He & Hi & Hs & Hend & Hfrac & ->). exists s, l.
    pose proof (proj1 (interior_nonempty s l) Hi) as Hl3.
    repeat (split; [done|]). split; [|done]. by apply (Hcmp s l He Hl3).
  - intros (s & l & He & Hl3 & Hs & Hend & Hsub & ->). exists s, l.
    split; [done|]. split; [by apply interior_nonempty|].
    repeat (split; [done|]). split; [|done]. by apply (Hcmp s l He Hl3).
  - intros (s & l & He & Hi & Hs & Hend & Hfrac & ->). exists s, l.
    pose proof (proj1 (interior_nonempty s l) Hi) as Hl3.
    repeat (split; [done|]). split; [|done]. by apply (Hcmp s l He Hl3).
  - intros (s & l & He & Hl3 & Hs & Hend & Hsub & ->). exists s, l.
    split; [done|]. split; [by apply interior_nonempty|].
    repeat (split; [done|]). split; [|done]. by apply (Hcmp s l He Hl3).
Qed.

(** ** What is displayed for the sequences and in the matrix *)

Lemma filter_cover_length {A} (P Q : A → Prop)
    `{∀ x, Decision (P x)} `{∀ x, Decision (Q x)} (l : list A) :
  (∀ x, x ∈ l → P x ∨ Q x) →
  (length l ≤ length (filter P l) + length (filter Q l))%nat ∧
  ((∀ x, x ∈ l → ¬ (P x ∧ Q x)) →
   length l = (length (filter P l) + length (filter Q l))%nat).
Proof.
  induction l as [|x l IH]; intros Hcov; [done|].
  destruct IH as [IH1 IH2]; [intros y Hy; apply Hcov; by right|].
  pose proof (Hcov x ltac:(left)) as Hx.
  rewrite !filter_cons. split.
  - destruct (decide (P x)), (decide (Q x)); simpl; (lia || tauto).
  - intros Hdisj. pose proof (Hdisj x ltac:(left)) as Hnx.
    specialize (IH2 ltac:(intros y Hy; apply Hdisj; by right)).
    destruct (decide (P x)), (decide (Q x)); simpl; (lia || tauto).
Qed.

(** X17. For every sequence found among the available and the
    contemplated quotas, the count of its available quotas and the count of
    its contemplated quotas are each at most its length, together at least
    its length, and together exactly its length when no quota is both
    available and contemplated. *)
Theorem sequence_counts_cover (data : AnalisarSequencias.GroupData) :
  Forall
    (λ seq,
       2 ≤ AnalisarSequencias.length seq ∧
       0 ≤ (AnalisarSequencias.sequence_counts data seq).1
         ≤ AnalisarSequencias.length seq ∧
       0 ≤ (AnalisarSequencias.sequence_counts data seq).2
         ≤ AnalisarSequencias.length seq ∧
       AnalisarSequencias.length seq ≤
         (AnalisarSequencias.sequence_counts data seq).1 +
         (AnalisarSequencias.sequence_counts data seq).2 ∧
       (AnalisarSequencias.available data ∩ AnalisarSequencias.contemplated data = ∅ →
        (AnalisarSequencias.sequence_counts data seq).1 +
        (AnalisarSequencias.sequence_counts data seq).2 =
        AnalisarSequencias.length seq))
    (AnalisarSequencias.find_consecutive_sequences
       (elements (AnalisarSequencias.available data
                  ∪ AnalisarSequencias.contemplated data))).
Proof.
  apply Forall_forall. intros seq Hseq.
  apply find_consecutive_sequences_runs in Hseq as (Hn & Hq & _ & Hin & _).
  assert (Py.len (AnalisarSequencias.quotas seq) = AnalisarSequencias.length seq)
    as Hlen by (unfold Py.len; rewrite Hq, length_range; lia).
  unfold AnalisarSequencias.sequence_counts. cbv zeta. simpl.
  set (P := λ q, q ∈ AnalisarSequencias.available data).
  set (Q := λ q, q ∈ AnalisarSequencias.contemplated data).
  pose proof (length_filter P (AnalisarSequencias.quotas seq)) as HP.
  pose proof (length_filter Q (AnalisarSequencias.quotas seq)) as HQ.
  destruct (filter_cover_length P Q (AnalisarSequencias.quotas seq)) as [Hge Heq].
  { intros x Hx. apply Hin, elem_of_elements, elem_of_union in Hx. done. }
  unfold Py.len in *.
  split; [done|]. split; [lia|]. split; [lia|]. split; [lia|].
  intros Hdisj. rewrite <- Hlen, Heq; [lia|].
  intros x _ [Ha Hc]. apply (not_elem_of_empty (C := gset Z) x).
  rewrite <- Hdisj. by apply elem_of_intersection.
Qed.

(** X18. For the data of [load_group_data], the cell of a quota of the
    group never gets the value 0: it gets 4 when the quota has a bid of 25%,
    else 1 when it is contemplated, else 2 when it is available, else 3. A
    number outside the group that is in none of the loaded sets would get
    0. *)
Theorem cell_value_status
    (total : Z) (contemplated available lance_25 : gset Z) (quota : Z) :
  (1 ≤ quota ≤ total →
   VisualizarGrupoSimples.cell_value
     (VisualizarGrupoSimples.group_data total contemplated available lance_25) quota =
   if decide (quota ∈ lance_25) then 4
   else if decide (quota ∈ contemplated) then 1
   else if decide (quota ∈ available) then 2
   else 3) ∧
  (¬ 1 ≤ quota ≤ total → quota ∉ lance_25 → quota ∉ contemplated →
   VisualizarGrupoSimples.cell_value
     (VisualizarGrupoSimples.group_data total contemplated available lance_25) quota = 0).
Proof.
  unfold VisualizarGrupoSimples.cell_value. cbv zeta. simpl.
  assert (quota ∈ (list_to_set (Py.range 1 (total + 1)) : gset Z) ↔ 1 ≤ quota ≤ total)
    as Hall by (rewrite elem_of_list_to_set, elem_of_range; lia).
  split.
  - intros Hq.
    destruct (decide (quota ∈ lance_25)) as [Hl|Hl];
      [by rewrite bool_decide_eq_true_2 | rewrite bool_decide_eq_false_2 by done].
    destruct (decide (quota ∈ contemplated)) as [Hc|Hc];
      [by rewrite bool_decide_eq_true_2 | rewrite bool_decide_eq_false_2 by done].
    assert (quota ∈ (list_to_set (Py.range 1 (total + 1)) : gset Z) ∖ contemplated)
      as Hact by (apply elem_of_difference; split; [by apply Hall | done]).
    destruct (decide (quota ∈ available)) as [Ha|Ha].
    + rewrite bool_decide_eq_true_2; [done|]. by apply elem_of_intersection.
    + rewrite bool_decide_eq_false_2
        by (intros [_ ?]%elem_of_intersection; done).
      by rewrite bool_decide_eq_true_2.
  - intros Hq Hl Hc.
    rewrite !bool_decide_eq_false_2; [done | | | done | done].
    + intros [? _]%elem_of_difference. by apply Hq, Hall.
    + intros [[? _]%elem_of_difference _]%elem_of_intersection. by apply Hq, Hall.
Qed.

Lemma shape_table (total : Z) : 1 ≤ total ≤ 10000 → shape_ok total = true.
Proof.
  intros Ht.
  assert (forallb shape_ok (Py.range 1 10001) = true) as Htable by (by vm_compute).
  rewrite forallb_forall in Htable.
  apply Htable, list_elem_of_In, elem_of_range. lia.
Qed.

(** The float of a machine integer is not negative. *)
Lemma of_uint63_sign (n : PrimInt63.int) :
  match Prim2SF (PrimFloat.of_uint63 n) with
  | S754_zero s | S754_infinity s | S754_finite s _ _ => s = false
  | S754_nan => True
  end.
Proof.
  rewrite FloatAxioms.of_uint63_spec. unfold binary_normalize.
  pose proof (Uint63.to_Z_bounded n) as Hb.
  destruct (Uint63.to_Z n) as [|p|p]; [done | | lia].
  unfold binary_round. destruct (shl_align _ _ _) as [mz ez].
  unfold binary_round_aux.
  destruct (shr_fexp _ _ _ _ _) as [mrs' e'].
  destruct (shr_fexp _ _ _ _ _) as [mrs'' e''].
  destruct (shr_m mrs''); [done | | done].
  by destruct (_ <=? _).
Qed.

(** The square root of a negative integer, when it does not raise, is not
    a number, or is a zero when the float of the integer is one. *)
Lemma sqrt_negative (n : Z) (root : float) :
  n < 0 → Np.sqrt n = Some root →
  Np.ceil_int root = None ∨ Np.ceil_int root = Some 0.
Proof.
  intros Hn. unfold Np.sqrt.
  destruct ((- 2 ^ 63 <=? n) && (n <? 2 ^ 64)) eqn:Hrange; [|done].
  intros [= <-]. apply andb_true_iff in Hrange as [Hlo _]. apply Z.leb_le in Hlo.
  destruct (decide (n = - 2 ^ 63)) as [->|Hmin]; [left; by vm_compute|].
  unfold Py.float_of_int, Np.ceil_int.
  rewrite (proj2 (Z.ltb_lt (Z.abs n) (2 ^ 63))) by lia.
  rewrite (proj2 (Z.ltb_lt n 0) Hn).
  rewrite FloatAxioms.sqrt_spec, FloatAxioms.opp_spec.
  pose proof (of_uint63_sign (Uint63.of_Z (- n))) as Hs.
  destruct (Prim2SF (PrimFloat.of_uint63 (Uint63.of_Z (- n)))) as [s|s| |s m e];
    try subst s; simpl; auto.
Qed.

(** X19. For a group of 1 to 10000 quotas the matrix has [cols] columns,
    the square root of the total rounded up, and the least number [rows] of
    rows that hold all the quotas, one less than [cols] or equal to it; every
    quota gets a cell inside the matrix, two quotas never the same one. *)
Theorem matrix_shape_fits (total : Z) :
  1 ≤ total ≤ 10000 →
  ∃ rows cols,
    VisualizarGrupoSimples.matrix_shape total = Some (rows, cols) ∧
    (cols - 1) * (cols - 1) < total ≤ cols * cols ∧
    (rows - 1) * cols < total ≤ rows * cols ∧
    cols - 1 ≤ rows ≤ cols ∧
    ∀ i, 0 ≤ i < total →
         0 ≤ (VisualizarGrupoSimples.cell cols i).1 < rows ∧
         0 ≤ (VisualizarGrupoSimples.cell cols i).2 < cols ∧
         i = (VisualizarGrupoSimples.cell cols i).1 * cols
             + (VisualizarGrupoSimples.cell cols i).2.
Proof.
  intros Ht. pose proof (shape_table total Ht) as Hok. unfold shape_ok in Hok.
  destruct (VisualizarGrupoSimples.matrix_shape total) as [[rows cols]|];
    [|done].
  apply andb_true_iff in Hok as [Hok H4]. apply andb_true_iff in Hok as [Hok H3].
  apply andb_true_iff in Hok as [H1 H2].
  apply Z.ltb_lt in H1, H3. apply Z.leb_le in H2, H4.
  exists rows, cols. split; [done|]. split; [lia|]. split; [lia|].
  assert (0 < cols) as Hcols by nia.
  split; [nia|].
  intros i Hi. unfold VisualizarGrupoSimples.cell. simpl.
  pose proof (Z.div_mod i cols ltac:(lia)) as Hdm.
  pose proof (Z.mod_pos_bound i cols Hcols) as Hmod.
  split; [|split; [lia | lia]].
  split; [apply Z.div_pos; lia|].
  apply Z.div_lt_upper_bound; [lia|]. nia.
Qed.

Lemma matrix_shape_fits_witness :
  ∃ rows cols,
    VisualizarGrupoSimples.matrix_shape 2500 = Some (rows, cols) ∧
    (cols - 1) * (cols - 1) < 2500 ≤ cols * cols ∧
    (rows - 1) * cols < 2500 ≤ rows * cols ∧
    cols - 1 ≤ rows ≤ cols ∧
    ∀ i, 0 ≤ i < 2500 →
         0 ≤ (VisualizarGrupoSimples.cell cols i).1 < rows ∧
         0 ≤ (VisualizarGrupoSimples.cell cols i).2 < cols ∧
         i = (VisualizarGrupoSimples.cell cols i).1 * cols
             + (VisualizarGrupoSimples.cell cols i).2.
Proof. apply (matrix_shape_fits 2500). lia. Defined.

(** X20. For a total of 0 quotas and for every negative total the
    computation of the matrix shape raises: the number of columns is 0, which
    the total is then divided by, or it is not a number, or the square root
    itself raises. *)
Theorem matrix_shape_raises (total : Z) :
  total ≤ 0 → VisualizarGrupoSimples.matrix_shape total = None.
Proof.
  intros Ht. destruct (decide (total = 0)) as [->|Hne]; [by vm_compute|].
  unfold VisualizarGrupoSimples.matrix_shape.
  destruct (Np.sqrt total) as [root|] eqn:Hroot; [|done].
  destruct (sqrt_negative total root ltac:(lia) Hroot) as [-> | ->]; done.
Qed.

Lemma matrix_shape_raises_witness : VisualizarGrupoSimples.matrix_shape (-4) = None.
Proof. apply (matrix_shape_raises (-4)). lia. Defined.

Example matrix_shape_of_ten : VisualizarGrupoSimples.matrix_shape 10 = Some (3, 4).
Proof. by vm_compute. Qed.

